(** * colabfold_analysis: contact detection and interface scoring

    A shallow embedding of [colabfold_analysis.py] and the properties of
    its contact detector, confidence-matrix lookup, interface scorer and
    per-model aggregation.

    Numbers.  Python [int] is [Z].  Python [float] is modelled by exact
    arithmetic: rationals [Q] wherever the code only adds, multiplies,
    divides and compares, and real numbers [R] for the one function that
    needs [exp] and [log10] (the pDockQ curve).  Rounding error of the
    IEEE doubles is therefore outside the model, but for the quotient of
    two [int]s that [summarize_interface_statistics] rounds to one
    decimal, which is the double nearest to the quotient.

    Errors.  A raised exception is the [Err] branch of [result]; the
    constructor records the exception class the interpreter raises.

    Dictionaries.  A Python [dict] keeps insertion order and the code
    iterates over [.items()], so a dictionary is an association list with
    the interpreter's update rule (an existing key keeps its place). *)

From Stdlib Require Import String Ascii List Bool Arith ZArith QArith Qminmax Qround Qabs.
From Stdlib Require Import DecimalString DecimalZ DecimalPos.
From Stdlib Require Import Sorted Permutation.
From Stdlib Require Import Lia Reals Psatz.
Import ListNotations.

Set Implicit Arguments.

(** ** Exceptions *)

Inductive error : Type :=
| ValueError
| IndexError
| KeyError
| ZeroDivisionError
| UnboundLocalError
| TypeError.

Inductive result (A : Type) : Type :=
| Ok (a : A)
| Err (e : error).

Arguments Ok {A} a.
Arguments Err {A} e.

Definition bind {A B : Type} (r : result A) (k : A -> result B) : result B :=
  match r with
  | Ok a => k a
  | Err e => Err e
  end.

Notation "x <- c ;; k" := (bind c (fun x => k))
  (at level 61, c at next level, right associativity).

Definition is_err {A : Type} (r : result A) : Prop :=
  exists e, r = Err e.

Fixpoint mapM {A B : Type} (f : A -> result B) (l : list A) : result (list B) :=
  match l with
  | [] => Ok []
  | a :: l' => b <- f a ;; bs <- mapM f l' ;; Ok (b :: bs)
  end.

(** A [for] loop whose body may raise: the state is threaded through the
    items in order and the first exception ends the loop. *)
Fixpoint foldM {S A : Type} (body : S -> A -> result S) (l : list A) (s : S)
  : result S :=
  match l with
  | [] => Ok s
  | a :: l' => s' <- body s a ;; foldM body l' s'
  end.

(** ** Dictionaries in insertion order *)

Definition dict (V : Type) : Type := list (string * V).

Fixpoint dict_get {V : Type} (k : string) (d : dict V) : option V :=
  match d with
  | [] => None
  | (k', v) :: d' => if String.eqb k k' then Some v else dict_get k d'
  end.

Definition dict_mem {V : Type} (k : string) (d : dict V) : bool :=
  match dict_get k d with Some _ => true | None => false end.

(** [d[k] = v] *)
Fixpoint dict_set {V : Type} (k : string) (v : V) (d : dict V) : dict V :=
  match d with
  | [] => [(k, v)]
  | (k', v') :: d' =>
      if String.eqb k k' then (k', v) :: d' else (k', v') :: dict_set k v d'
  end.

(** ** [distribute] *)

(** [distributed_lists[ix].append(item)] *)
Fixpoint append_at {A : Type} (ix : nat) (item : A) (bins : list (list A))
  : list (list A) :=
  match bins, ix with
  | [], _ => []
  | b :: bins', O => (b ++ [item]) :: bins'
  | b :: bins', S ix' => b :: append_at ix' item bins'
  end.

(** [enumerate(lst)] *)
Definition enumerate {A : Type} (lst : list A) : list (nat * A) :=
  combine (seq 0 (length lst)) lst.

(** The second loop of [distribute], for a bin count already clamped. *)
Definition distribute_loop {A : Type} (n_bins : nat) (items : list (nat * A))
  (bins : list (list A)) : list (list A) :=
  fold_left (fun acc p => append_at (fst p mod n_bins) (snd p) acc) items bins.

Definition distribute {A : Type} (lst : list A) (n_bins : Z)
  : result (list (list A)) :=
  if (n_bins <? 1)%Z then Err ValueError
  else
    let n_bins := Z.to_nat (Z.min n_bins (Z.of_nat (length lst))) in
    let distributed_lists := repeat ([] : list A) n_bins in
    Ok (distribute_loop n_bins (enumerate lst) distributed_lists).

(** ** [get_af_model_num] *)

(** [s.startswith(p)], returning what follows the prefix. *)
Fixpoint strip_prefix (p s : string) : option string :=
  match p, s with
  | EmptyString, _ => Some s
  | String a p', String b s' =>
      if Ascii.eqb a b then strip_prefix p' s' else None
  | String _ _, EmptyString => None
  end.

(** [p in s] for strings. *)
Fixpoint contains (p s : string) : bool :=
  match strip_prefix p s with
  | Some _ => true
  | None =>
      match s with
      | EmptyString => false
      | String _ s' => contains p s'
      end
  end.

Definition is_digit (c : ascii) : bool :=
  let n := nat_of_ascii c in (48 <=? n)%nat && (n <=? 57)%nat.

(** The longest run of decimal digits at the head of [s]. *)
Fixpoint take_digits (s : string) : list ascii :=
  match s with
  | EmptyString => []
  | String c s' => if is_digit c then c :: take_digits s' else []
  end.

(** [int(ds)] for a run of decimal digits. *)
Definition int_of_digits (ds : list ascii) : Z :=
  fold_left (fun acc c => (10 * acc + Z.of_nat (nat_of_ascii c - 48))%Z) ds 0%Z.

(** [re.findall(r'model_\d+', s)[0].replace("model_", '')]: the digits of
    the leftmost place where [model_] is followed by a digit; [None] when
    [findall] returns the empty list. *)
Fixpoint first_model_digits (s : string) : option (list ascii) :=
  let here :=
    match strip_prefix "model_" s with
    | Some rest =>
        match take_digits rest with
        | [] => None
        | ds => Some ds
        end
    | None => None
    end in
  match here with
  | Some ds => Some ds
  | None =>
      match s with
      | EmptyString => None
      | String _ s' => first_model_digits s'
      end
  end.

Definition get_af_model_num (filename : string) : result Z :=
  if negb (contains "model_" filename) then Ok 0%Z
  else
    match first_model_digits filename with
    | Some ds => Ok (int_of_digits ds)
    | None => Err IndexError
    end.


(** ** Python's rounding, on exact numbers *)

Local Open Scope Q_scope.

(** [round(y)] to the nearest integer, ties to the even one. *)
Definition round_half_even (y : Q) : Z :=
  let f := Qfloor y in
  match ((y - inject_Z f) ?= (1 # 2))%Q with
  | Lt => f
  | Gt => (f + 1)%Z
  | Eq => if Z.even f then f else (f + 1)%Z
  end.

(** [round(x, 1)] of the number [x] itself: the nearest tenth, a tie
    going to the even tenth.  The interpreter rounds the double that
    stands for [x], which lies beside a decimal tie such as 0.35 and not
    on it; a property that depends on a rounded float is therefore
    stated as a bound on its distance from [x]. *)
Definition round1 (x : Q) : Q := inject_Z (round_half_even (x * 10)) / 10.

(** [round(math.sqrt(x), 1)] for [x >= 0], of the root itself as for
    [round1]: ten times the root lies between [m] and [m + 1] for [m] the
    integer root of [floor(100 x)], and the comparison with the midpoint
    is made on the squares. *)
Definition round1_sqrt (x : Q) : Q :=
  let y := x * 100 in
  let m := Z.sqrt (Qfloor y) in
  let mid := (inject_Z m + (1 # 2)) * (inject_Z m + (1 # 2)) in
  let r :=
    match y ?= mid with
    | Lt => m
    | Gt => (m + 1)%Z
    | Eq => if Z.even m then m else (m + 1)%Z
    end in
  inject_Z r / 10.

Definition Qltb (x y : Q) : bool := negb (Qle_bool y x).

(** ** Structure model *)

(** Three coordinates.  [dist2] checks [len(v) == 3] on both arguments and
    raises otherwise; every vector the program builds has three entries,
    which the type records. *)
Definition vec3 : Type := (Q * Q * Q)%type.

Definition dist2 (v1 v2 : vec3) : Q :=
  let '(x1, y1, z1) := v1 in
  let '(x2, y2, z2) := v2 in
  (x1 - x2) * (x1 - x2) + (y1 - y2) * (y1 - y2) + (z1 - z2) * (z1 - z2).

(** One line of a PDB file, as the fixed columns the parser slices.  The
    numeric columns hold what [int] and [float] return on them. *)
Record pdb_line : Type := mk_pdb_line {
  l_record : string;      (* atom_line[0:4] *)
  l_atom_type : string;   (* atom_line[13:16].strip() *)
  l_atm_name : string;    (* line[12:16].strip(), read by parse_atm_record *)
  l_chain_id : string;    (* line[21], read by parse_atm_record *)
  l_res_name : string;    (* atom_line[17:20] *)
  l_chain : string;       (* atom_line[20:22].strip() *)
  l_res_seq : Z;          (* int(atom_line[22:26]) *)
  l_xyz : vec3;           (* float of atom_line[30:38], [38:46], [46:54] *)
  l_bfactor : Q           (* float(atom_line[60:66]) *)
}.

Record atom : Type := mk_atom {
  atom_type : string;
  xyz : vec3
}.

Record residue : Type := mk_residue {
  chain : string;
  atoms : list atom;
  c_ix : Z;
  a_ix : Z;
  aa_type : ascii;
  plddt : Q
}.

Definition aa_entry (code : string) (letter : ascii) : string * ascii :=
  (code, letter).

Definition aa_3c_to_1c_table : list (string * ascii) :=
  [
    aa_entry "ALA" "A"; aa_entry "CYS" "C"; aa_entry "ASP" "D"; aa_entry "GLU" "E";
    aa_entry "PHE" "F"; aa_entry "GLY" "G"; aa_entry "HIS" "H"; aa_entry "ILE" "I";
    aa_entry "LYS" "K"; aa_entry "LEU" "L"; aa_entry "MET" "M"; aa_entry "ASN" "N";
    aa_entry "PRO" "P"; aa_entry "GLN" "Q"; aa_entry "ARG" "R"; aa_entry "SER" "S";
    aa_entry "THR" "T"; aa_entry "VAL" "V"; aa_entry "TRP" "W"; aa_entry "TYR" "Y"
  ].

Definition aa_3c_to_1c (code : string) : option ascii :=
  dict_get code aa_3c_to_1c_table.

(** [c in s] for a one-letter string [c]. *)
Fixpoint char_in (c : ascii) (s : string) : bool :=
  match s with
  | EmptyString => false
  | String c' s' => Ascii.eqb c c' || char_in c s'
  end.

Definition atom_from_pdb_line (atom_line : pdb_line) : atom :=
  {| atom_type := l_atom_type atom_line; xyz := l_xyz atom_line |}.

(** ** [get_closest_atoms] *)

Definition min_d2_init : Q := 1000000.

Definition closest_step (a1 a2 : atom) (acc : Q * option (atom * atom))
  : Q * option (atom * atom) :=
  let d2 := dist2 (xyz a1) (xyz a2) in
  if Qltb d2 (fst acc) then (d2, Some (a1, a2)) else acc.

Definition get_closest_atoms (res1 res2 : residue) : Q * option (atom * atom) :=
  fold_left
    (fun acc a1 => fold_left (fun acc a2 => closest_step a1 a2 acc) (atoms res2) acc)
    (atoms res1) (min_d2_init, None).

(** ** [get_contacts_from_structure]: the parsing loop *)

(** The loop's variables.  [chain_index] is always [len(chains) - 1], and
    [residue] is the dictionary appended last to [residues[chain_index]],
    so an append to [residue['atoms']] is an append to the atoms of the
    last residue of the last chain; [residue] is unbound until the first
    residue is made. *)
Record parse_state : Type := mk_parse_state {
  last_chain : option string;
  abs_res_index : Z;
  chains : list string;
  residues : list (list residue);
  N_coords : list (list vec3)
}.

Definition parse_init : parse_state :=
  {| last_chain := None; abs_res_index := 0; chains := [];
     residues := []; N_coords := [] |}.

(** [xs[-1] = f(xs[-1])]; [None] on the empty list. *)
Fixpoint update_last {A : Type} (f : A -> A) (xs : list A) : option (list A) :=
  match xs with
  | [] => None
  | [x] => Some [f x]
  | x :: xs' =>
      match update_last f xs' with
      | Some ys => Some (x :: ys)
      | None => None
      end
  end.

Definition add_atom (a : atom) (r : residue) : residue :=
  {| chain := chain r; atoms := atoms r ++ [a]; c_ix := c_ix r;
     a_ix := a_ix r; aa_type := aa_type r; plddt := plddt r |}.

(** [residue['atoms'].append(atom)] *)
Definition append_atom (a : atom) (rs : list (list residue))
  : result (list (list residue)) :=
  match rs with
  | [] => Err UnboundLocalError
  | _ =>
      match update_last
              (fun c => match update_last (add_atom a) c with
                        | Some c' => c'
                        | None => c
                        end) rs with
      | Some rs' => Ok rs'
      | None => Err UnboundLocalError
      end
  end.

(** [xs[-1].append(x)] *)
Definition push_last {A : Type} (x : A) (xs : list (list A)) : list (list A) :=
  match update_last (fun c => c ++ [x]) xs with
  | Some ys => ys
  | None => xs
  end.

Definition same_chain (c : string) (last : option string) : bool :=
  match last with
  | Some c' => String.eqb c c'
  | None => false
  end.

Definition is_atom_record (l : pdb_line) : bool := String.eqb (l_record l) "ATOM".

Definition is_nitrogen (l : pdb_line) : bool := String.eqb (l_atom_type l) "N".

(** One turn of the loop over the file's lines. *)
Definition parse_line (min_plddt : Q) (valid_aas : string)
  (st : parse_state) (atom_line : pdb_line) : result parse_state :=
  if negb (is_atom_record atom_line) then Ok st
  else
    let abs_res_index' :=
      if is_nitrogen atom_line then (abs_res_index st + 1)%Z
      else abs_res_index st in
    let st1 :=
      {| last_chain := last_chain st; abs_res_index := abs_res_index';
         chains := chains st; residues := residues st;
         N_coords := N_coords st |} in
    let bfactor := l_bfactor atom_line in
    if Qltb bfactor min_plddt then Ok st1
    else
      match aa_3c_to_1c (l_res_name atom_line) with
      | None => Err KeyError
      | Some aa =>
          if (0 <? String.length valid_aas)%nat && negb (char_in aa valid_aas)
          then Ok st1
          else
            let a := atom_from_pdb_line atom_line in
            let st2 :=
              if is_nitrogen atom_line then
                let ch := l_chain atom_line in
                let new_chain := negb (same_chain ch (last_chain st1)) in
                let chains' :=
                  if new_chain then chains st1 ++ [ch] else chains st1 in
                let residues' :=
                  if new_chain then residues st1 ++ [[]] else residues st1 in
                let N_coords' :=
                  if new_chain then N_coords st1 ++ [[]] else N_coords st1 in
                let r :=
                  {| chain := ch; atoms := []; c_ix := l_res_seq atom_line;
                     a_ix := abs_res_index'; aa_type := aa;
                     plddt := bfactor |} in
                {| last_chain := Some ch; abs_res_index := abs_res_index';
                   chains := chains';
                   residues := push_last r residues';
                   N_coords := push_last (xyz a) N_coords' |}
              else st1 in
            rs <- append_atom a (residues st2) ;;
            Ok {| last_chain := last_chain st2;
                  abs_res_index := abs_res_index st2;
                  chains := chains st2; residues := rs;
                  N_coords := N_coords st2 |}
      end.

Definition parse_structure (min_plddt : Q) (valid_aas : string)
  (lines : list pdb_line) : result parse_state :=
  foldM (parse_line min_plddt valid_aas) lines parse_init.

(** ** [get_contacts_from_structure]: the two-phase search *)

Record contact_aa : Type := mk_contact_aa {
  ca_chain : string;
  ca_type : ascii;
  ca_c_ix : Z;
  ca_a_ix : Z;
  ca_atom : string;
  ca_plddt : Q
}.

Record contact : Type := mk_contact {
  distance : Q;
  aa1 : contact_aa;
  aa2 : contact_aa
}.

(** The pairs that [np.where] finds in [d2s < d2_n_cutoff]: the index
    pairs whose nitrogens are closer than the relaxed cutoff, in row-major
    order. *)
Definition index_pairs (d2_n_cutoff : Q) (chain_1_coords chain_2_coords : list vec3)
  : list (nat * nat) :=
  flat_map
    (fun p1 =>
       flat_map
         (fun p2 =>
            if Qltb (dist2 (snd p1) (snd p2)) d2_n_cutoff
            then [(fst p1, fst p2)] else [])
         (enumerate chain_2_coords))
    (enumerate chain_1_coords).

Definition nth_res {A : Type} (l : list A) (i : nat) : result A :=
  match nth_error l i with
  | Some x => Ok x
  | None => Err IndexError
  end.

Definition contact_of (min_d2 : Q) (r1 r2 : residue) (a1 a2 : atom) : contact :=
  {| distance := round1_sqrt min_d2;
     aa1 := {| ca_chain := chain r1; ca_type := aa_type r1; ca_c_ix := c_ix r1;
               ca_a_ix := a_ix r1; ca_atom := atom_type a1;
               ca_plddt := plddt r1 |};
     aa2 := {| ca_chain := chain r2; ca_type := aa_type r2; ca_c_ix := c_ix r2;
               ca_a_ix := a_ix r2; ca_atom := atom_type a2;
               ca_plddt := plddt r2 |} |}.

(** The narrow phase on one candidate pair. *)
Definition narrow_step (d2_cutoff : Q) (res1 res2 : list residue)
  (contacts : list contact) (ix : nat * nat) : result (list contact) :=
  r1 <- nth_res res1 (fst ix) ;;
  r2 <- nth_res res2 (snd ix) ;;
  let '(min_d2, closest) := get_closest_atoms r1 r2 in
  if Qltb min_d2 d2_cutoff then
    match closest with
    | Some (a1, a2) => Ok (contacts ++ [contact_of min_d2 r1 r2 a1 a2])
    | None => Err TypeError
    end
  else Ok contacts.

(** The body of the loop over [i2] for a fixed [i]. *)
Definition chain_pair_step (d2_n_cutoff d2_cutoff : Q) (st : parse_state)
  (i : nat) (chain_1_coords : list vec3) (contacts : list contact) (i2 : nat)
  : result (list contact) :=
  chain_2_coords <- nth_res (N_coords st) i2 ;;
  res1 <- nth_res (residues st) i ;;
  res2 <- nth_res (residues st) i2 ;;
  foldM (narrow_step d2_cutoff res1 res2)
        (index_pairs d2_n_cutoff chain_1_coords chain_2_coords) contacts.

Definition find_contacts (max_distance : Q) (within_chain : bool)
  (st : parse_state) : result (list contact) :=
  let d2_n_cutoff := (max_distance + 20) * (max_distance + 20) in
  let d2_cutoff := max_distance * max_distance in
  let num_chains := length (chains st) in
  foldM
    (fun contacts i =>
       chain_1_coords <- nth_res (N_coords st) i ;;
       let i2_start := if within_chain then i else S i in
       foldM (chain_pair_step d2_n_cutoff d2_cutoff st i chain_1_coords)
             (seq i2_start (num_chains - i2_start)) contacts)
    (seq 0 num_chains) [].

(** ** Confidence matrix and contact filtering *)

(** [lst[i]] with Python's negative indices. *)
Definition py_getitem {A : Type} (l : list A) (i : Z) : result A :=
  let n := Z.of_nat (length l) in
  let j := if (i <? 0)%Z then (i + n)%Z else i in
  if (j <? 0)%Z || (n <=? j)%Z then Err IndexError
  else nth_res l (Z.to_nat j).

(** An entry of the flattened matrix is a piece of text until it is used;
    it is modelled by what [float] makes of it, [None] when [float]
    raises. *)
Definition pae_token : Type := option Q.

Definition float_of (t : pae_token) : result Q :=
  match t with
  | Some q => Ok q
  | None => Err ValueError
  end.

(** The offset of entry [(a, b)], for 1-based residue indices, in a
    row-major matrix with rows of [total_aa_length] entries. *)
Definition pae_index (total_aa_length a b : Z) : Z :=
  (total_aa_length * (a - 1) + b - 1)%Z.

(** The two directional values of a residue pair and their combination. *)
Definition pae_lookup (pae_data : list pae_token) (total_aa_length : Z)
  (pae_mode : string) (a0 a1 : Z) : result (Q * (Q * Q)) :=
  let pae_index_1 := pae_index total_aa_length a0 a1 in
  let pae_index_2 := pae_index total_aa_length a1 a0 in
  let n := Z.of_nat (length pae_data) in
  if (n <=? pae_index_1)%Z || (n <=? pae_index_2)%Z then Err ValueError
  else
    t0 <- py_getitem pae_data pae_index_1 ;;
    v0 <- float_of t0 ;;
    t1 <- py_getitem pae_data pae_index_2 ;;
    v1 <- float_of t1 ;;
    let pae_value :=
      if String.eqb pae_mode "avg" then (1 # 2) * (v0 + v1) else Qmin v0 v1 in
    Ok (pae_value, (v0, v1)).

Record contact_entry : Type := mk_contact_entry {
  ce_chains : string * string;
  ce_inchain_indices : Z * Z;
  ce_types : ascii * ascii;
  ce_pae : Q;
  ce_paes : Q * Q;
  ce_plddts : Q * Q;
  ce_model : Z;
  ce_distance : Q
}.

(** [str(n)] for an integer. *)
Definition str_of_int (n : Z) : string := NilZero.string_of_int (Z.to_int n).

(** One turn of the loop of [get_contacts] over the geometric contacts;
    [None] is a [continue]. *)
Definition filter_contact (ignore_pae : bool) (pae_data : list pae_token)
  (total_aa_length : Z) (max_pae : Q) (pae_mode valid_aas : string)
  (model_num : Z) (c : contact)
  : result (option (string * string * contact_entry)) :=
  let a0 := ca_a_ix (aa1 c) in
  let a1 := ca_a_ix (aa2 c) in
  pae <- (if ignore_pae then Ok (0, (0, 0))
          else pae_lookup pae_data total_aa_length pae_mode a0 a1) ;;
  let pae_value := fst pae in
  if negb ignore_pae && Qltb max_pae pae_value then Ok None
  else if (0 <? String.length valid_aas)%nat
          && (negb (char_in (ca_type (aa1 c)) valid_aas)
              || negb (char_in (ca_type (aa2 c)) valid_aas))
  then Ok None
  else
    let chain_contact_id := (ca_chain (aa1 c) ++ ":" ++ ca_chain (aa2 c))%string in
    let contact_id := (str_of_int a0 ++ "&" ++ str_of_int a1)%string in
    Ok (Some (chain_contact_id, contact_id,
              {| ce_chains := (ca_chain (aa1 c), ca_chain (aa2 c));
                 ce_inchain_indices := (ca_c_ix (aa1 c), ca_c_ix (aa2 c));
                 ce_types := (ca_type (aa1 c), ca_type (aa2 c));
                 ce_pae := pae_value;
                 ce_paes := snd pae;
                 ce_plddts := (ca_plddt (aa1 c), ca_plddt (aa2 c));
                 ce_model := model_num;
                 ce_distance := distance c |})).

(** [filtered_contacts[chain_contact_id][contact_id] = entry], the inner
    dictionary made first when the chain pair is new. *)
Definition add_contact (chain_contact_id contact_id : string) (e : contact_entry)
  (filtered_contacts : dict (dict contact_entry)) : dict (dict contact_entry) :=
  let inner :=
    match dict_get chain_contact_id filtered_contacts with
    | Some d => d
    | None => []
    end in
  dict_set chain_contact_id (dict_set contact_id e inner) filtered_contacts.

Definition filter_step (ignore_pae : bool) (pae_data : list pae_token)
  (total_aa_length : Z) (max_pae : Q) (pae_mode valid_aas : string)
  (model_num : Z) (filtered_contacts : dict (dict contact_entry)) (c : contact)
  : result (dict (dict contact_entry)) :=
  kept <- filter_contact ignore_pae pae_data total_aa_length max_pae pae_mode
            valid_aas model_num c ;;
  match kept with
  | None => Ok filtered_contacts
  | Some (chain_contact_id, contact_id, e) =>
      Ok (add_contact chain_contact_id contact_id e filtered_contacts)
  end.

(** ** [calculate_interface_statistics] *)

Record interface_stats : Type := mk_interface_stats {
  num_contacts : Z;
  plddt_stats : Q * Q * Q;    (* [plddt_min, plddt_avg, plddt_max] *)
  pae_stats : Q * Q * Q;      (* [pae_min, pae_avg, pae_max] *)
  distance_avg : Q
}.

Record stats_acc : Type := mk_stats_acc {
  plddt_sum : Q;
  plddt_min : Q;
  plddt_max : Q;
  pae_sum : Q;
  pae_min : Q;
  pae_max : Q;
  d_sum : Q;
  acc_num_contacts : Z
}.

Definition stats_init : stats_acc :=
  {| plddt_sum := 0; plddt_min := 100; plddt_max := 0;
     pae_sum := 0; pae_min := 30; pae_max := 0;
     d_sum := 0; acc_num_contacts := 0 |}.

Definition stats_step (acc : stats_acc) (kv : string * contact_entry) : stats_acc :=
  let c := snd kv in
  let avg_plddt := (fst (ce_plddts c) + snd (ce_plddts c)) / 2 in
  {| plddt_sum := plddt_sum acc + avg_plddt;
     plddt_min := Qmin (plddt_min acc) avg_plddt;
     plddt_max := Qmax (plddt_max acc) avg_plddt;
     pae_sum := pae_sum acc + ce_pae c;
     pae_min := Qmin (pae_min acc) (ce_pae c);
     pae_max := Qmax (pae_max acc) (ce_pae c);
     d_sum := d_sum acc + ce_distance c;
     acc_num_contacts := (acc_num_contacts acc + 1)%Z |}.

Definition calculate_interface_statistics (interchain_id : string)
  (contacts : dict (dict contact_entry)) : interface_stats :=
  let interchain_contacts :=
    match dict_get interchain_id contacts with
    | None => []
    | Some d => d
    end in
  let acc := fold_left stats_step interchain_contacts stats_init in
  let n := acc_num_contacts acc in
  if (0 <? n)%Z then
    {| num_contacts := n;
       plddt_stats := (plddt_min acc, round1 (plddt_sum acc / inject_Z n),
                       plddt_max acc);
       pae_stats := (pae_min acc, round1 (pae_sum acc / inject_Z n),
                     pae_max acc);
       distance_avg := round1 (d_sum acc / inject_Z n) |}
  else
    {| num_contacts := n;
       plddt_stats := (0, 0, plddt_max acc);
       pae_stats := (0, 0, pae_max acc);
       distance_avg := 0 |}.

(** ** [str.split] on a one-character separator *)

Fixpoint split_on (sep : ascii) (s : string) : list string :=
  match s with
  | EmptyString => [EmptyString]
  | String c s' =>
      if Ascii.eqb c sep then EmptyString :: split_on sep s'
      else
        match split_on sep s' with
        | [] => [String c EmptyString]
        | w :: ws => String c w :: ws
        end
  end.

(** ** [list.sort(key=get_af_model_num)] *)

Fixpoint insert_by_key (x : Z * string) (l : list (Z * string)) : list (Z * string) :=
  match l with
  | [] => [x]
  | y :: l' => if (fst x <=? fst y)%Z then x :: l else y :: insert_by_key x l'
  end.

(** The keys are computed first, then the list is sorted by them, equal
    keys keeping their order. *)
Definition sort_by_model_num (files : list string) : result (list string) :=
  keys <- mapM get_af_model_num files ;;
  Ok (map snd (fold_right insert_by_key [] (combine keys files))).

(** ** Functions that read files *)

Section Files.

(** [get_lines_from_pdb_file]: the lines of a structure file, or the
    exception raised for a missing file or a wrong extension. *)
Variable get_lines_from_pdb_file : string -> result (list pdb_line).

(** The first part of [get_pae_values_from_json_file]: the file is opened
    (an exception for a missing file or a wrong extension) and the text
    after the [pae] key is cut at the commas. *)
Variable pae_payload : string -> result (list pae_token).

(** [round(get_pdockq_elofsson(pdb_filename, chains), 3)].  The score is
    computed with [exp] and [log10], for which [get_pdockq_elofsson] below
    is the model over the real numbers; the aggregation takes its rounded
    value as given. *)
Variable pdockq_rounded : string -> list string -> result Q.

(** The length test: [int(math.sqrt(n)) ** 2 != n].  [math.sqrt] works on
    a double; for the lengths of files (far below 2^52) the integer part
    of its result is the integer square root. *)
Definition get_pae_values_from_json_file (json_filename : string)
  : result (list pae_token) :=
  pae_data <- pae_payload json_filename ;;
  let n := Z.of_nat (length pae_data) in
  if negb (n =? Z.sqrt n * Z.sqrt n)%Z then Err ValueError
  else Ok pae_data.

Definition get_contacts_from_structure (pdb_filename : string)
  (max_distance min_plddt : Q) (valid_aas : string) (within_chain : bool)
  : result (list contact) :=
  lines <- get_lines_from_pdb_file pdb_filename ;;
  st <- parse_structure min_plddt valid_aas lines ;;
  find_contacts max_distance within_chain st.

Definition get_contacts (pdb_filename pae_filename : string)
  (max_distance min_plddt max_pae : Q) (pae_mode valid_aas : string)
  : result (dict (dict contact_entry)) :=
  let ignore_pae := (String.length pae_filename =? 0)%nat in
  model_num <- get_af_model_num pdb_filename ;;
  if (model_num <? 1)%Z || (5 <? model_num)%Z then Err ValueError
  else
    pae_model_ok <-
      (if ignore_pae then Ok true
       else
         pae_model_num <- get_af_model_num pae_filename ;;
         Ok (model_num =? pae_model_num)%Z) ;;
    if negb pae_model_ok then Err ValueError
    else
      contacts <- get_contacts_from_structure pdb_filename max_distance
                    min_plddt valid_aas false ;;
      if (length contacts <? 1)%nat then Ok []
      else
        pae <-
          (if ignore_pae then Ok ([], 0%Z)
           else
             pae_data <- get_pae_values_from_json_file pae_filename ;;
             Ok (pae_data, Z.sqrt (Z.of_nat (length pae_data)))) ;;
        foldM (filter_step ignore_pae (fst pae) (snd pae) max_pae pae_mode
                 valid_aas model_num)
              contacts [].

Definition get_chain_list_names (pdb_filename : string) : result (list string) :=
  lines <- get_lines_from_pdb_file pdb_filename ;;
  Ok (snd (fold_left
             (fun (acc : option string * list string) atom_line =>
                if negb (is_atom_record atom_line) then acc
                else
                  let ch := l_chain atom_line in
                  if negb (same_chain ch (fst acc)) then (Some ch, snd acc ++ [ch])
                  else acc)
             lines (None, []))).

(** ** [analyze_complexes]: the statistics of one model *)

Record pair_stats : Type := mk_pair_stats {
  ps_interface : interface_stats;
  ps_pdockq : Q
}.

(** The running totals and the entries of [if_stats] made so far; an
    entry is the group of keys that end in one chain-pair label. *)
Record model_acc : Type := mk_model_acc {
  model_total_pdockq : Q;
  model_total_plddt : Q;
  model_total_pae : Q;
  if_pairs : dict pair_stats
}.

Record if_stats : Type := mk_if_stats {
  pair_entries : dict pair_stats;
  model_all_avg_pdockq : Q;
  model_all_avg_plddt : Q;
  model_all_avg_pae : Q
}.

(** The body of the loop over [i2]. *)
Definition pair_step (pdb_filename : string)
  (contacts : dict (dict contact_entry)) (chain_list chain_list_lbl : list string)
  (chain1 chain1_lbl : string) (acc : model_acc) (i2 : nat) : result model_acc :=
  chain2 <- nth_res chain_list i2 ;;
  chain2_lbl <- nth_res chain_list_lbl i2 ;;
  let chain_idx := (chain1 ++ ":" ++ chain2)%string in
  let chain_lbl := (chain1_lbl ++ ":" ++ chain2_lbl)%string in
  let if_stats_lbl := calculate_interface_statistics chain_idx contacts in
  pdockq <-
    (if (0 <? num_contacts if_stats_lbl)%Z
     then pdockq_rounded pdb_filename (split_on ":" chain_idx)
     else Ok 0) ;;
  Ok {| model_total_pdockq := model_total_pdockq acc + pdockq;
        model_total_plddt :=
          model_total_plddt acc + snd (fst (plddt_stats if_stats_lbl));
        model_total_pae :=
          model_total_pae acc + snd (fst (pae_stats if_stats_lbl));
        if_pairs :=
          dict_set chain_lbl
            {| ps_interface := if_stats_lbl; ps_pdockq := pdockq |}
            (if_pairs acc) |}.

(** The body of the loop over [i]. *)
Definition chain_step (pdb_filename : string)
  (contacts : dict (dict contact_entry)) (chain_list chain_list_lbl : list string)
  (acc : model_acc) (i : nat) : result model_acc :=
  chain1 <- nth_res chain_list i ;;
  chain1_lbl <- nth_res chain_list_lbl i ;;
  let i2_start := S i in
  foldM (pair_step pdb_filename contacts chain_list chain_list_lbl chain1 chain1_lbl)
        (seq i2_start (length chain_list - i2_start)) acc.

(** [total / len(chain_list)] *)
Definition div_by_len (total : Q) (n : nat) : result Q :=
  if (n =? 0)%nat then Err ZeroDivisionError
  else Ok (total / inject_Z (Z.of_nat n)).

(** The totals of a model and its [if_stats], from the chains of its
    structure file, the labels of the complex and its contacts. *)
Definition model_if_stats (pdb_filename : string)
  (contacts : dict (dict contact_entry)) (chain_list chain_list_lbl : list string)
  : result (Q * if_stats) :=
  acc <- foldM (chain_step pdb_filename contacts chain_list chain_list_lbl)
           (seq 0 (length chain_list))
           {| model_total_pdockq := 0; model_total_plddt := 0;
              model_total_pae := 0; if_pairs := [] |} ;;
  avg_pdockq <- div_by_len (model_total_pdockq acc) (length chain_list) ;;
  avg_plddt <- div_by_len (model_total_plddt acc) (length chain_list) ;;
  avg_pae <- div_by_len (model_total_pae acc) (length chain_list) ;;
  Ok (model_total_pdockq acc,
      {| pair_entries := if_pairs acc;
         model_all_avg_pdockq := avg_pdockq;
         model_all_avg_plddt := avg_plddt;
         model_all_avg_pae := avg_pae |}).

(** ** [analyze_complexes]: the models of one complex *)

(** [best_interface_stats]: the [if_stats] kept so far and the
    [model_num] stored in it. *)
Definition best_stats : Type := (if_stats * Z)%type.

(** The update of [best_interface_stats] after a model. *)
Definition update_best (best : option best_stats) (model_total_pdockq : Q)
  (stats : if_stats) (model_num : Z) : option best_stats :=
  match best with
  | None => Some (stats, model_num)
  | Some b =>
      if Qltb (model_all_avg_pdockq (fst b)) model_total_pdockq
      then Some (stats, model_num)
      else Some b
  end.

(** The body of the loop over the pairs of structure and matrix files. *)
Definition model_step (complex_name : string)
  (max_distance min_plddt max_pae : Q) (pae_mode valid_aas : string)
  (st : option best_stats * list (Z * if_stats)) (files : string * string)
  : result (option best_stats * list (Z * if_stats)) :=
  let pdb_filename := fst files in
  let pae_filename := snd files in
  model_num <- get_af_model_num pdb_filename ;;
  chain_list <- get_chain_list_names pdb_filename ;;
  let chain_list_lbl := split_on "_" complex_name in
  contacts <- get_contacts pdb_filename pae_filename max_distance min_plddt
                max_pae pae_mode valid_aas ;;
  r <- model_if_stats pdb_filename contacts chain_list chain_list_lbl ;;
  Ok (update_best (fst st) (fst r) (snd r) model_num,
      snd st ++ [(model_num, snd r)]).

Record complex_summary : Type := mk_complex_summary {
  best_model_num : Z;
  best_avg_pdockq : Q;
  best_avg_plddt : Q;
  best_avg_pae : Q;
  all_interface_stats : list (Z * if_stats)
}.

(** One turn of the loop over the complexes, from the file lists that
    [glob] found for the complex; [None] when the complex is skipped. *)
Definition analyze_complex (complex_name : string)
  (pdb_filepaths pae_glob : list string)
  (max_distance min_plddt max_pae : Q) (pae_mode valid_aas : string)
  (ignore_pae : bool) : result (option complex_summary) :=
  if (length pdb_filepaths <? 1)%nat then Ok None
  else if negb ignore_pae
          && negb (length pdb_filepaths =? length pae_glob)%nat
  then Ok None
  else
    pdb_sorted <- sort_by_model_num pdb_filepaths ;;
    pae_filepaths <-
      (if ignore_pae then Ok (map (fun _ => EmptyString) pdb_sorted)
       else sort_by_model_num pae_glob) ;;
    st <- foldM (model_step complex_name max_distance min_plddt max_pae
                   pae_mode valid_aas)
            (combine pdb_sorted pae_filepaths) (None, []) ;;
    match fst st with
    | None => Err TypeError
    | Some b =>
        Ok (Some {| best_model_num := snd b;
                    best_avg_pdockq := model_all_avg_pdockq (fst b);
                    best_avg_plddt := model_all_avg_plddt (fst b);
                    best_avg_pae := model_all_avg_pae (fst b);
                    all_interface_stats := snd st |})
    end.

(** The loop over the complexes.  Every complex comes with the file lists
    that [glob] finds for its name; [complex_name] is computed from the
    input folder and is the same at every turn, so a later complex takes
    the place of an earlier one in [summary_stats].  An exception ends
    the loop.  The consensus counts of [summarize_interface_statistics]
    and the CSV reports are not part of this model. *)
Definition analyze_complexes (complex_name : string)
  (complexes : list (string * (list string * list string)))
  (max_distance min_plddt max_pae : Q) (pae_mode valid_aas : string)
  (ignore_pae : bool) : result (dict complex_summary) :=
  foldM
    (fun summary_stats c =>
       r <- analyze_complex complex_name (fst (snd c)) (snd (snd c))
              max_distance min_plddt max_pae pae_mode valid_aas ignore_pae ;;
       match r with
       | None => Ok summary_stats
       | Some stats => Ok (dict_set complex_name stats summary_stats)
       end)
    complexes [].

End Files.

(** ** [get_pdockq_elofsson] *)

(** The curve fitted by Bryant et al.; [n_if_contacts] is a count. *)
Definition log10 (x : R) : R := (ln x / ln 10)%R.

Definition pdockq_curve (avg_if_plddt : R) (n_if_contacts : nat) : R :=
  let x := (avg_if_plddt * log10 (INR n_if_contacts))%R in
  (0.724 / (1 + exp (- 0.052 * (x - 152.611))) + 0.018)%R.

(** [chain_coords] and [chain_plddt], which the loop fills together. *)
Definition chain_table : Type := dict (list vec3 * list Q).

(** One turn of the loop over the lines.  [chains] is the optional list of
    chains, empty when it is not given.  The residue name is compared
    with [GLY] after [strip], which changes nothing for a slice of three
    columns. *)
Definition pdockq_line (chains : list string) (tbl : chain_table)
  (line : pdb_line) : chain_table :=
  if negb (is_atom_record line) then tbl
  else if negb (length chains =? 0)%nat
          && negb (existsb (String.eqb (l_chain_id line)) chains)
  then tbl
  else if String.eqb (l_atm_name line) "CB"
          || (String.eqb (l_atm_name line) "CA"
              && String.eqb (l_res_name line) "GLY")
  then
    match dict_get (l_chain_id line) tbl with
    | Some (cs, ps) =>
        dict_set (l_chain_id line)
          (cs ++ [l_xyz line], ps ++ [l_bfactor line]) tbl
    | None =>
        dict_set (l_chain_id line) ([l_xyz line], [l_bfactor line]) tbl
    end
  else tbl.

(** [np.argwhere(contact_dists <= 8)]: the distance is the root of
    [dist2], so the test is made on the squares. *)
Definition pdockq_contacts (coords1 coords2 : list vec3) : list (nat * nat) :=
  flat_map
    (fun p1 =>
       flat_map
         (fun p2 =>
            if Qle_bool (dist2 (snd p1) (snd p2)) 64
            then [(fst p1, fst p2)] else [])
         (enumerate coords2))
    (enumerate coords1).

(** [values[np.unique(ixs)]]: the entries of [values] whose index occurs
    in [ixs], by increasing index. *)
Definition take_unique (values : list Q) (ixs : list nat) : list Q :=
  flat_map
    (fun p => if existsb (Nat.eqb (fst p)) ixs then [snd p] else [])
    (enumerate values).

Definition Qsum (l : list Q) : Q := fold_left Qplus l 0.

(** [np.average] of the confidences of the residues in contact. *)
Definition avg_if_plddt (plddt1 plddt2 : list Q) (contacts : list (nat * nat)) : Q :=
  let picked :=
    take_unique plddt1 (map fst contacts) ++ take_unique plddt2 (map snd contacts) in
  Qsum picked / inject_Z (Z.of_nat (length picked)).

(** The score from the table of the two chains. *)
Definition pdockq_of_table (tbl : chain_table) : result R :=
  match tbl with
  | [(_, (coords1, plddt1)); (_, (coords2, plddt2))] =>
      let contacts := pdockq_contacts coords1 coords2 in
      if (length contacts <? 1)%nat then Ok 0%R
      else
        Ok (pdockq_curve (Q2R (avg_if_plddt plddt1 plddt2 contacts))
              (length contacts))
  | _ => Err ValueError
  end.

Definition get_pdockq_elofsson
  (get_lines_from_pdb_file : string -> result (list pdb_line))
  (pdb_filepath : string) (chains : list string) : result R :=
  lines <- get_lines_from_pdb_file pdb_filepath ;;
  pdockq_of_table (fold_left (pdockq_line chains) lines []).

(** ** The consensus summary, the chain names and the folder *)

(** [d[k]] *)
Definition dict_lookup {V : Type} (k : string) (d : dict V) : result V :=
  match dict_get k d with
  | Some v => Ok v
  | None => Err KeyError
  end.

Record summary_stats : Type := mk_summary_stats {
  max_n_models : Z;
  avg_n_models : Q;
  num_contacts_with_max_n_models : Z;
  num_unique_contacts : Z
}.

(** The body of the innermost loop: [unique_contacts] and
    [max_num_models] after one more contact id. *)
Definition count_contact (st : dict Z * Z) (contact_id : string)
  : result (dict Z * Z) :=
  let unique_contacts := fst st in
  let max_num_models := snd st in
  unique_contacts' <-
    (if negb (dict_mem contact_id unique_contacts)
     then Ok (dict_set contact_id 1%Z unique_contacts)
     else
       n <- dict_lookup contact_id unique_contacts ;;
       Ok (dict_set contact_id (n + 1)%Z unique_contacts)) ;;
  n <- dict_lookup contact_id unique_contacts' ;;
  Ok (unique_contacts', Z.max max_num_models n).

(** The body of the second loop: [num_contacts], [sum_num_models] and
    [num_contacts_with_max_n_models]. *)
Definition tally (max_num_models : Z) (acc : Z * Z * Z) (kv : string * Z)
  : Z * Z * Z :=
  let '(num_contacts, sum_num_models, num_with_max) := acc in
  let observation_count := snd kv in
  ((num_contacts + 1)%Z,
   (sum_num_models + observation_count)%Z,
   if (observation_count =? max_num_models)%Z then (num_with_max + 1)%Z
   else num_with_max).

(** The exponent [e] of a number that is not zero:
    [2^e <= |x| < 2^(e + 1)]. *)
Definition binade (x : Q) : Z :=
  let a := Qabs x in
  let e := (Z.log2 (Qnum a) - Z.log2 (Zpos (Qden a)))%Z in
  if Qle_bool (2 ^ e) a then e else (e - 1)%Z.

(** The double nearest to [x]: a multiple of [2^(e - 52)], for [e] the
    exponent of [x] and at least -1022, a tie going to the even multiple.
    The largest double is not modelled: the one number rounded here is
    the quotient of two list lengths. *)
Definition nearest_double (x : Q) : Q :=
  let ulp := 2 ^ (Z.max (binade x) (-1022) - 52) in
  inject_Z (round_half_even (x / ulp)) * ulp.

(** [interfaces] maps a model number to the contacts of the model.  The
    two operands of the division are [int]s, so the quotient is the
    double nearest to their ratio, and [round] rounds that double:
    [round(23 / 20, 1)] is 1.1, as 23 / 20 is stored just below 1.15. *)
Definition summarize_interface_statistics
  (interfaces : list (Z * dict (dict contact_entry))) : result summary_stats :=
  st <- foldM
          (fun st model =>
             foldM
               (fun st interchain =>
                  foldM (fun st kc => count_contact st (fst kc))
                        (snd interchain) st)
               (snd model) st)
          interfaces ([], 0%Z) ;;
  let unique_contacts := fst st in
  let max_num_models := snd st in
  let '(num_contacts, sum_num_models, num_with_max) :=
    fold_left (tally max_num_models) unique_contacts (0%Z, 0%Z, 0%Z) in
  Ok {| max_n_models := max_num_models;
        avg_n_models :=
          if (0 <? num_contacts)%Z
          then round1
                 (nearest_double
                    (inject_Z sum_num_models / inject_Z num_contacts))
          else 0;
        num_contacts_with_max_n_models := num_with_max;
        num_unique_contacts := num_contacts |}.

(** [list(filter(lambda x: name_filter in x, complex_names))], made only
    for a name filter that is not empty. *)
Definition filter_names (name_filter : string) (complex_names : list string)
  : list string :=
  if (0 <? String.length name_filter)%nat
  then filter (contains name_filter) complex_names
  else complex_names.

Section Folder.

Variable get_lines_from_pdb_file : string -> result (list pdb_line).
Variable pae_payload : string -> result (list pae_token).
Variable pdockq_rounded : string -> list string -> result Q.

(** The lists of structure files and of matrix files that [glob] finds
    for a complex. *)
Variable files_of_complex : string -> list string * list string.

(** [finished] is the list that [get_finished_complexes] returns and
    [cpu_count] the value of [mp.cpu_count()]; [complex_name] is the name
    that [analyze_complexes] makes of the folder.  [None] is the early
    return for a folder without complexes; the result is otherwise the
    summary of the one call of [analyze_complexes].  [mp.Pool] raises
    [ValueError] for a process count below 1, as [distribute] does. *)
Definition analyze_folder (complex_name : string) (finished : list string)
  (cpu_count : Z) (name_filter : string)
  (max_distance plddt_cutoff pae_cutoff : Q) (pae_mode valid_aas : string)
  (ignore_pae : bool) : result (option (dict complex_summary)) :=
  let complex_names := filter_names name_filter finished in
  if (length complex_names <? 1)%nat then Ok None
  else
    let num_cpus_to_use :=
      Z.min cpu_count (Z.of_nat (length complex_names)) in
    complex_name_lists <- distribute complex_names num_cpus_to_use ;;
    complexes <- nth_res complex_name_lists 0 ;;
    summary <- analyze_complexes get_lines_from_pdb_file pae_payload
                 pdockq_rounded complex_name
                 (map (fun cname => (cname, files_of_complex cname)) complexes)
                 max_distance plddt_cutoff pae_cutoff pae_mode valid_aas
                 ignore_pae ;;
    Ok (Some summary).

End Folder.

(** The body of the loop of [get_chain_list_names]. *)
Definition chain_names_step (acc : option string * list string)
  (atom_line : pdb_line) : option string * list string :=
  if negb (is_atom_record atom_line) then acc
  else
    let ch := l_chain atom_line in
    if negb (same_chain ch (fst acc)) then (Some ch, snd acc ++ [ch])
    else acc.

(** ** Sample inputs *)

(** A line of an [ATOM] record whose atom name is flush with the columns
    that both parsers read, and whose chain is one letter. *)
Definition atom_record (atom_name res_name chain_id : string) (res_seq : Z)
  (x y z b : Q) : pdb_line :=
  {| l_record := "ATOM"; l_atom_type := atom_name; l_atm_name := atom_name;
     l_chain_id := chain_id; l_res_name := res_name; l_chain := chain_id;
     l_res_seq := res_seq; l_xyz := (x, y, z); l_bfactor := b |}.

(** Two glycines, one in chain A and one in chain B, 3 A apart. *)
Definition near_lines : list pdb_line :=
  [ atom_record "N" "GLY" "A" 1 0 0 0 90;
    atom_record "CA" "GLY" "A" 1 1 0 0 90;
    atom_record "N" "GLY" "B" 1 3 0 0 90;
    atom_record "CA" "GLY" "B" 1 4 0 0 90 ].

(** The same chains, 5 A apart. *)
Definition near_lines_2 : list pdb_line :=
  [ atom_record "N" "GLY" "A" 1 0 0 0 90;
    atom_record "CA" "GLY" "A" 1 1 0 0 90;
    atom_record "N" "GLY" "B" 1 5 0 0 90;
    atom_record "CA" "GLY" "B" 1 6 0 0 90 ].

(** The same chains, 100 A apart. *)
Definition far_lines : list pdb_line :=
  [ atom_record "N" "GLY" "A" 1 0 0 0 90;
    atom_record "CA" "GLY" "A" 1 1 0 0 90;
    atom_record "N" "GLY" "B" 1 100 0 0 90;
    atom_record "CA" "GLY" "B" 1 101 0 0 90 ].

(** A residue whose second atom lies 100 A from its nitrogen, next to the
    nitrogen of a residue of chain B. *)
Definition stretched_lines : list pdb_line :=
  [ atom_record "N" "GLY" "A" 1 0 0 0 90;
    atom_record "CA" "GLY" "A" 1 100 0 0 90;
    atom_record "N" "GLY" "B" 1 100 0 0 90 ].

Definition sample_pdb_files (filename : string) : result (list pdb_line) :=
  if String.eqb filename "a_b_model_1.pdb" then Ok near_lines
  else if String.eqb filename "a_b_model_2.pdb" then Ok near_lines_2
  else if String.eqb filename "a_b.pdb" then Ok near_lines
  else if String.eqb filename "far_model_1.pdb" then Ok far_lines
  else Err ValueError.

(** A matrix file for two residues, one that is too short for them, one
    whose length is no square, and no other file. *)
Definition sample_pae_files (filename : string) : result (list pae_token) :=
  if String.eqb filename "a_b_model_1.json"
  then Ok [Some 0; Some 5; Some 5; Some 0]
  else if String.eqb filename "short_model_1.json" then Ok [Some 0]
  else if String.eqb filename "odd_model_1.json"
  then Ok [Some 0; Some 5; Some 5]
  else Err ValueError.

(** The rounded scores of the two sample models.  Each has one pair of
    representative atoms in contact, where the curve is at 0.0183 for any
    confidence. *)
Definition sample_pdockq (pdb_filename : string) (chains : list string)
  : result Q :=
  if String.eqb pdb_filename "a_b_model_1.pdb" then Ok (18 # 1000)
  else if String.eqb pdb_filename "a_b_model_2.pdb" then Ok (18 # 1000)
  else Err ValueError.

(** Rounded scores of 0.6 and 0.4, as the two models of a complex with a
    larger interface can have. *)
Definition larger_pdockq (pdb_filename : string) (chains : list string)
  : result Q :=
  if String.eqb pdb_filename "a_b_model_1.pdb" then Ok (6 # 10)
  else if String.eqb pdb_filename "a_b_model_2.pdb" then Ok (4 # 10)
  else Err ValueError.

(** The contact of the two residues of [near_lines]. *)
Definition sample_contact : contact :=
  {| distance := 20 # 10;
     aa1 := {| ca_chain := "A"; ca_type := "G"; ca_c_ix := 1; ca_a_ix := 1;
               ca_atom := "CA"; ca_plddt := 90 |};
     aa2 := {| ca_chain := "B"; ca_type := "G"; ca_c_ix := 1; ca_a_ix := 2;
               ca_atom := "N"; ca_plddt := 90 |} |}.


(** A chain whose first residue is below a confidence threshold of 50
    and whose second residue is above it. *)
Definition filtered_lines : list pdb_line :=
  [ atom_record "N" "GLY" "A" 1 0 0 0 10;
    atom_record "CA" "GLY" "A" 1 1 0 0 10;
    atom_record "N" "ALA" "A" 2 3 0 0 90;
    atom_record "CA" "ALA" "A" 2 4 0 0 90 ].

Definition filtered_state : parse_state :=
  match parse_structure 50 "" filtered_lines with
  | Ok st => st
  | Err _ => parse_init
  end.

Definition near_state : parse_state :=
  match parse_structure 50 "" near_lines with
  | Ok st => st
  | Err _ => parse_init
  end.

Definition stretched_state : parse_state :=
  match parse_structure 50 "" stretched_lines with
  | Ok st => st
  | Err _ => parse_init
  end.

(** The residues that the parsing loop makes of [near_lines]. *)
Definition near_residue_A : residue :=
  {| chain := "A";
     atoms := [ {| atom_type := "N"; xyz := (0, 0, 0) |};
                {| atom_type := "CA"; xyz := (1, 0, 0) |} ];
     c_ix := 1; a_ix := 1; aa_type := "G"; plddt := 90 |}.

Definition near_residue_B : residue :=
  {| chain := "B";
     atoms := [ {| atom_type := "N"; xyz := (3, 0, 0) |};
                {| atom_type := "CA"; xyz := (4, 0, 0) |} ];
     c_ix := 1; a_ix := 2; aa_type := "G"; plddt := 90 |}.

(** ** Predicates of the statements *)

(** The statistics of an interface without contacts. *)
Definition no_contact_stats : interface_stats :=
  {| num_contacts := 0; plddt_stats := (0, 0, 0); pae_stats := (0, 0, 0);
     distance_avg := 0 |}.

Definition no_contacts_between (interchain_id : string)
  (contacts : dict (dict contact_entry)) : Prop :=
  dict_get interchain_id contacts = None \/
  dict_get interchain_id contacts = Some [].

(** The number of [ATOM] records of a backbone nitrogen among [lines]. *)
Definition count_N (lines : list pdb_line) : nat :=
  length (filter (fun l => is_atom_record l && is_nitrogen l) lines).

(** The residue [r] was made from the nitrogen record [l] that follows
    [pre] in the file, and carries the count of nitrogen records up to
    and including [l] as its absolute index. *)
Definition made_from (pre : list pdb_line) (l : pdb_line) (r : residue) : Prop :=
  is_atom_record l = true /\ is_nitrogen l = true /\
  a_ix r = Z.of_nat (count_N (pre ++ [l])) /\
  c_ix r = l_res_seq l /\ plddt r = l_bfactor l /\ chain r = l_chain l.

(** Every atom of the residue [r] lies within 10 A of the point [n]. *)
Definition atoms_near (n : vec3) (r : residue) : Prop :=
  forall a, In a (atoms r) -> dist2 (xyz a) n <= 100.

(** The first atom of the residue [r] is at the point [n]. *)
Definition headed (r : residue) (n : vec3) : Prop :=
  exists a rest, atoms r = a :: rest /\ xyz a = n.

(** The stored nitrogen coordinates are, chain by chain and residue by
    residue, the coordinates of the first atom of the stored residues. *)
Definition aligned (st : parse_state) : Prop :=
  Forall2 (Forall2 headed) (residues st) (N_coords st).

(** Every atom of the residue lies within 10 A of its first atom, which
    is its backbone nitrogen. *)
Definition atoms_near_nitrogen (r : residue) : Prop :=
  forall n, hd_error (atoms r) = Some n -> atoms_near (xyz n) r.

(** The bins after the items of [l] have been dealt out over [m] bins:
    bin [j] holds the items at the indices [j], [j + m], [j + 2 m], ... in
    that order. *)
Definition dealt {A : Type} (m : nat) (l : list A) (bins : list (list A)) : Prop :=
  (length bins = m)%nat /\
  forall j g, nth_error bins j = Some g ->
    (length g = length l / m + (if j <? length l mod m then 1 else 0))%nat /\
    (forall t x, nth_error g t = Some x -> nth_error l (t * m + j)%nat = Some x).

(** What the loop has established after the lines [seen]. *)
Definition numbered (seen : list pdb_line) (st : parse_state) : Prop :=
  abs_res_index st = Z.of_nat (count_N seen) /\
  forall r, In r (concat (residues st)) ->
    exists pre l post, seen = pre ++ l :: post /\ made_from pre l r.

(** The curve as a function of [x = avg_if_plddt * log10(n_if_contacts)]. *)
Definition logistic (x : R) : R :=
  (0.724 / (1 + exp (- 0.052 * (x - 152.611))) + 0.018)%R.

(** ** Predicates of the further properties *)

(** What the two loops of [get_closest_atoms] keep true after the pairs
    of atoms [seen]. *)
Definition closest_ok (seen : list (atom * atom))
  (acc : Q * option (atom * atom)) : Prop :=
  (forall p, In p seen -> fst acc <= dist2 (xyz (fst p)) (xyz (snd p))) /\
  fst acc <= min_d2_init /\
  match snd acc with
  | Some p => In p seen /\ fst acc = dist2 (xyz (fst p)) (xyz (snd p)) /\
              fst acc < min_d2_init
  | None => fst acc = min_d2_init
  end.

(** The residue that the loop makes of the nitrogen record [l] when the
    counter stands at [abs]. *)
Definition new_residue (l : pdb_line) (abs : Z) (aa : ascii) : residue :=
  {| chain := l_chain l; atoms := [atom_from_pdb_line l];
     c_ix := l_res_seq l; a_ix := abs; aa_type := aa; plddt := l_bfactor l |}.

(** The record [l] passes the confidence filter and the amino-acid
    restriction, with one-letter code [aa]. *)
Definition passes (min_plddt : Q) (valid_aas : string) (l : pdb_line)
  (aa : ascii) : Prop :=
  is_atom_record l = true /\ min_plddt <= l_bfactor l /\
  aa_3c_to_1c (l_res_name l) = Some aa /\
  ((0 < String.length valid_aas)%nat -> char_in aa valid_aas = true).

(** What a line does to the state of the parsing loop: nothing but the
    count of nitrogens, one more atom in the last residue, a new residue
    in the last chain, or a new chain with its first residue. *)
Inductive line_effect (min_plddt : Q) (valid_aas : string) (l : pdb_line)
  (st st' : parse_state) : Prop :=
| effect_skip :
    last_chain st' = last_chain st -> chains st' = chains st ->
    residues st' = residues st -> N_coords st' = N_coords st ->
    (abs_res_index st <= abs_res_index st' <= abs_res_index st + 1)%Z ->
    line_effect min_plddt valid_aas l st st'
| effect_atom rs0 c0 r :
    is_nitrogen l = false ->
    last_chain st' = last_chain st -> chains st' = chains st ->
    N_coords st' = N_coords st -> abs_res_index st' = abs_res_index st ->
    residues st = rs0 ++ [c0 ++ [r]] ->
    residues st' = rs0 ++ [c0 ++ [add_atom (atom_from_pdb_line l) r]] ->
    line_effect min_plddt valid_aas l st st'
| effect_residue rs0 c ns0 cn aa :
    is_nitrogen l = true -> passes min_plddt valid_aas l aa ->
    last_chain st = Some (l_chain l) -> last_chain st' = Some (l_chain l) ->
    chains st' = chains st ->
    abs_res_index st' = (abs_res_index st + 1)%Z ->
    residues st = rs0 ++ [c] -> N_coords st = ns0 ++ [cn] ->
    residues st' = rs0 ++ [c ++ [new_residue l (abs_res_index st') aa]] ->
    N_coords st' = ns0 ++ [cn ++ [l_xyz l]] ->
    line_effect min_plddt valid_aas l st st'
| effect_chain aa :
    is_nitrogen l = true -> passes min_plddt valid_aas l aa ->
    last_chain st <> Some (l_chain l) -> last_chain st' = Some (l_chain l) ->
    chains st' = chains st ++ [l_chain l] ->
    abs_res_index st' = (abs_res_index st + 1)%Z ->
    residues st' = residues st ++ [[new_residue l (abs_res_index st') aa]] ->
    N_coords st' = N_coords st ++ [[l_xyz l]] ->
    line_effect min_plddt valid_aas l st st'.

(** A residue as the parsing loop stores it. *)
Definition kept_residue (min_plddt : Q) (valid_aas : string) (abs : Z)
  (r : residue) : Prop :=
  min_plddt <= plddt r /\
  ((0 < String.length valid_aas)%nat -> char_in (aa_type r) valid_aas = true) /\
  (exists a rest, atoms r = a :: rest /\ atom_type a = "N"%string) /\
  (1 <= a_ix r <= abs)%Z.

(** What the parsing loop keeps true. *)
Record well_formed (min_plddt : Q) (valid_aas : string) (st : parse_state)
  : Prop := mk_well_formed {
  wf_abs : (0 <= abs_res_index st)%Z;
  wf_chains : Forall2 (fun ch rs => Forall (fun r => chain r = ch) rs)
                (chains st) (residues st);
  wf_coords : Forall2 (fun rs ns => length rs = length ns)
                (residues st) (N_coords st);
  wf_nonempty : Forall (fun c => c <> []) (residues st);
  wf_last : (chains st = [] /\ last_chain st = None) \/
            (exists cs c, chains st = cs ++ [c] /\ last_chain st = Some c);
  wf_adjacent : forall cs1 c1 c2 cs2,
                  chains st = cs1 ++ c1 :: c2 :: cs2 -> c1 <> c2;
  wf_residues : Forall (kept_residue min_plddt valid_aas (abs_res_index st))
                  (concat (residues st));
  wf_sorted : StronglySorted Z.lt (map a_ix (concat (residues st)))
}.

(** The contact that the narrow phase records for two residues, if any. *)
Definition accepted_contact (d2_cutoff : Q) (r1 r2 : residue) : list contact :=
  if Qltb (fst (get_closest_atoms r1 r2)) d2_cutoff then
    match snd (get_closest_atoms r1 r2) with
    | Some (a1, a2) =>
        [contact_of (fst (get_closest_atoms r1 r2)) r1 r2 a1 a2]
    | None => []
    end
  else [].

(** The contacts of the candidates of two lists of residues. *)
Definition candidate_contacts (d2_cutoff : Q) (res1 res2 : list residue)
  (ix : nat * nat) : list contact :=
  match nth_error res1 (fst ix), nth_error res2 (snd ix) with
  | Some r1, Some r2 => accepted_contact d2_cutoff r1 r2
  | _, _ => []
  end.

(** The contacts between chain [i] and chain [i2]. *)
Definition chain_pair_contacts (max_distance : Q) (st : parse_state)
  (i i2 : nat) : list contact :=
  match nth_error (N_coords st) i, nth_error (N_coords st) i2,
        nth_error (residues st) i, nth_error (residues st) i2 with
  | Some c1, Some c2, Some res1, Some res2 =>
      flat_map (candidate_contacts (max_distance * max_distance) res1 res2)
        (index_pairs ((max_distance + 20) * (max_distance + 20)) c1 c2)
  | _, _, _, _ => []
  end.

(** The second chains that the loop pairs with chain [i]. *)
Definition second_chains (within_chain : bool) (num_chains i : nat) : list nat :=
  let i2_start := if within_chain then i else S i in
  seq i2_start (num_chains - i2_start).

(** The loops record the contact [c] for residue [k] of chain [i] and
    residue [k2] of chain [i2]: the two nitrogens are closer than the
    relaxed cutoff and the closest atoms of the residues are closer than
    the cutoff. *)
Definition contact_between (max_distance : Q) (st : parse_state)
  (i i2 k k2 : nat) (c : contact) : Prop :=
  exists c1 c2 res1 res2 n1 n2 r1 r2 a1 a2,
    nth_error (N_coords st) i = Some c1 /\ nth_error c1 k = Some n1 /\
    nth_error (N_coords st) i2 = Some c2 /\ nth_error c2 k2 = Some n2 /\
    nth_error (residues st) i = Some res1 /\ nth_error res1 k = Some r1 /\
    nth_error (residues st) i2 = Some res2 /\ nth_error res2 k2 = Some r2 /\
    dist2 n1 n2 < (max_distance + 20) * (max_distance + 20) /\
    snd (get_closest_atoms r1 r2) = Some (a1, a2) /\
    fst (get_closest_atoms r1 r2) < max_distance * max_distance /\
    c = contact_of (fst (get_closest_atoms r1 r2)) r1 r2 a1 a2.

(** The entry [e] stored under the chain pair [chain_contact_id] and the
    key [contact_id] is what the loop of [get_contacts] makes of the
    geometric contact [c]. *)
Definition entry_of (ignore_pae : bool) (max_pae : Q) (pae_mode valid_aas : string)
  (model_num : Z) (c : contact) (chain_contact_id contact_id : string)
  (e : contact_entry) : Prop :=
  chain_contact_id = (ca_chain (aa1 c) ++ ":" ++ ca_chain (aa2 c))%string /\
  contact_id
  = (str_of_int (ca_a_ix (aa1 c)) ++ "&" ++ str_of_int (ca_a_ix (aa2 c)))%string /\
  ce_chains e = (ca_chain (aa1 c), ca_chain (aa2 c)) /\
  ce_inchain_indices e = (ca_c_ix (aa1 c), ca_c_ix (aa2 c)) /\
  ce_types e = (ca_type (aa1 c), ca_type (aa2 c)) /\
  ce_plddts e = (ca_plddt (aa1 c), ca_plddt (aa2 c)) /\
  ce_distance e = distance c /\
  ce_model e = model_num /\
  (if ignore_pae then ce_pae e = 0 /\ ce_paes e = (0, 0)
   else ce_pae e <= max_pae /\
        ce_pae e = (if String.eqb pae_mode "avg"
                    then (1 # 2) * (fst (ce_paes e) + snd (ce_paes e))
                    else Qmin (fst (ce_paes e)) (snd (ce_paes e)))) /\
  ((0 < String.length valid_aas)%nat ->
   char_in (ca_type (aa1 c)) valid_aas = true /\
   char_in (ca_type (aa2 c)) valid_aas = true).

(** What the loop of [get_contacts] has stored: no chain pair without a
    contact, and every entry made of one of the geometric contacts. *)
Definition stored (ignore_pae : bool) (max_pae : Q) (pae_mode valid_aas : string)
  (model_num : Z) (contacts : list contact) (d : dict (dict contact_entry))
  : Prop :=
  Forall
    (fun kv =>
       snd kv <> [] /\
       Forall
         (fun ie =>
            exists c, In c contacts /\
              entry_of ignore_pae max_pae pae_mode valid_aas model_num c
                (fst kv) (fst ie) (snd ie))
         (snd kv))
    d.

(** [mean(contact['plddts'])] *)
Definition avg_plddt (e : contact_entry) : Q :=
  (fst (ce_plddts e) + snd (ce_plddts e)) / 2.

(** What the loop of [calculate_interface_statistics] keeps true. *)
Record stats_bounds (entries : dict contact_entry) (acc : stats_acc) : Prop := {
  sb_count : acc_num_contacts acc = Z.of_nat (length entries);
  sb_plddt : forall kv, In kv entries ->
             plddt_min acc <= avg_plddt (snd kv) <= plddt_max acc;
  sb_pae : forall kv, In kv entries ->
           pae_min acc <= ce_pae (snd kv) <= pae_max acc;
  sb_plddt_sum :
    inject_Z (acc_num_contacts acc) * plddt_min acc <= plddt_sum acc /\
    plddt_sum acc <= inject_Z (acc_num_contacts acc) * plddt_max acc;
  sb_pae_sum :
    inject_Z (acc_num_contacts acc) * pae_min acc <= pae_sum acc /\
    pae_sum acc <= inject_Z (acc_num_contacts acc) * pae_max acc;
  sb_clamp : plddt_min acc <= 100 /\ 0 <= plddt_max acc /\
             pae_min acc <= 30 /\ 0 <= pae_max acc
}.

(** The contact ids in the order in which the three loops meet them. *)
Definition contact_ids (interfaces : list (Z * dict (dict contact_entry)))
  : list string :=
  flat_map (fun model => flat_map (fun interchain => map fst (snd interchain))
                           (snd model))
           interfaces.

(** The number of times [contact_id] occurs in [ids]. *)
Definition occurrences (ids : list string) (contact_id : string) : Z :=
  Z.of_nat (count_occ string_dec ids contact_id).

(** The new count of an id. *)
Definition next_count (unique_contacts : dict Z) (contact_id : string) : Z :=
  match dict_get contact_id unique_contacts with
  | Some n => (n + 1)%Z
  | None => 1%Z
  end.

(** The sum of the counts of [unique_contacts]. *)
Definition values_sum (d : dict Z) : Z := fold_right Z.add 0%Z (map snd d).

(** What the first loop keeps true after the ids [ids]. *)
Record counted (ids : list string) (st : dict Z * Z) : Prop := {
  cn_keys : NoDup (map fst (fst st));
  cn_get : forall contact_id,
    dict_get contact_id (fst st)
    = if in_dec string_dec contact_id ids
      then Some (occurrences ids contact_id) else None;
  cn_sum : values_sum (fst st) = Z.of_nat (length ids);
  cn_max : forall contact_id, (occurrences ids contact_id <= snd st)%Z;
  cn_attained : (ids = [] /\ snd st = 0%Z) \/
                (exists contact_id, In contact_id ids /\
                   occurrences ids contact_id = snd st)
}.

(** The character [sep] does not occur in [s]. *)
Definition lacks (sep : ascii) (s : string) : Prop :=
  Forall (fun c => c <> sep) (list_ascii_of_string s).

(** No chain pair and, within a chain pair, no contact id is stored
    twice. *)
Definition keys_distinct (d : dict (dict contact_entry)) : Prop :=
  NoDup (map fst d) /\
  Forall (fun kv => NoDup (map fst (snd kv))) d.

(** The contact ids of one model. *)
Definition model_contact_ids (contacts : dict (dict contact_entry))
  : list string :=
  flat_map (fun interchain => map fst (snd interchain)) contacts.

(** [contacts] is what [get_contacts] returns for some pair of files. *)
Definition contacts_of_a_model
  (get_lines_from_pdb_file : string -> result (list pdb_line))
  (pae_payload : string -> result (list pae_token))
  (contacts : dict (dict contact_entry)) : Prop :=
  exists pdb_filename pae_filename max_distance min_plddt max_pae pae_mode
         valid_aas,
    get_contacts get_lines_from_pdb_file pae_payload pdb_filename pae_filename
      max_distance min_plddt max_pae pae_mode valid_aas = Ok contacts.

(** [filename] has the model number [n]. *)
Definition has_model_num (n : Z) (filename : string) : bool :=
  match get_af_model_num filename with
  | Ok m => (m =? n)%Z
  | Err _ => false
  end.

(** The pairs of key and file: every file next to its own model number. *)
Definition keyed (l : list (Z * string)) : Prop :=
  Forall (fun kf => get_af_model_num (snd kf) = Ok (fst kf)) l.

(** [l1] is [l2] with some items left out. *)
Inductive subseq {A : Type} : list A -> list A -> Prop :=
| subseq_nil : subseq [] []
| subseq_skip l1 l2 x : subseq l1 l2 -> subseq l1 (l2 ++ [x])
| subseq_keep l1 l2 x : subseq l1 l2 -> subseq (l1 ++ [x]) (l2 ++ [x]).

(** The state of the loop of [get_chain_list_names]: [last_chain] is
    the chain appended last. *)
Definition names_so_far (acc : option string * list string) : Prop :=
  (fst acc = None /\ snd acc = []) \/
  (exists cs c, snd acc = cs ++ [c] /\ fst acc = Some c).

(** [filtered_contacts[chain_contact_id][contact_id]], when both keys are
    there. *)
Definition stored_entry (filtered_contacts : dict (dict contact_entry))
  (chain_contact_id contact_id : string) : option contact_entry :=
  match dict_get chain_contact_id filtered_contacts with
  | Some inner => dict_get contact_id inner
  | None => None
  end.

(** Every entry of the matrix is a number. *)
Definition numeric (pae_data : list pae_token) : Prop :=
  Forall (fun t => t <> None) pae_data.

(** The contacts [done] that passed the filters have their entries. *)
Definition kept_so_far (ignore_pae : bool) (pae_data : list pae_token)
  (N : Z) (max_pae : Q) (pae_mode valid_aas : string) (model_num : Z)
  (done : list contact) (d : dict (dict contact_entry)) : Prop :=
  forall c cid id e,
    In c done ->
    filter_contact ignore_pae pae_data N max_pae pae_mode valid_aas
      model_num c = Ok (Some (cid, id, e)) ->
    stored_entry d cid id = Some e.

(** The record is one whose coordinates the scorer keeps: an [ATOM]
    record of a chain that is asked for, of the atom [CB], or [CA] in a
    glycine. *)
Definition representative (chains : list string) (line : pdb_line) : bool :=
  is_atom_record line
  && ((length chains =? 0)%nat
      || existsb (String.eqb (l_chain_id line)) chains)
  && (String.eqb (l_atm_name line) "CB"
      || (String.eqb (l_atm_name line) "CA"
          && String.eqb (l_res_name line) "GLY")).

(** The chains that have a representative atom. *)
Definition scored_chains (chains : list string) (lines : list pdb_line)
  : list string :=
  nodup string_dec (map l_chain_id (filter (representative chains) lines)).

(** [best_interface_stats] is the row of one of the models seen. *)
Definition best_among (st : option best_stats * list (Z * if_stats)) : Prop :=
  match fst st with
  | None => snd st = []
  | Some b => In (snd b, fst b) (snd st)
  end.

(** What the loop keeps true after the lines [seen]. *)
Record names_ok (seen : list pdb_line) (acc : option string * list string)
  : Prop := {
  no_last : names_so_far acc;
  no_adjacent : forall cs1 c1 c2 cs2,
                  snd acc = cs1 ++ c1 :: c2 :: cs2 -> c1 <> c2;
  no_sound : forall c, In c (snd acc) ->
             exists l, In l seen /\ is_atom_record l = true /\ l_chain l = c;
  no_complete : forall l, In l seen -> is_atom_record l = true ->
                In (l_chain l) (snd acc)
}.

(** [s] does not begin with a decimal digit. *)
Definition no_leading_digit (s : string) : Prop :=
  match s with
  | EmptyString => True
  | String c _ => is_digit c = false
  end.

(** One more digit in [int_of_digits]. *)
Definition digit_step (acc : Z) (c : ascii) : Z :=
  (10 * acc + Z.of_nat (nat_of_ascii c - 48))%Z.

(** The records of one residue: the record of its backbone nitrogen and
    the records that follow it up to the next nitrogen. *)
Definition block : Type := (pdb_line * list pdb_line)%type.

(** The records of a block, in file order. *)
Definition block_lines (b : block) : list pdb_line := fst b :: snd b.

(** A block as a structure predictor writes it: the nitrogen first, and
    every other atom with the residue name and the confidence of the
    nitrogen. *)
Definition well_grouped (b : block) : Prop :=
  is_atom_record (fst b) = true /\ is_nitrogen (fst b) = true /\
  Forall (fun l => is_atom_record l = true ->
                   is_nitrogen l = false /\
                   l_bfactor l = l_bfactor (fst b) /\
                   l_res_name l = l_res_name (fst b))
         (snd b).

(** The residue that the block at the absolute index [abs] is stored as,
    if it is stored. *)
Definition block_residue (min_plddt : Q) (valid_aas : string) (abs : Z)
  (b : block) : list residue :=
  if Qltb (l_bfactor (fst b)) min_plddt then []
  else
    match aa_3c_to_1c (l_res_name (fst b)) with
    | None => []
    | Some aa =>
        if (0 <? String.length valid_aas)%nat && negb (char_in aa valid_aas)
        then []
        else
          [ {| chain := l_chain (fst b);
               atoms := map atom_from_pdb_line
                          (fst b :: filter is_atom_record (snd b));
               c_ix := l_res_seq (fst b); a_ix := abs; aa_type := aa;
               plddt := l_bfactor (fst b) |} ]
    end.

(** The residues stored for the blocks that follow the absolute index
    [abs]. *)
Fixpoint residues_of_blocks (min_plddt : Q) (valid_aas : string) (abs : Z)
  (blocks : list block) : list residue :=
  match blocks with
  | [] => []
  | b :: blocks' =>
      block_residue min_plddt valid_aas (abs + 1) b
      ++ residues_of_blocks min_plddt valid_aas (abs + 1) blocks'
  end.

(** The record is passed over by the parsing loop. *)
Definition dropped (min_plddt : Q) (valid_aas : string) (l : pdb_line) : Prop :=
  is_atom_record l = false \/
  Qltb (l_bfactor l) min_plddt = true \/
  (exists aa, aa_3c_to_1c (l_res_name l) = Some aa /\
              (0 <? String.length valid_aas)%nat
              && negb (char_in aa valid_aas) = true).

(** [r] with the atoms of the records [ls] appended. *)
Definition with_atoms (r : residue) (ls : list pdb_line) : residue :=
  {| chain := chain r;
     atoms := atoms r ++ map atom_from_pdb_line ls;
     c_ix := c_ix r; a_ix := a_ix r; aa_type := aa_type r;
     plddt := plddt r |}.

(** The residue name of the block is in the table, or the block is below
    the confidence threshold and its name is never looked up. *)
Definition named (min_plddt : Q) (b : block) : Prop :=
  Qltb (l_bfactor (fst b)) min_plddt = true \/
  aa_3c_to_1c (l_res_name (fst b)) <> None.

(** ** Further sample inputs *)

(** The contacts of the first sample model, with its matrix. *)
Definition near_contacts : dict (dict contact_entry) :=
  match get_contacts sample_pdb_files sample_pae_files
          "a_b_model_1.pdb" "a_b_model_1.json" 8 50 15 "min" "" with
  | Ok d => d
  | Err _ => []
  end.

(** The two residues of [near_lines], record by record. *)
Definition near_blocks : list block :=
  [ (atom_record "N" "GLY" "A" 1 0 0 0 90,
     [atom_record "CA" "GLY" "A" 1 1 0 0 90]);
    (atom_record "N" "GLY" "B" 1 3 0 0 90,
     [atom_record "CA" "GLY" "B" 1 4 0 0 90]) ].

(** Every complex of the sample folder has the two sample models. *)
Definition sample_files_of_complex (cname : string)
  : list string * list string :=
  (["a_b_model_1.pdb"; "a_b_model_2.pdb"]%string, []).

(** An entry as [get_contacts] stores it. *)
Definition sample_entry : contact_entry :=
  {| ce_chains := ("A"%string, "B"%string);
     ce_inchain_indices := (1%Z, 1%Z);
     ce_types := ("G"%char, "G"%char);
     ce_pae := 5;
     ce_paes := (5, 5);
     ce_plddts := (90, 90);
     ce_model := 1%Z;
     ce_distance := 2 |}.

(** The contacts of the residues 1 to [n] with the residue 40. *)
Definition numbered_contacts (n : nat) : dict contact_entry :=
  map (fun i => ((str_of_int (Z.of_nat i) ++ "&40")%string, sample_entry))
      (seq 1 n).

(** Twenty contacts in the first model, three of which the second model
    has as well. *)
Definition consensus_interfaces : list (Z * dict (dict contact_entry)) :=
  [ (1%Z, [("A:B"%string, numbered_contacts 20)]);
    (2%Z, [("A:B"%string, numbered_contacts 3)]) ].

(** * Properties *)

(** ** Dictionaries *)

Lemma dict_get_set_same {V : Type} (k : string) (v : V) (d : dict V) :
  dict_get k (dict_set k v d) = Some v.
Proof.
  induction d as [|[k' v'] d IH]; simpl.
  - rewrite String.eqb_refl. reflexivity.
  - destruct (String.eqb k k') eqn:E; simpl; rewrite E; [reflexivity | exact IH].
Qed.
(** ** Running the definitions *)

Example get_af_model_num_ex1 :
  get_af_model_num "cplx_unrelaxed_rank_1_model_3.pdb" = Ok 3%Z.
Proof. reflexivity. Qed.

Example get_af_model_num_ex2 : get_af_model_num "cplx.pdb" = Ok 0%Z.
Proof. reflexivity. Qed.

Example get_af_model_num_ex3 : get_af_model_num "model_x.pdb" = Err IndexError.
Proof. reflexivity. Qed.

Example distribute_ex1 :
  distribute [1; 2; 3; 4; 5]%nat 2 = Ok [[1; 3; 5]; [2; 4]]%nat.
Proof. reflexivity. Qed.

(** ** [distribute] deals the items out in turn *)

Section Distribute.
Local Close Scope Q_scope.
Local Open Scope nat_scope.
Context {A : Type}.

Lemma nth_error_Some_lt {B : Type} (l : list B) (n : nat) (x : B) :
  nth_error l n = Some x -> n < length l.
Proof. intros H. apply nth_error_Some. congruence. Qed.

Lemma append_at_length (ix : nat) (x : A) (bins : list (list A)) :
  length (append_at ix x bins) = length bins.
Proof.
  revert ix; induction bins as [|b bins IH]; intros [|ix]; simpl; auto.
Qed.

Lemma append_at_nth (ix : nat) (x : A) (bins : list (list A)) (j : nat) :
  nth_error (append_at ix x bins) j =
  if j =? ix then option_map (fun g => g ++ [x]) (nth_error bins j)
  else nth_error bins j.
Proof.
  revert ix j; induction bins as [|b bins IH]; intros [|ix] [|j]; simpl;
    try reflexivity.
  - destruct (j =? ix); reflexivity.
  - apply IH.
Qed.

Lemma combine_snoc {B : Type} (l1 : list B) (l2 : list A) (b : B) (a : A) :
  length l1 = length l2 ->
  combine (l1 ++ [b]) (l2 ++ [a]) = combine l1 l2 ++ [(b, a)].
Proof.
  revert l2; induction l1 as [|y l1 IH]; intros [|z l2] H; simpl in *;
    try discriminate; [reflexivity|].
  f_equal. apply IH. congruence.
Qed.

Lemma enumerate_snoc (l : list A) (x : A) :
  enumerate (l ++ [x]) = enumerate l ++ [(length l, x)].
Proof.
  unfold enumerate. rewrite length_app. simpl.
  rewrite seq_app. simpl.
  apply combine_snoc. apply length_seq.
Qed.

Lemma distribute_loop_snoc (m : nat) (l : list A) (x : A) (bins : list (list A)) :
  distribute_loop m (enumerate (l ++ [x])) bins =
  append_at (length l mod m) x (distribute_loop m (enumerate l) bins).
Proof.
  unfold distribute_loop. rewrite enumerate_snoc, fold_left_app. reflexivity.
Qed.

Lemma succ_div_mod (m n : nat) :
  0 < m ->
  (S n mod m = S (n mod m) /\ S n / m = n / m /\ S (n mod m) < m) \/
  (S n mod m = 0 /\ S n / m = S (n / m) /\ S (n mod m) = m).
Proof.
  intros Hm.
  pose proof (Nat.div_mod_eq n m) as E.
  pose proof (Nat.mod_upper_bound n m ltac:(lia)) as B.
  destruct (Nat.eq_dec (S (n mod m)) m) as [Hr|Hr].
  - right.
    assert (S n = m * S (n / m) + 0) as E' by nia.
    split; [|split; [|exact Hr]]; symmetry.
    + apply (Nat.mod_unique (S n) m (S (n / m)) 0); lia.
    + apply (Nat.div_unique (S n) m (S (n / m)) 0); lia.
  - left.
    assert (S n = m * (n / m) + S (n mod m)) as E' by lia.
    split; [|split; [|lia]]; symmetry.
    + apply (Nat.mod_unique (S n) m (n / m) (S (n mod m))); lia.
    + apply (Nat.div_unique (S n) m (n / m) (S (n mod m))); lia.
Qed.

Lemma distribute_loop_dealt (m : nat) (l : list A) :
  0 < m -> dealt m l (distribute_loop m (enumerate l) (repeat [] m)).
Proof.
  intros Hm. induction l as [|x l IH] using rev_ind.
  - unfold distribute_loop, enumerate. simpl.
    split; [apply repeat_length|].
    intros j g Hj.
    assert (j < m) as Hlt.
    { apply nth_error_Some_lt in Hj. rewrite repeat_length in Hj. exact Hj. }
    rewrite nth_error_repeat in Hj by exact Hlt.
    injection Hj as <-. simpl.
    rewrite Nat.Div0.mod_0_l, Nat.Div0.div_0_l. simpl.
    split; [reflexivity|]. intros [|t] y; discriminate.
  - rewrite distribute_loop_snoc.
    destruct IH as [Hlen IH]. split.
    { rewrite append_at_length. exact Hlen. }
    intros j g Hj. rewrite append_at_nth in Hj.
    rewrite length_app. simpl. rewrite Nat.add_1_r.
    set (n := length l) in *.
    pose proof (Nat.mod_upper_bound n m ltac:(lia)) as Hr.
    pose proof (Nat.div_mod_eq n m) as Hn.
    destruct (Nat.eqb_spec j (n mod m)) as [->|Hne].
    + destruct (nth_error (distribute_loop m (enumerate l) (repeat [] m))
                  (n mod m)) as [g0|] eqn:Hg0; [|discriminate].
      injection Hj as <-.
      destruct (IH _ _ Hg0) as [Hl0 Hx0].
      rewrite Nat.ltb_irrefl, Nat.add_0_r in Hl0.
      rewrite length_app. simpl. split.
      * destruct (succ_div_mod n Hm) as [(E1 & E2 & E3)|(E1 & E2 & E3)];
          rewrite E1, E2.
        -- destruct (Nat.ltb_spec (n mod m) (S (n mod m))); lia.
        -- destruct (Nat.ltb_spec (n mod m) 0); lia.
      * intros t y Ht.
        destruct (Nat.lt_ge_cases t (length g0)) as [Hlt|Hge].
        -- rewrite nth_error_app1 in Ht by exact Hlt.
           rewrite nth_error_app1.
           ++ apply Hx0, Ht.
           ++ apply Hx0 in Ht. apply nth_error_Some_lt in Ht. exact Ht.
        -- assert (t = length g0) as ->.
           { apply nth_error_Some_lt in Ht. rewrite length_app in Ht.
             simpl in Ht. lia. }
           rewrite nth_error_app2 in Ht by lia.
           rewrite Nat.sub_diag in Ht. simpl in Ht. injection Ht as <-.
           rewrite nth_error_app2 by (fold n; nia).
           replace (length g0 * m + n mod m - length l) with 0
             by (fold n; nia).
           reflexivity.
    + destruct (IH _ _ Hj) as [Hl0 Hx0]. split.
      * assert (j < m) as Hjm.
        { apply nth_error_Some_lt in Hj. lia. }
        rewrite Hl0.
        destruct (succ_div_mod n Hm) as [(E1 & E2 & E3)|(E1 & E2 & E3)];
          rewrite E1, E2.
        -- destruct (Nat.ltb_spec j (n mod m)),
             (Nat.ltb_spec j (S (n mod m))); lia.
        -- destruct (Nat.ltb_spec j (n mod m)), (Nat.ltb_spec j 0); lia.
      * intros t y Ht. apply Hx0 in Ht.
        rewrite nth_error_app1; [exact Ht|].
        apply nth_error_Some_lt in Ht. exact Ht.
Qed.

End Distribute.

(** C9 (as amended).  For a non-empty list and [n_bins >= 1], [distribute]
    returns exactly [m = min(n_bins, len(lst))] groups; the item at index
    [k] is the item at position [k / m] of group [k mod m]; group [j] holds
    the items at the indices [j], [j + m], [j + 2 m], ... and nothing else;
    no group is empty, and group [j] has [len(lst) / m] items plus one when
    [j < len(lst) mod m], so the sizes differ by at most one.  For
    [n_bins < 1] the call raises [ValueError]. *)
Theorem distribute_round_robin (A : Type) (lst : list A) (n_bins : Z) :
  ((n_bins < 1)%Z -> distribute lst n_bins = Err ValueError) /\
  (lst <> [] -> (1 <= n_bins)%Z ->
   let m := Nat.min (Z.to_nat n_bins) (length lst) in
   exists groups,
     distribute lst n_bins = Ok groups /\
     length groups = m /\
     (forall k x, nth_error lst k = Some x ->
        exists g, nth_error groups (k mod m) = Some g /\
                  nth_error g (k / m) = Some x) /\
     (forall j g, nth_error groups j = Some g ->
        g <> [] /\
        (length g =
           length lst / m + (if j <? length lst mod m then 1 else 0))%nat /\
        (forall t x, nth_error g t = Some x ->
           nth_error lst (t * m + j) = Some x))).
Proof.
  split.
  - intros H. unfold distribute.
    destruct (Z.ltb_spec n_bins 1); [reflexivity | lia].
  - intros Hne Hn m. unfold distribute.
    destruct (Z.ltb_spec n_bins 1) as [Hlt|_]; [lia|].
    assert (Z.to_nat (Z.min n_bins (Z.of_nat (length lst))) = m) as ->
      by (subst m; lia).
    assert (0 < length lst)%nat as Hlen.
    { destruct lst; [congruence | simpl; lia]. }
    assert (0 < m)%nat as Hm by (subst m; lia).
    assert (m <= length lst)%nat as Hle by (subst m; lia).
    destruct (distribute_loop_dealt lst Hm) as [Hgl Hg].
    eexists. split; [reflexivity|]. split; [exact Hgl|].
    pose proof (Nat.div_mod_eq (length lst) m) as Hdm.
    pose proof (Nat.mod_upper_bound (length lst) m ltac:(lia)) as Hmb.
    assert (1 <= length lst / m)%nat as Hq.
    { apply Nat.div_le_lower_bound; lia. }
    split.
    + intros k x Hk.
      pose proof (nth_error_Some_lt _ _ Hk) as Hkl.
      pose proof (Nat.div_mod_eq k m) as Hkdm.
      pose proof (Nat.mod_upper_bound k m ltac:(lia)) as Hkm.
      destruct (nth_error (distribute_loop m (enumerate lst) (repeat [] m))
                  (k mod m)) as [g|] eqn:Eg.
      2:{ apply nth_error_None in Eg. lia. }
      exists g. split; [reflexivity|].
      destruct (Hg _ _ Eg) as [Hgl' Hgx].
      assert (k / m < length g)%nat as Hpos.
      { rewrite Hgl'.
        destruct (Nat.ltb_spec (k mod m) (length lst mod m)); nia. }
      destruct (nth_error g (k / m)) as [y|] eqn:Ey.
      2:{ apply nth_error_None in Ey. lia. }
      apply Hgx in Ey.
      replace (k / m * m + k mod m)%nat with k in Ey by lia.
      congruence.
    + intros j g Hj. destruct (Hg _ _ Hj) as [Hgl' Hgx].
      split; [|split; assumption].
      intros ->. simpl in Hgl'. lia.
Qed.

(** The theorem at the list [1, 2, 3, 4, 5] and two bins. *)
Lemma distribute_round_robin_witness :
  exists groups,
    distribute [1; 2; 3; 4; 5]%nat 2 = Ok groups /\
    length groups = 2%nat /\
    (forall k x, nth_error [1; 2; 3; 4; 5]%nat k = Some x ->
       exists g, nth_error groups (k mod 2) = Some g /\
                 nth_error g (k / 2) = Some x) /\
    (forall j g, nth_error groups j = Some g ->
       g <> [] /\
       (length g = 5 / 2 + (if j <? 5 mod 2 then 1 else 0))%nat /\
       (forall t x, nth_error g t = Some x ->
          nth_error [1; 2; 3; 4; 5]%nat (t * 2 + j) = Some x)).
Proof.
  destruct (distribute_round_robin [1; 2; 3; 4; 5]%nat 2) as [_ H].
  apply H; [discriminate | lia].
Defined.

(** C9 as stated fails: three items over two bins give groups of two
    items and of one item. *)
Lemma distribute_groups_differ_in_size :
  exists g1 g2,
    distribute [1; 2; 3]%nat 2 = Ok [g1; g2] /\ length g1 <> length g2.
Proof.
  exists [1; 3]%nat, [2]%nat. split; [reflexivity | discriminate].
Qed.

(** ** The confidence matrix *)

Lemma py_getitem_nonneg {A : Type} (l : list A) (i : Z) (x : A) :
  (0 <= i)%Z -> nth_error l (Z.to_nat i) = Some x -> py_getitem l i = Ok x.
Proof.
  intros Hi Hx. unfold py_getitem.
  pose proof (nth_error_Some_lt _ _ Hx) as Hlt.
  destruct (Z.ltb_spec i 0); [lia|].
  destruct (Z.ltb_spec i 0); [lia|].
  destruct (Z.leb_spec (Z.of_nat (length l)) i); [lia|].
  simpl. unfold nth_res. rewrite Hx. reflexivity.
Qed.

Lemma pae_index_range (N a b : Z) :
  (1 <= a <= N)%Z -> (1 <= b <= N)%Z ->
  (0 <= pae_index N a b < N * N)%Z.
Proof. unfold pae_index. intros Ha Hb. nia. Qed.

Lemma pae_lookup_values (pae_data : list pae_token) (N : Z) (mode : string)
  (i j : Z) (v0 v1 : Q) :
  (0 <= pae_index N i j)%Z -> (0 <= pae_index N j i)%Z ->
  nth_error pae_data (Z.to_nat (pae_index N i j)) = Some (Some v0) ->
  nth_error pae_data (Z.to_nat (pae_index N j i)) = Some (Some v1) ->
  pae_lookup pae_data N mode i j =
  Ok (if String.eqb mode "avg" then (1 # 2) * (v0 + v1) else Qmin v0 v1,
      (v0, v1)).
Proof.
  intros H0 H1 E0 E1. unfold pae_lookup.
  pose proof (nth_error_Some_lt _ _ E0) as L0.
  pose proof (nth_error_Some_lt _ _ E1) as L1.
  destruct (Z.leb_spec (Z.of_nat (length pae_data)) (pae_index N i j)); [lia|].
  destruct (Z.leb_spec (Z.of_nat (length pae_data)) (pae_index N j i)); [lia|].
  simpl.
  rewrite (py_getitem_nonneg _ H0 E0). simpl.
  rewrite (py_getitem_nonneg _ H1 E1). simpl.
  reflexivity.
Qed.

(** C8.  In a row-major matrix of [N] rows and [N] columns, the two
    values of the residue pair with 1-based indices [i] and [j] are the
    entries at the offsets [(i-1) N + (j-1)] and [(j-1) N + (i-1)]; mode
    [min] combines them into their minimum and mode [avg] into their
    mean.  On the matrix [0, 5, 5, 0] with [N = 2] and the residues 1
    and 2 both values are 5 and the minimum is 5. *)
Theorem pae_lookup_row_major (pae_data : list pae_token) (N i j : Z) :
  Z.of_nat (length pae_data) = (N * N)%Z ->
  (1 <= i <= N)%Z -> (1 <= j <= N)%Z ->
  (exists t_ij t_ji,
     nth_error pae_data (Z.to_nat ((i - 1) * N + (j - 1))) = Some t_ij /\
     nth_error pae_data (Z.to_nat ((j - 1) * N + (i - 1))) = Some t_ji /\
     forall v_ij v_ji, t_ij = Some v_ij -> t_ji = Some v_ji ->
       pae_lookup pae_data N "min" i j = Ok (Qmin v_ij v_ji, (v_ij, v_ji)) /\
       exists mean,
         pae_lookup pae_data N "avg" i j = Ok (mean, (v_ij, v_ji)) /\
         mean == (v_ij + v_ji) / 2) /\
  pae_lookup [Some 0; Some 5; Some 5; Some 0] 2 "min" 1 2 = Ok (5, (5, 5)).
Proof.
  intros Hlen Hi Hj. split; [|reflexivity].
  pose proof (pae_index_range Hi Hj) as R0.
  pose proof (pae_index_range Hj Hi) as R1.
  assert (pae_index N i j = (i - 1) * N + (j - 1))%Z as E0
    by (unfold pae_index; ring).
  assert (pae_index N j i = (j - 1) * N + (i - 1))%Z as E1
    by (unfold pae_index; ring).
  rewrite <- E0, <- E1.
  destruct (nth_error pae_data (Z.to_nat (pae_index N i j))) as [t0|] eqn:T0.
  2:{ apply nth_error_None in T0. lia. }
  destruct (nth_error pae_data (Z.to_nat (pae_index N j i))) as [t1|] eqn:T1.
  2:{ apply nth_error_None in T1. lia. }
  exists t0, t1. split; [reflexivity|]. split; [reflexivity|].
  intros v0 v1 -> ->. split.
  - rewrite (@pae_lookup_values pae_data N "min" i j v0 v1
               (proj1 R0) (proj1 R1) T0 T1).
    reflexivity.
  - eexists. split.
    + rewrite (@pae_lookup_values pae_data N "avg" i j v0 v1
                 (proj1 R0) (proj1 R1) T0 T1).
      reflexivity.
    + simpl. field.
Qed.

(** The theorem at the matrix of the scenario. *)
Lemma pae_lookup_row_major_witness :
  (exists t_ij t_ji,
     nth_error [Some 0; Some 5; Some 5; Some 0]
       (Z.to_nat ((1 - 1) * 2 + (2 - 1))) = Some t_ij /\
     nth_error [Some 0; Some 5; Some 5; Some 0]
       (Z.to_nat ((2 - 1) * 2 + (1 - 1))) = Some t_ji /\
     forall v_ij v_ji, t_ij = Some v_ij -> t_ji = Some v_ji ->
       pae_lookup [Some 0; Some 5; Some 5; Some 0] 2 "min" 1 2
         = Ok (Qmin v_ij v_ji, (v_ij, v_ji)) /\
       exists mean,
         pae_lookup [Some 0; Some 5; Some 5; Some 0] 2 "avg" 1 2
           = Ok (mean, (v_ij, v_ji)) /\
         mean == (v_ij + v_ji) / 2) /\
  pae_lookup [Some 0; Some 5; Some 5; Some 0] 2 "min" 1 2 = Ok (5, (5, 5)).
Proof.
  apply (pae_lookup_row_major [Some 0; Some 5; Some 5; Some 0] (N := 2)
           (i := 1) (j := 2)); [reflexivity | lia | lia].
Defined.

(** ** [get_contacts]: the checks before and during the filtering *)

Lemma is_err_bind_l {A B : Type} (r : result A) (k : A -> result B) :
  is_err r -> is_err (x <- r ;; k x).
Proof. intros [e ->]. exists e. reflexivity. Qed.

Lemma foldM_err_in {S A : Type} (body : S -> A -> result S) (l : list A) (c : A) :
  In c l -> (forall s, is_err (body s c)) -> forall s, is_err (foldM body l s).
Proof.
  intros Hin Hc. induction l as [|a l IH]; [contradiction|].
  intros s. simpl. destruct Hin as [->|Hin].
  - apply is_err_bind_l, Hc.
  - destruct (body s a) as [s'|e]; simpl.
    + apply IH, Hin.
    + exists e. reflexivity.
Qed.

Section GetContacts.

Variable get_lines_from_pdb_file : string -> result (list pdb_line).
Variable pae_payload : string -> result (list pae_token).
Variables (pdb_filename pae_filename : string).
Variables (max_distance min_plddt max_pae : Q).
Variables (pae_mode valid_aas : string).

Lemma get_contacts_bad_model_num :
  (forall n, get_af_model_num pdb_filename = Ok n -> (n < 1 \/ 5 < n)%Z) ->
  is_err
    (get_contacts get_lines_from_pdb_file pae_payload pdb_filename
            pae_filename max_distance min_plddt max_pae pae_mode valid_aas).
Proof.
  intros H. unfold get_contacts.
  destruct (get_af_model_num pdb_filename) as [n|e]; simpl.
  - destruct (H n eq_refl) as [Hn|Hn].
    + destruct (Z.ltb_spec n 1); [|lia]. simpl. eexists; reflexivity.
    + destruct (Z.ltb_spec 5 n); [|lia]. rewrite orb_true_r.
      eexists; reflexivity.
  - eexists; reflexivity.
Qed.

Lemma get_contacts_model_mismatch :
  pae_filename <> EmptyString ->
  get_af_model_num pdb_filename <> get_af_model_num pae_filename ->
  is_err
    (get_contacts get_lines_from_pdb_file pae_payload pdb_filename
            pae_filename max_distance min_plddt max_pae pae_mode valid_aas).
Proof.
  intros Hpae Hne. unfold get_contacts.
  destruct (get_af_model_num pdb_filename) as [n|e]; simpl;
    [|eexists; reflexivity].
  destruct ((n <? 1)%Z || (5 <? n)%Z); [eexists; reflexivity|].
  destruct pae_filename as [|c rest] eqn:Epae; [congruence|]. simpl.
  rewrite <- Epae in *.
  destruct (get_af_model_num pae_filename) as [n'|e']; simpl;
    [|eexists; reflexivity].
  destruct (Z.eqb_spec n n') as [->|_]; [congruence|].
  simpl. eexists; reflexivity.
Qed.

Lemma get_contacts_index_out_of_range (contacts : list contact)
  (pae_data : list pae_token) (c : contact) :
  pae_filename <> EmptyString ->
  get_contacts_from_structure get_lines_from_pdb_file pdb_filename
    max_distance min_plddt valid_aas false = Ok contacts ->
  get_pae_values_from_json_file pae_payload pae_filename = Ok pae_data ->
  In c contacts ->
  (let total_aa_length := Z.sqrt (Z.of_nat (length pae_data)) in
   let a0 := ca_a_ix (aa1 c) in
   let a1 := ca_a_ix (aa2 c) in
   Z.of_nat (length pae_data) <= pae_index total_aa_length a0 a1 \/
   Z.of_nat (length pae_data) <= pae_index total_aa_length a1 a0)%Z ->
  is_err
    (get_contacts get_lines_from_pdb_file pae_payload pdb_filename
            pae_filename max_distance min_plddt max_pae pae_mode valid_aas).
Proof.
  intros Hpae Hcs Hdata Hin Hix. unfold get_contacts.
  destruct (get_af_model_num pdb_filename) as [n|e]; simpl;
    [|eexists; reflexivity].
  destruct ((n <? 1)%Z || (5 <? n)%Z); [eexists; reflexivity|].
  destruct pae_filename as [|ch rest] eqn:Epae; [congruence|]. simpl.
  rewrite <- Epae in *.
  destruct (get_af_model_num pae_filename) as [n'|e']; simpl;
    [|eexists; reflexivity].
  destruct (n =? n')%Z; simpl; [|eexists; reflexivity].
  rewrite Hcs. simpl.
  destruct contacts as [|c0 cs] eqn:Ecs; [contradiction|].
  rewrite <- Ecs in *.
  replace (length contacts <? 1)%nat with false
    by (subst contacts; reflexivity).
  rewrite Hdata. simpl.
  apply foldM_err_in with (c := c); [exact Hin|].
  intros acc. unfold filter_step. apply is_err_bind_l.
  unfold filter_contact. simpl. apply is_err_bind_l.
  unfold pae_lookup. cbv zeta in Hix.
  destruct Hix as [Hix|Hix].
  - destruct (Z.leb_spec (Z.of_nat (length pae_data))
                (pae_index (Z.sqrt (Z.of_nat (length pae_data)))
                   (ca_a_ix (aa1 c)) (ca_a_ix (aa2 c)))); [|lia].
    simpl. eexists; reflexivity.
  - destruct (Z.leb_spec (Z.of_nat (length pae_data))
                (pae_index (Z.sqrt (Z.of_nat (length pae_data)))
                   (ca_a_ix (aa2 c)) (ca_a_ix (aa1 c)))); [|lia].
    rewrite orb_true_r. eexists; reflexivity.
Qed.

Lemma get_contacts_no_contacts (model_num : Z) :
  get_af_model_num pdb_filename = Ok model_num ->
  (1 <= model_num <= 5)%Z ->
  (pae_filename = EmptyString \/
   get_af_model_num pae_filename = Ok model_num) ->
  get_contacts_from_structure get_lines_from_pdb_file pdb_filename
    max_distance min_plddt valid_aas false = Ok [] ->
  get_contacts get_lines_from_pdb_file pae_payload pdb_filename pae_filename
    max_distance min_plddt max_pae pae_mode valid_aas = Ok [].
Proof.
  intros Hn Hr Hpae Hcs. unfold get_contacts.
  rewrite Hn. simpl.
  destruct (Z.ltb_spec model_num 1); [lia|].
  destruct (Z.ltb_spec 5 model_num); [lia|]. simpl.
  assert ((if (String.length pae_filename =? 0)%nat then Ok true
           else pae_model_num <- get_af_model_num pae_filename ;;
                Ok (model_num =? pae_model_num)%Z) = Ok true) as ->.
  { destruct Hpae as [Ep | Ep]; rewrite Ep; [reflexivity|]. simpl.
    rewrite Z.eqb_refl. destruct (String.length pae_filename =? 0)%nat;
      reflexivity. }
  simpl. rewrite Hcs. reflexivity.
Qed.

End GetContacts.

Lemma get_pae_values_not_square (pae_payload : string -> result (list pae_token))
  (json_filename : string) (pae_data : list pae_token) :
  pae_payload json_filename = Ok pae_data ->
  (forall k : nat, length pae_data <> (k * k)%nat) ->
  get_pae_values_from_json_file pae_payload json_filename = Err ValueError.
Proof.
  intros Hp Hsq. unfold get_pae_values_from_json_file. rewrite Hp. simpl.
  destruct (Z.eqb_spec (Z.of_nat (length pae_data))
              (Z.sqrt (Z.of_nat (length pae_data))
               * Z.sqrt (Z.of_nat (length pae_data)))) as [E|_];
    [|reflexivity].
  exfalso.
  apply (Hsq (Z.to_nat (Z.sqrt (Z.of_nat (length pae_data))))).
  pose proof (Z.sqrt_nonneg (Z.of_nat (length pae_data))). nia.
Qed.

Example get_contacts_sample :
  get_contacts sample_pdb_files sample_pae_files
    "a_b_model_1.pdb" "a_b_model_1.json" 8 50 15 "min" ""
  = Ok [("A:B"%string,
         [("1&2"%string,
           {| ce_chains := ("A"%string, "B"%string);
              ce_inchain_indices := (1%Z, 1%Z);
              ce_types := ("G"%char, "G"%char);
              ce_pae := 5; ce_paes := (5, 5); ce_plddts := (90, 90);
              ce_model := 1%Z; ce_distance := 20 # 10 |})])].
Proof. vm_compute. reflexivity. Qed.

Lemma no_model_marker (filename : string) :
  contains "model_" filename = false -> get_af_model_num filename = Ok 0%Z.
Proof. intros H. unfold get_af_model_num. rewrite H. reflexivity. Qed.

(** C6.  [get_contacts] ends in an exception whenever the model number of
    the structure file is not one of 1..5 -- in particular when the file
    name holds no [model_] marker, which counts as model 0 -- and, when a
    matrix file is given, whenever its model number differs from that of
    the structure file. *)
Theorem get_contacts_rejects_model_numbers
  (get_lines_from_pdb_file : string -> result (list pdb_line))
  (pae_payload : string -> result (list pae_token))
  (pdb_filename pae_filename : string) (max_distance min_plddt max_pae : Q)
  (pae_mode valid_aas : string) :
  ((forall n, get_af_model_num pdb_filename = Ok n -> (n < 1 \/ 5 < n)%Z) ->
   is_err (get_contacts get_lines_from_pdb_file pae_payload pdb_filename
             pae_filename max_distance min_plddt max_pae pae_mode valid_aas))
  /\
  (contains "model_" pdb_filename = false ->
   get_af_model_num pdb_filename = Ok 0%Z /\
   is_err (get_contacts get_lines_from_pdb_file pae_payload pdb_filename
             pae_filename max_distance min_plddt max_pae pae_mode valid_aas))
  /\
  (pae_filename <> EmptyString ->
   get_af_model_num pdb_filename <> get_af_model_num pae_filename ->
   is_err (get_contacts get_lines_from_pdb_file pae_payload pdb_filename
             pae_filename max_distance min_plddt max_pae pae_mode valid_aas)).
Proof.
  split; [|split].
  - apply get_contacts_bad_model_num.
  - intros H. pose proof (no_model_marker _ H) as E. split; [exact E|].
    apply get_contacts_bad_model_num. intros n Hn.
    rewrite E in Hn. injection Hn as <-. lia.
  - apply get_contacts_model_mismatch.
Qed.

(** The theorem on the sample files: a structure file without a model
    number, and a structure file of model 2 with the matrix of model 1. *)
Lemma get_contacts_rejects_model_numbers_witness :
  is_err (get_contacts sample_pdb_files sample_pae_files
            "a_b.pdb" "" 8 50 15 "min" "") /\
  is_err (get_contacts sample_pdb_files sample_pae_files
            "a_b_model_2.pdb" "a_b_model_1.json" 8 50 15 "min" "").
Proof.
  split.
  - destruct (get_contacts_rejects_model_numbers sample_pdb_files
                sample_pae_files "a_b.pdb" "" 8 50 15 "min" "")
      as [_ [H _]].
    apply H. reflexivity.
  - destruct (get_contacts_rejects_model_numbers sample_pdb_files
                sample_pae_files "a_b_model_2.pdb" "a_b_model_1.json"
                8 50 15 "min" "")
      as [_ [_ H]].
    apply H; discriminate.
Defined.

(** C7.  Reading a matrix whose length is not a square raises
    [ValueError]; and [get_contacts] ends in an exception, returning no
    contacts at all, whenever one of the two offsets computed for a
    geometric contact is at or past the end of the matrix. *)
Theorem pae_shape_and_bounds_are_checked
  (get_lines_from_pdb_file : string -> result (list pdb_line))
  (pae_payload : string -> result (list pae_token)) :
  (forall json_filename pae_data,
     pae_payload json_filename = Ok pae_data ->
     (forall k : nat, length pae_data <> (k * k)%nat) ->
     get_pae_values_from_json_file pae_payload json_filename = Err ValueError)
  /\
  (forall pdb_filename pae_filename max_distance min_plddt max_pae pae_mode
          valid_aas contacts pae_data c,
     pae_filename <> EmptyString ->
     get_contacts_from_structure get_lines_from_pdb_file pdb_filename
       max_distance min_plddt valid_aas false = Ok contacts ->
     get_pae_values_from_json_file pae_payload pae_filename = Ok pae_data ->
     In c contacts ->
     (Z.of_nat (length pae_data)
        <= pae_index (Z.sqrt (Z.of_nat (length pae_data)))
             (ca_a_ix (aa1 c)) (ca_a_ix (aa2 c))
      \/ Z.of_nat (length pae_data)
        <= pae_index (Z.sqrt (Z.of_nat (length pae_data)))
             (ca_a_ix (aa2 c)) (ca_a_ix (aa1 c)))%Z ->
     is_err (get_contacts get_lines_from_pdb_file pae_payload pdb_filename
               pae_filename max_distance min_plddt max_pae pae_mode valid_aas)).
Proof.
  split.
  - intros f d. apply get_pae_values_not_square.
  - intros pdb pae d p mp mode aas contacts pae_data c Hpae Hcs Hd Hin Hix.
    eapply get_contacts_index_out_of_range; eauto.
Qed.

(** The theorem on the sample files: a matrix of three entries, and the
    two-residue structure with a matrix of one entry. *)
Lemma pae_shape_and_bounds_are_checked_witness :
  get_pae_values_from_json_file sample_pae_files "odd_model_1.json"
    = Err ValueError /\
  is_err (get_contacts sample_pdb_files sample_pae_files
            "a_b_model_1.pdb" "short_model_1.json" 8 50 15 "min" "").
Proof.
  destruct (pae_shape_and_bounds_are_checked sample_pdb_files sample_pae_files)
    as [H1 H2].
  split.
  - apply (H1 "odd_model_1.json"%string [Some 0; Some 5; Some 5]);
      [reflexivity|].
    intros k. simpl. destruct k as [|[|k]]; simpl; lia.
  - apply (H2 "a_b_model_1.pdb"%string "short_model_1.json"%string 8 50 15
             "min"%string ""%string [sample_contact] [Some 0] sample_contact).
    + discriminate.
    + vm_compute. reflexivity.
    + reflexivity.
    + left. reflexivity.
    + left. vm_compute. discriminate.
Defined.

(** ** No contact between two chains *)

Lemma calculate_interface_statistics_empty (interchain_id : string)
  (contacts : dict (dict contact_entry)) :
  no_contacts_between interchain_id contacts ->
  calculate_interface_statistics interchain_id contacts = no_contact_stats.
Proof.
  intros [H|H]; unfold calculate_interface_statistics; rewrite H; reflexivity.
Qed.

Lemma pair_step_no_contacts
  (pdockq_rounded : string -> list string -> result Q) (pdb_filename : string)
  (contacts : dict (dict contact_entry)) (chain_list chain_list_lbl : list string)
  (chain1 chain1_lbl : string) (acc : model_acc) (i2 : nat)
  (chain2 chain2_lbl : string) :
  nth_error chain_list i2 = Some chain2 ->
  nth_error chain_list_lbl i2 = Some chain2_lbl ->
  no_contacts_between (chain1 ++ ":" ++ chain2) contacts ->
  pair_step pdockq_rounded pdb_filename contacts chain_list chain_list_lbl
    chain1 chain1_lbl acc i2
  = Ok {| model_total_pdockq := model_total_pdockq acc + 0;
          model_total_plddt := model_total_plddt acc + 0;
          model_total_pae := model_total_pae acc + 0;
          if_pairs :=
            dict_set (chain1_lbl ++ ":" ++ chain2_lbl)
              {| ps_interface := no_contact_stats; ps_pdockq := 0 |}
              (if_pairs acc) |}.
Proof.
  intros H2 Hl Hc. unfold pair_step, nth_res. rewrite H2, Hl.
  cbn [bind].
  rewrite (calculate_interface_statistics_empty Hc). reflexivity.
Qed.

(** C5.  When the structure yields no geometric contact, [get_contacts]
    returns the empty dictionary and never opens the matrix file (the
    result is the same whatever reading it would give, an exception
    included).  For a chain pair without contacts the statistics are a
    count of 0 with all of minimum, average and maximum at 0 for both
    confidence and error, the score of the pair is set to 0 without a
    call to the scorer, and the scorer itself returns 0 when no two
    representative atoms are within 8 A.  None of these is an exception. *)
Theorem zero_contacts_are_not_an_error :
  (forall get_lines_from_pdb_file pae_payload pdb_filename pae_filename
          max_distance min_plddt max_pae pae_mode valid_aas model_num,
     get_af_model_num pdb_filename = Ok model_num ->
     (1 <= model_num <= 5)%Z ->
     (pae_filename = EmptyString \/
      get_af_model_num pae_filename = Ok model_num) ->
     get_contacts_from_structure get_lines_from_pdb_file pdb_filename
       max_distance min_plddt valid_aas false = Ok [] ->
     get_contacts get_lines_from_pdb_file pae_payload pdb_filename
       pae_filename max_distance min_plddt max_pae pae_mode valid_aas = Ok [])
  /\
  (forall interchain_id contacts,
     no_contacts_between interchain_id contacts ->
     calculate_interface_statistics interchain_id contacts
     = {| num_contacts := 0; plddt_stats := (0, 0, 0);
          pae_stats := (0, 0, 0); distance_avg := 0 |})
  /\
  (forall pdockq_rounded pdb_filename contacts chain_list chain_list_lbl
          chain1 chain1_lbl acc i2 chain2 chain2_lbl,
     nth_error chain_list i2 = Some chain2 ->
     nth_error chain_list_lbl i2 = Some chain2_lbl ->
     no_contacts_between (chain1 ++ ":" ++ chain2) contacts ->
     exists acc',
       pair_step pdockq_rounded pdb_filename contacts chain_list
         chain_list_lbl chain1 chain1_lbl acc i2 = Ok acc' /\
       dict_get (chain1_lbl ++ ":" ++ chain2_lbl) (if_pairs acc')
       = Some {| ps_interface := no_contact_stats; ps_pdockq := 0 |})
  /\
  (forall ch1 ch2 coords1 coords2 plddt1 plddt2,
     pdockq_contacts coords1 coords2 = [] ->
     pdockq_of_table [(ch1, (coords1, plddt1)); (ch2, (coords2, plddt2))]
     = Ok 0%R).
Proof.
  split; [|split; [|split]].
  - intros. eapply get_contacts_no_contacts; eauto.
  - intros. apply calculate_interface_statistics_empty. assumption.
  - intros until chain2_lbl. intros H2 Hl Hc.
    eexists. split.
    + exact (@pair_step_no_contacts pdockq_rounded pdb_filename contacts
               chain_list chain_list_lbl chain1 chain1_lbl acc i2 chain2
               chain2_lbl H2 Hl Hc).
    + simpl. apply dict_get_set_same.
  - intros until plddt2. intros Hc. unfold pdockq_of_table.
    rewrite Hc. reflexivity.
Qed.

(** The theorem on the sample structure whose chains are 100 A apart,
    with a matrix file that does not exist and a scorer that would
    raise. *)
Lemma zero_contacts_are_not_an_error_witness :
  get_contacts sample_pdb_files sample_pae_files
    "far_model_1.pdb" "missing_model_1.json" 8 50 15 "min" "" = Ok [] /\
  calculate_interface_statistics "A:B" []
    = {| num_contacts := 0; plddt_stats := (0, 0, 0);
         pae_stats := (0, 0, 0); distance_avg := 0 |} /\
  (exists acc',
     pair_step sample_pdockq "far_model_1.pdb" [] ["A"; "B"]%string
       ["a"; "b"]%string "A" "a"
       {| model_total_pdockq := 0; model_total_plddt := 0;
          model_total_pae := 0; if_pairs := [] |} 1 = Ok acc' /\
     dict_get ("a" ++ ":" ++ "b") (if_pairs acc')
     = Some {| ps_interface := no_contact_stats; ps_pdockq := 0 |}) /\
  pdockq_of_table
    [("A"%string, ([(1, 0, 0)], [90])); ("B"%string, ([(101, 0, 0)], [90]))]
  = Ok 0%R.
Proof.
  destruct zero_contacts_are_not_an_error as [Ha [Hb [Hc Hd]]].
  split; [|split; [|split]].
  - apply (Ha sample_pdb_files sample_pae_files "far_model_1.pdb"%string
             "missing_model_1.json"%string 8 50 15 "min"%string ""%string
             1%Z).
    + reflexivity.
    + lia.
    + right. reflexivity.
    + vm_compute. reflexivity.
  - apply Hb. left. reflexivity.
  - apply (Hc sample_pdockq "far_model_1.pdb"%string [] ["A"; "B"]%string
             ["a"; "b"]%string "A"%string "a"%string _ 1%nat "B"%string
             "b"%string).
    + reflexivity.
    + reflexivity.
    + left. reflexivity.
  - apply Hd. reflexivity.
Defined.

(** ** The parsing loop numbers the residues by their place in the file *)

Lemma count_N_snoc (lines : list pdb_line) (l : pdb_line) :
  count_N (lines ++ [l]) =
  (count_N lines + (if is_atom_record l && is_nitrogen l then 1 else 0))%nat.
Proof.
  unfold count_N. rewrite filter_app, length_app. simpl.
  destruct (is_atom_record l && is_nitrogen l); reflexivity.
Qed.

Lemma update_last_in {A : Type} (f : A -> A) (xs ys : list A) :
  update_last f xs = Some ys ->
  forall y, In y ys -> exists x, In x xs /\ (y = x \/ y = f x).
Proof.
  revert ys. induction xs as [|x xs IH]; intros ys H y Hy; [discriminate|].
  simpl in H. destruct xs as [|x' xs'].
  - injection H as <-. destruct Hy as [<-|[]]. exists x. simpl. auto.
  - destruct (update_last f (x' :: xs')) as [zs|] eqn:E; [|discriminate].
    injection H as <-. destruct Hy as [<-|Hy].
    + exists x. simpl. auto.
    + destruct (IH zs eq_refl y Hy) as [x0 [Hin Hx0]].
      exists x0. split; [right; exact Hin | exact Hx0].
Qed.

Lemma push_last_in {A : Type} (x : A) (xs : list (list A)) (y : A) :
  In y (concat (push_last x xs)) -> In y (concat xs) \/ y = x.
Proof.
  unfold push_last.
  destruct (update_last (fun c => c ++ [x]) xs) as [ys|] eqn:E; [|auto].
  intros Hy. apply in_concat in Hy. destruct Hy as [c [Hc Hyc]].
  destruct (update_last_in _ _ E c Hc) as [c0 [Hc0 [->| ->]]].
  - left. apply in_concat. eauto.
  - apply in_app_or in Hyc. destruct Hyc as [Hyc|[<-|[]]]; [|auto].
    left. apply in_concat. eauto.
Qed.

Lemma append_atom_in (a : atom) (rs rs' : list (list residue)) (r : residue) :
  append_atom a rs = Ok rs' -> In r (concat rs') ->
  exists r0, In r0 (concat rs) /\ (r = r0 \/ r = add_atom a r0).
Proof.
  unfold append_atom. intros H Hr.
  destruct rs as [|c0 rs0] eqn:Ers; [discriminate|]. rewrite <- Ers in *.
  clear Ers c0 rs0.
  match type of H with
  | match update_last ?f rs with _ => _ end = _ =>
      destruct (update_last f rs) as [ys|] eqn:E; [|discriminate]
  end.
  injection H as <-.
  apply in_concat in Hr. destruct Hr as [c [Hc Hrc]].
  destruct (update_last_in _ _ E c Hc) as [c1 [Hc1 [->|Hup]]].
  - exists r. split; [apply in_concat; eauto | auto].
  - destruct (update_last (add_atom a) c1) as [c1'|] eqn:E1.
    + subst c. destruct (update_last_in _ _ E1 r Hrc) as [r0 [Hr0 Hor]].
      exists r0. split; [apply in_concat; eauto | exact Hor].
    + subst c. exists r. split; [apply in_concat; eauto | auto].
Qed.

Lemma made_from_add_atom (pre : list pdb_line) (l : pdb_line) (a : atom)
  (r : residue) : made_from pre l r -> made_from pre l (add_atom a r).
Proof. unfold made_from. simpl. tauto. Qed.

Lemma numbered_later (seen : list pdb_line) (l' : pdb_line) (r : residue) :
  (exists pre l post, seen = pre ++ l :: post /\ made_from pre l r) ->
  exists pre l post, seen ++ [l'] = pre ++ l :: post /\ made_from pre l r.
Proof.
  intros (pre & l & post & -> & H).
  exists pre, l, (post ++ [l']). split; [|exact H].
  rewrite <- app_assoc. reflexivity.
Qed.

Lemma parse_line_numbered (min_plddt : Q) (valid_aas : string)
  (seen : list pdb_line) (st st' : parse_state) (l : pdb_line) :
  numbered seen st ->
  parse_line min_plddt valid_aas st l = Ok st' ->
  numbered (seen ++ [l]) st'.
Proof.
  intros [Habs Hres] H. unfold parse_line in H.
  assert (forall r, In r (concat (residues st)) ->
            exists pre l0 post,
              seen ++ [l] = pre ++ l0 :: post /\ made_from pre l0 r) as Hold.
  { intros r Hr. apply numbered_later, Hres, Hr. }
  assert ((if is_nitrogen l then (abs_res_index st + 1)%Z
           else abs_res_index st)
          = Z.of_nat (count_N seen
                      + (if is_atom_record l && is_nitrogen l then 1 else 0))
            \/ is_atom_record l = false) as Hcnt.
  { destruct (is_atom_record l); [left|right; reflexivity].
    simpl. destruct (is_nitrogen l); lia. }
  destruct (is_atom_record l) eqn:Eatom; simpl in H.
  2:{ injection H as <-. split; [|exact Hold].
      rewrite count_N_snoc, Eatom. simpl. rewrite Nat.add_0_r. exact Habs. }
  destruct Hcnt as [Hcnt|]; [|discriminate]. simpl in Hcnt.
  destruct (Qltb (l_bfactor l) min_plddt).
  { injection H as <-. split; [|exact Hold].
    simpl. rewrite count_N_snoc, Eatom. exact Hcnt. }
  destruct (aa_3c_to_1c (l_res_name l)) as [aa|]; [|discriminate].
  destruct ((0 <? String.length valid_aas)%nat && negb (char_in aa valid_aas)).
  { injection H as <-. split; [|exact Hold].
    simpl. rewrite count_N_snoc, Eatom. exact Hcnt. }
  destruct (is_nitrogen l) eqn:En.
  - simpl in H.
    match type of H with
    | (rs <- append_atom ?a ?rs0 ;; _) = _ =>
        destruct (append_atom a rs0) as [rs'|] eqn:Eap; [|discriminate]
    end.
    simpl in H. injection H as <-. split.
    + simpl. rewrite count_N_snoc, Eatom, En. cbn [andb]. lia.
    + simpl. intros r Hr.
      destruct (append_atom_in _ _ _ Eap Hr) as [r0 [Hr0 Hor]].
      assert (exists pre l0 post,
                seen ++ [l] = pre ++ l0 :: post /\ made_from pre l0 r0) as Hm.
      { apply push_last_in in Hr0. destruct Hr0 as [Hr0| ->].
        - apply Hold.
          destruct (negb (same_chain (l_chain l) (last_chain st)));
            [|exact Hr0].
          rewrite concat_app in Hr0. simpl in Hr0.
          rewrite app_nil_r in Hr0. exact Hr0.
        - exists seen, l, []. split; [reflexivity|].
          unfold made_from. simpl. rewrite count_N_snoc, Eatom, En.
          cbn [andb]. repeat split; try reflexivity. lia. }
      destruct Hm as (pre & l0 & post & Hs & Hm).
      exists pre, l0, post. split; [exact Hs|].
      destruct Hor as [->| ->]; [exact Hm | apply made_from_add_atom, Hm].
  - simpl in H.
    match type of H with
    | (rs <- append_atom ?a ?rs0 ;; _) = _ =>
        destruct (append_atom a rs0) as [rs'|] eqn:Eap; [|discriminate]
    end.
    simpl in H. injection H as <-. split.
    + simpl. rewrite count_N_snoc, Eatom, En. cbn [andb]. lia.
    + simpl. intros r Hr.
      destruct (append_atom_in _ _ _ Eap Hr) as [r0 [Hr0 Hor]].
      destruct (Hold r0 Hr0) as (pre & l0 & post & Hs & Hm).
      exists pre, l0, post. split; [exact Hs|].
      destruct Hor as [->| ->]; [exact Hm | apply made_from_add_atom, Hm].
Qed.

Lemma foldM_parse_numbered (min_plddt : Q) (valid_aas : string)
  (lines seen : list pdb_line) (st st' : parse_state) :
  numbered seen st ->
  foldM (parse_line min_plddt valid_aas) lines st = Ok st' ->
  numbered (seen ++ lines) st'.
Proof.
  revert seen st. induction lines as [|l lines IH]; intros seen st Hn H.
  - simpl in H. injection H as <-. rewrite app_nil_r. exact Hn.
  - simpl in H.
    destruct (parse_line min_plddt valid_aas st l) as [st1|] eqn:E;
      [|discriminate].
    simpl in H.
    replace (seen ++ l :: lines) with ((seen ++ [l]) ++ lines)
      by (rewrite <- app_assoc; reflexivity).
    apply (IH _ st1); [|exact H].
    eapply parse_line_numbered; eassumption.
Qed.

(** C10.  Every residue kept by the parsing loop was made from an [ATOM]
    record of a backbone nitrogen, and its absolute index is the number of
    such records in the file up to and including that one, whatever the
    confidence filter and the amino-acid restriction dropped before it;
    the counter itself ends at the number of all such records. *)
Theorem absolute_index_counts_nitrogen_records (min_plddt : Q)
  (valid_aas : string) (lines : list pdb_line) (st : parse_state) :
  parse_structure min_plddt valid_aas lines = Ok st ->
  abs_res_index st = Z.of_nat (count_N lines) /\
  forall r, In r (concat (residues st)) ->
    exists pre l post,
      lines = pre ++ l :: post /\
      is_atom_record l = true /\ is_nitrogen l = true /\
      a_ix r = Z.of_nat (count_N (pre ++ [l])) /\
      c_ix r = l_res_seq l /\ plddt r = l_bfactor l /\ chain r = l_chain l.
Proof.
  intros H. unfold parse_structure in H.
  assert (numbered [] parse_init) as H0.
  { split; [reflexivity|]. intros r []. }
  exact (foldM_parse_numbered _ _ _ H0 H).
Qed.

Example filtered_state_residues :
  map (map a_ix) (residues filtered_state) = [[2%Z]].
Proof. reflexivity. Qed.

(** The theorem on a chain whose first residue is dropped by the
    confidence filter: the residue that is kept has absolute index 2. *)
Lemma absolute_index_counts_nitrogen_records_witness :
  abs_res_index filtered_state = Z.of_nat (count_N filtered_lines) /\
  forall r, In r (concat (residues filtered_state)) ->
    exists pre l post,
      filtered_lines = pre ++ l :: post /\
      is_atom_record l = true /\ is_nitrogen l = true /\
      a_ix r = Z.of_nat (count_N (pre ++ [l])) /\
      c_ix r = l_res_seq l /\ plddt r = l_bfactor l /\ chain r = l_chain l.
Proof.
  apply (@absolute_index_counts_nitrogen_records 50 ""%string filtered_lines
           filtered_state).
  vm_compute. reflexivity.
Defined.

(** ** The nitrogen coordinates stay aligned with the residues *)

Lemma last_cases {A : Type} (l : list A) :
  l = [] \/ exists l0 x, l = l0 ++ [x].
Proof.
  destruct l as [|y l']; [left; reflexivity | right].
  destruct (@exists_last _ (y :: l')) as [l0 [x E]]; [discriminate|].
  eauto.
Qed.

Lemma update_last_snoc {A : Type} (f : A -> A) (xs : list A) (x : A) :
  update_last f (xs ++ [x]) = Some (xs ++ [f x]).
Proof.
  induction xs as [|y xs IH]; [reflexivity|].
  simpl. destruct (xs ++ [x]) as [|z zs] eqn:E.
  - destruct xs; discriminate.
  - rewrite IH. reflexivity.
Qed.

Lemma push_last_snoc {A : Type} (x : A) (xs : list (list A)) (c : list A) :
  push_last x (xs ++ [c]) = xs ++ [c ++ [x]].
Proof. unfold push_last. rewrite update_last_snoc. reflexivity. Qed.

Lemma append_atom_snoc (a : atom) (rs : list (list residue))
  (c : list residue) (r : residue) :
  append_atom a (rs ++ [c ++ [r]]) = Ok (rs ++ [c ++ [add_atom a r]]).
Proof.
  unfold append_atom.
  destruct (rs ++ [c ++ [r]]) as [|z zs] eqn:E.
  - destruct rs; discriminate.
  - rewrite <- E. rewrite update_last_snoc, update_last_snoc. reflexivity.
Qed.

Lemma append_atom_empty_chain (a : atom) (rs : list (list residue)) :
  append_atom a (rs ++ [[]]) = Ok (rs ++ [[]]).
Proof.
  unfold append_atom.
  destruct (rs ++ [[]]) as [|z zs] eqn:E.
  - destruct rs; discriminate.
  - rewrite <- E. rewrite update_last_snoc. reflexivity.
Qed.

Lemma headed_add_atom (a : atom) (r : residue) (n : vec3) :
  headed r n -> headed (add_atom a r) n.
Proof.
  intros (a0 & rest & E & Hn). exists a0, (rest ++ [a]). simpl.
  rewrite E. split; [reflexivity | exact Hn].
Qed.

Lemma Forall2_last_inv {A B : Type} {R : A -> B -> Prop} {l0 : list A} {x : A}
  {l' : list B} :
  Forall2 R (l0 ++ [x]) l' ->
  exists l0' y, l' = l0' ++ [y] /\ Forall2 R l0 l0' /\ R x y.
Proof.
  intros H. apply Forall2_app_inv_l in H.
  destruct H as (l0' & l1' & H0 & H1 & ->).
  inversion H1 as [|? y ? t Hxy Ht]; subst. inversion Ht; subst.
  exists l0', y. auto.
Qed.

Lemma append_atom_aligned (a : atom) (rs rs' : list (list residue))
  (ns : list (list vec3)) :
  Forall2 (Forall2 headed) rs ns -> append_atom a rs = Ok rs' ->
  Forall2 (Forall2 headed) rs' ns.
Proof.
  intros Hal H.
  destruct (last_cases rs) as [->|(rs0 & c & ->)]; [discriminate|].
  destruct (Forall2_last_inv Hal) as (ns0 & cn & -> & H0 & Hc).
  destruct (last_cases c) as [->|(c0 & r & ->)].
  - rewrite append_atom_empty_chain in H. injection H as <-. exact Hal.
  - rewrite append_atom_snoc in H. injection H as <-.
    destruct (Forall2_last_inv Hc) as (cn0 & n & -> & Hc0 & Hr).
    apply Forall2_app; [exact H0|]. constructor; [|constructor].
    apply Forall2_app; [exact Hc0|]. constructor; [|constructor].
    apply headed_add_atom, Hr.
Qed.

Lemma new_residue_aligned (a : atom) (r : residue)
  (rs rs' : list (list residue)) (ns : list (list vec3)) :
  atoms r = [] ->
  Forall2 (Forall2 headed) rs ns ->
  append_atom a (push_last r rs) = Ok rs' ->
  Forall2 (Forall2 headed) rs' (push_last (xyz a) ns).
Proof.
  intros Hr Hal H.
  destruct (last_cases rs) as [->|(rs0 & c & ->)]; [discriminate|].
  destruct (Forall2_last_inv Hal) as (ns0 & cn & -> & H0 & Hc).
  rewrite push_last_snoc. rewrite push_last_snoc in H.
  rewrite append_atom_snoc in H.
  injection H as <-.
  apply Forall2_app; [exact H0|]. constructor; [|constructor].
  apply Forall2_app; [exact Hc|]. constructor; [|constructor].
  exists a, []. simpl. rewrite Hr. split; reflexivity.
Qed.

Lemma parse_line_aligned (min_plddt : Q) (valid_aas : string)
  (st st' : parse_state) (l : pdb_line) :
  aligned st -> parse_line min_plddt valid_aas st l = Ok st' -> aligned st'.
Proof.
  unfold aligned. intros Hal H. unfold parse_line in H.
  destruct (is_atom_record l); simpl in H; [|injection H as <-; exact Hal].
  destruct (Qltb (l_bfactor l) min_plddt); [injection H as <-; exact Hal|].
  destruct (aa_3c_to_1c (l_res_name l)) as [aa|]; [|discriminate].
  destruct ((0 <? String.length valid_aas)%nat && negb (char_in aa valid_aas));
    [injection H as <-; exact Hal|].
  destruct (is_nitrogen l); simpl in H.
  - match type of H with
    | (rs <- append_atom ?a ?rs0 ;; _) = _ =>
        destruct (append_atom a rs0) as [rs'|] eqn:Eap; [|discriminate]
    end.
    simpl in H. injection H as <-. simpl.
    change (l_xyz l) with (xyz (atom_from_pdb_line l)).
    eapply new_residue_aligned; [| | exact Eap]; [reflexivity|].
    destruct (negb (same_chain (l_chain l) (last_chain st))); [|exact Hal].
    apply Forall2_app; [exact Hal|]. repeat constructor.
  - match type of H with
    | (rs <- append_atom ?a ?rs0 ;; _) = _ =>
        destruct (append_atom a rs0) as [rs'|] eqn:Eap; [|discriminate]
    end.
    simpl in H. injection H as <-. simpl.
    eapply append_atom_aligned; eassumption.
Qed.

Lemma parse_structure_aligned (min_plddt : Q) (valid_aas : string)
  (lines : list pdb_line) (st : parse_state) :
  parse_structure min_plddt valid_aas lines = Ok st -> aligned st.
Proof.
  unfold parse_structure.
  assert (aligned parse_init) as H0 by constructor.
  revert H0. generalize parse_init as st0. revert st.
  induction lines as [|l lines IH]; intros st st0 H0 H; simpl in H.
  - injection H as <-. exact H0.
  - destruct (parse_line min_plddt valid_aas st0 l) as [st1|] eqn:E;
      [|discriminate].
    simpl in H. apply (IH st st1); [|exact H].
    eapply parse_line_aligned; eassumption.
Qed.

Lemma Forall2_nth_error {A B : Type} (R : A -> B -> Prop) (l : list A)
  (l' : list B) (i : nat) (x : A) :
  Forall2 R l l' -> nth_error l i = Some x ->
  exists y, nth_error l' i = Some y /\ R x y.
Proof.
  intros H. revert i. induction H as [|a b l l' Hab _ IH]; intros [|i] Hi;
    simpl in *; try discriminate.
  - injection Hi as <-. eauto.
  - apply IH, Hi.
Qed.

(** ** The relaxed cutoff of the broad phase *)

Lemma Qltb_lt (x y : Q) : Qltb x y = true <-> x < y.
Proof.
  unfold Qltb. rewrite negb_true_iff. split.
  - intros H. apply Qnot_le_lt. intros Hle.
    apply Qle_bool_iff in Hle. congruence.
  - intros H. destruct (Qle_bool y x) eqn:E; [|reflexivity].
    apply Qle_bool_iff in E. exfalso. exact (Qlt_not_le _ _ H E).
Qed.

Lemma Qsq_nonneg (x : Q) : 0 <= x * x.
Proof. nra. Qed.

(** Cauchy-Schwarz for a vector of length at most 10 and one of length
    below [d]. *)
Lemma dot_bound (ux uy uz vx vy vz d : Q) :
  0 < d ->
  ux * ux + uy * uy + uz * uz <= 100 ->
  vx * vx + vy * vy + vz * vz < d * d ->
  ux * vx + uy * vy + uz * vz < 10 * d.
Proof.
  intros Hd U V.
  pose proof (Qsq_nonneg (d * ux - 10 * vx)) as Sx.
  pose proof (Qsq_nonneg (d * uy - 10 * vy)) as Sy.
  pose proof (Qsq_nonneg (d * uz - 10 * vz)) as Sz.
  assert (d * d * (ux * ux + uy * uy + uz * uz) <= d * d * 100) as U' by nra.
  assert (20 * d * (ux * vx + uy * vy + uz * vz) < 200 * (d * d)) as P by nra.
  nra.
Qed.

Lemma sum_of_three (ux uy uz vx vy vz wx wy wz d : Q) :
  0 < d ->
  ux * ux + uy * uy + uz * uz <= 100 ->
  vx * vx + vy * vy + vz * vz < d * d ->
  wx * wx + wy * wy + wz * wz <= 100 ->
  (ux + vx + wx) * (ux + vx + wx) + (uy + vy + wy) * (uy + vy + wy)
  + (uz + vz + wz) * (uz + vz + wz) < (d + 20) * (d + 20).
Proof.
  intros Hd U V W.
  pose proof (@dot_bound ux uy uz vx vy vz d Hd U V) as UV.
  pose proof (@dot_bound wx wy wz vx vy vz d Hd W V) as WV.
  pose proof (Qsq_nonneg (ux - wx)) as Sx.
  pose proof (Qsq_nonneg (uy - wy)) as Sy.
  pose proof (Qsq_nonneg (uz - wz)) as Sz.
  nra.
Qed.

(** The triangle inequality on squares: two atoms closer than [d], each
    within 10 A of its nitrogen, have nitrogens closer than [d + 20]. *)
Lemma relaxed_cutoff_margin (n1 a1 a2 n2 : vec3) (d : Q) :
  0 < d ->
  dist2 a1 n1 <= 100 -> dist2 a2 n2 <= 100 -> dist2 a1 a2 < d * d ->
  dist2 n1 n2 < (d + 20) * (d + 20).
Proof.
  destruct n1 as [[nx ny] nz], a1 as [[ax ay] az], a2 as [[bx by'] bz],
    n2 as [[mx my] mz].
  unfold dist2. intros Hd H1 H2 H3.
  pose proof (@sum_of_three (nx - ax) (ny - ay) (nz - az)
                (ax - bx) (ay - by') (az - bz)
                (bx - mx) (by' - my) (bz - mz) d Hd) as H.
  assert ((nx - ax) * (nx - ax) + (ny - ay) * (ny - ay)
          + (nz - az) * (nz - az) <= 100) as U by nra.
  specialize (H U H3 H2). nra.
Qed.

Lemma fold_left_invariant {S A : Type} (P : S -> Prop) (f : S -> A -> S)
  (l : list A) (s : S) :
  (forall s a, In a l -> P s -> P (f s a)) -> P s -> P (fold_left f l s).
Proof.
  revert s. induction l as [|a l IH]; intros s Hf Hs; simpl; [exact Hs|].
  apply IH.
  - intros s' a' Ha'. apply Hf. right. exact Ha'.
  - apply Hf; [left; reflexivity | exact Hs].
Qed.

(** The atoms that [get_closest_atoms] returns are atoms of the two
    residues, and the returned distance is theirs; without atoms it
    returns its starting value. *)
Lemma get_closest_atoms_is_a_pair (r1 r2 : residue) :
  match snd (get_closest_atoms r1 r2) with
  | Some (a1, a2) =>
      In a1 (atoms r1) /\ In a2 (atoms r2) /\
      fst (get_closest_atoms r1 r2) = dist2 (xyz a1) (xyz a2)
  | None => fst (get_closest_atoms r1 r2) = min_d2_init
  end.
Proof.
  unfold get_closest_atoms.
  apply fold_left_invariant with
    (P := fun acc : Q * option (atom * atom) =>
            match snd acc with
            | Some (a1, a2) =>
                In a1 (atoms r1) /\ In a2 (atoms r2) /\
                fst acc = dist2 (xyz a1) (xyz a2)
            | None => fst acc = min_d2_init
            end);
    [|reflexivity].
  intros acc a1 Ha1 Hacc.
  apply fold_left_invariant; [|exact Hacc].
  intros acc' a2 Ha2 Hacc'. unfold closest_step.
  destruct (Qltb (dist2 (xyz a1) (xyz a2)) (fst acc')); [|exact Hacc'].
  cbn [fst snd]. auto.
Qed.

(** A pair for which the narrow phase records a contact has two atoms
    closer than the cutoff. *)
Lemma accepted_contact_has_a_close_pair (d2_cutoff : Q) (r1 r2 : residue) :
  accepted_contact d2_cutoff r1 r2 <> [] ->
  exists a1 a2, In a1 (atoms r1) /\ In a2 (atoms r2) /\
                dist2 (xyz a1) (xyz a2) < d2_cutoff.
Proof.
  unfold accepted_contact. intros H.
  destruct (Qltb (fst (get_closest_atoms r1 r2)) d2_cutoff) eqn:E;
    [|congruence].
  apply Qltb_lt in E.
  pose proof (get_closest_atoms_is_a_pair r1 r2) as P.
  destruct (snd (get_closest_atoms r1 r2)) as [[a1 a2]|]; [|congruence].
  destruct P as (H1 & H2 & E').
  exists a1, a2. split; [exact H1|]. split; [exact H2|].
  rewrite <- E'. exact E.
Qed.

Lemma in_combine_seq {A : Type} (l : list A) (s k : nat) (x : A) :
  nth_error l k = Some x -> In ((s + k)%nat, x) (combine (seq s (length l)) l).
Proof.
  revert s k. induction l as [|y l IH]; intros s [|k] H; simpl in *;
    try discriminate.
  - injection H as <-. left. rewrite Nat.add_0_r. reflexivity.
  - right. replace (s + S k)%nat with (S s + k)%nat by lia. apply IH, H.
Qed.

Lemma in_enumerate {A : Type} (l : list A) (k : nat) (x : A) :
  nth_error l k = Some x -> In (k, x) (enumerate l).
Proof. intros H. apply (in_combine_seq l 0 k H). Qed.

Lemma in_index_pairs (cutoff : Q) (c1 c2 : list vec3) (k k2 : nat)
  (n1 n2 : vec3) :
  nth_error c1 k = Some n1 -> nth_error c2 k2 = Some n2 ->
  dist2 n1 n2 < cutoff -> In (k, k2) (index_pairs cutoff c1 c2).
Proof.
  intros H1 H2 Hd. unfold index_pairs.
  apply in_flat_map. exists (k, n1). split; [apply in_enumerate, H1|].
  apply in_flat_map. exists (k2, n2). split; [apply in_enumerate, H2|].
  simpl. apply Qltb_lt in Hd. rewrite Hd. left. reflexivity.
Qed.

(** The candidates of the broad phase, for any stored residues and
    nitrogen coordinates. *)
Lemma candidates_cover_accepted_pairs (d : Q) (k k2 : nat) (c1 c2 : list vec3)
  (r1 r2 : residue) (n1 n2 : vec3) (a1 a2 : atom) :
  0 < d ->
  nth_error c1 k = Some n1 -> nth_error c2 k2 = Some n2 ->
  atoms_near n1 r1 -> atoms_near n2 r2 ->
  In a1 (atoms r1) -> In a2 (atoms r2) ->
  dist2 (xyz a1) (xyz a2) < d * d ->
  In (k, k2) (index_pairs ((d + 20) * (d + 20)) c1 c2).
Proof.
  intros Hd Hn1 Hn2 Hr1 Hr2 H1 H2 Hacc.
  eapply in_index_pairs; [exact Hn1 | exact Hn2 |].
  apply (@relaxed_cutoff_margin n1 (xyz a1) (xyz a2) n2 d Hd);
    [apply Hr1, H1 | apply Hr2, H2 | exact Hacc].
Qed.

Lemma aligned_residue (st : parse_state) (i k : nat) (res : list residue)
  (r : residue) :
  aligned st ->
  nth_error (residues st) i = Some res -> nth_error res k = Some r ->
  atoms_near_nitrogen r ->
  exists c n, nth_error (N_coords st) i = Some c /\ nth_error c k = Some n /\
              atoms_near n r.
Proof.
  intros Hal Hi Hk Hr.
  destruct (@Forall2_nth_error _ _ _ _ _ i res Hal Hi) as (c & Hc & Hrc).
  destruct (@Forall2_nth_error _ _ _ _ _ k r Hrc Hk) as (n & Hn & a & rest & Ea & <-).
  exists c, (xyz a). split; [exact Hc|]. split; [exact Hn|].
  apply Hr. rewrite Ea. reflexivity.
Qed.

(** C3 (as amended).  In a parsed structure take residue [k] of chain [i]
    and residue [k2] of chain [i2], and any cutoff [d > 0].  If every
    atom of each of the two residues is within 10 A of the residue's
    backbone nitrogen (its first atom), and the narrow phase accepts the
    pair (the minimum squared distance over all pairs of their atoms is
    below [d * d]: two of their atoms are that close), then the pair is
    among the candidates that the broad phase finds for the two chains
    with the cutoff [(d + 20)^2]. *)
Theorem relaxed_cutoff_keeps_contacts (min_plddt : Q) (valid_aas : string)
  (lines : list pdb_line) (st : parse_state) (d : Q) (i i2 k k2 : nat)
  (res1 res2 : list residue) (r1 r2 : residue) :
  parse_structure min_plddt valid_aas lines = Ok st ->
  0 < d ->
  nth_error (residues st) i = Some res1 -> nth_error res1 k = Some r1 ->
  nth_error (residues st) i2 = Some res2 -> nth_error res2 k2 = Some r2 ->
  atoms_near_nitrogen r1 -> atoms_near_nitrogen r2 ->
  (exists a1 a2, In a1 (atoms r1) /\ In a2 (atoms r2) /\
                 dist2 (xyz a1) (xyz a2) < d * d) ->
  exists c1 c2,
    nth_error (N_coords st) i = Some c1 /\
    nth_error (N_coords st) i2 = Some c2 /\
    In (k, k2) (index_pairs ((d + 20) * (d + 20)) c1 c2).
Proof.
  intros Hp Hd Hi Hk Hi2 Hk2 Hr1 Hr2 (a1 & a2 & H1 & H2 & Hacc).
  pose proof (@parse_structure_aligned min_plddt valid_aas lines st Hp) as Hal.
  destruct (@aligned_residue st i k res1 r1 Hal Hi Hk Hr1) as (c1 & n1 & Hc1 & Hn1 & Ha1).
  destruct (@aligned_residue st i2 k2 res2 r2 Hal Hi2 Hk2 Hr2) as (c2 & n2 & Hc2 & Hn2 & Ha2).
  exists c1, c2. split; [exact Hc1|]. split; [exact Hc2|].
  exact (@candidates_cover_accepted_pairs d k k2 c1 c2 r1 r2 n1 n2 a1 a2
           Hd Hn1 Hn2 Ha1 Ha2 H1 H2 Hacc).
Qed.

Example near_state_residues :
  residues near_state = [[near_residue_A]; [near_residue_B]].
Proof. reflexivity. Qed.

(** The theorem on the two glycines 3 A apart, with the cutoff 8. *)
Lemma relaxed_cutoff_keeps_contacts_witness :
  exists c1 c2,
    nth_error (N_coords near_state) 0 = Some c1 /\
    nth_error (N_coords near_state) 1 = Some c2 /\
    In (0%nat, 0%nat) (index_pairs ((8 + 20) * (8 + 20)) c1 c2).
Proof.
  apply (@relaxed_cutoff_keeps_contacts 50 ""%string near_lines near_state 8
           0 1 0 0 [near_residue_A] [near_residue_B]
           near_residue_A near_residue_B).
  - vm_compute. reflexivity.
  - reflexivity.
  - reflexivity.
  - reflexivity.
  - reflexivity.
  - reflexivity.
  - intros n Hn. injection Hn as <-.
    intros a [<-|[<-|[]]]; vm_compute; discriminate.
  - intros n Hn. injection Hn as <-.
    intros a [<-|[<-|[]]]; vm_compute; discriminate.
  - exists {| atom_type := "CA"; xyz := (1, 0, 0) |},
           {| atom_type := "N"; xyz := (3, 0, 0) |}.
    split; [right; left; reflexivity|].
    split; [left; reflexivity | reflexivity].
Defined.

(** The same for the contacts that the code records: a pair of residues
    near their nitrogens for which the narrow phase records a contact is
    a candidate of the broad phase, for any cutoff [d > 0]. *)
Lemma recorded_contacts_are_candidates (min_plddt : Q) (valid_aas : string)
  (lines : list pdb_line) (st : parse_state) (d : Q) (i i2 k k2 : nat)
  (res1 res2 : list residue) (r1 r2 : residue) :
  parse_structure min_plddt valid_aas lines = Ok st ->
  0 < d ->
  nth_error (residues st) i = Some res1 -> nth_error res1 k = Some r1 ->
  nth_error (residues st) i2 = Some res2 -> nth_error res2 k2 = Some r2 ->
  atoms_near_nitrogen r1 -> atoms_near_nitrogen r2 ->
  accepted_contact (d * d) r1 r2 <> [] ->
  exists c1 c2,
    nth_error (N_coords st) i = Some c1 /\
    nth_error (N_coords st) i2 = Some c2 /\
    In (k, k2) (index_pairs ((d + 20) * (d + 20)) c1 c2).
Proof.
  intros Hp Hd Hi Hk Hi2 Hk2 Hr1 Hr2 Hacc.
  destruct (@accepted_contact_has_a_close_pair (d * d) r1 r2 Hacc)
    as (a1 & a2 & H1 & H2 & Hclose).
  pose proof (@parse_structure_aligned min_plddt valid_aas lines st Hp) as Hal.
  destruct (@aligned_residue st i k res1 r1 Hal Hi Hk Hr1) as (c1 & n1 & Hc1 & Hn1 & Ha1).
  destruct (@aligned_residue st i2 k2 res2 r2 Hal Hi2 Hk2 Hr2) as (c2 & n2 & Hc2 & Hn2 & Ha2).
  exists c1, c2. split; [exact Hc1|]. split; [exact Hc2|].
  exact (@candidates_cover_accepted_pairs d k k2 c1 c2 r1 r2 n1 n2 a1 a2
           Hd Hn1 Hn2 Ha1 Ha2 H1 H2 Hclose).
Qed.

(** C3 as stated fails.  The residue of chain A has an atom 100 A away
    from its nitrogen, at the place of the nitrogen of the residue of
    chain B: the narrow phase accepts the pair for the cutoff 8 (the
    closest atoms are at distance 0), the nitrogens are 100 A apart, the
    broad phase finds no candidate, and no contact is returned. *)
Lemma broad_phase_prunes_a_contact :
  exists rA rB cA cB,
    parse_structure 50 "" stretched_lines = Ok stretched_state /\
    residues stretched_state = [[rA]; [rB]] /\
    N_coords stretched_state = [cA; cB] /\
    (exists a1 a2, In a1 (atoms rA) /\ In a2 (atoms rB) /\
                   dist2 (xyz a1) (xyz a2) < 8 * 8) /\
    fst (get_closest_atoms rA rB) < 8 * 8 /\
    index_pairs ((8 + 20) * (8 + 20)) cA cB = [] /\
    find_contacts 8 false stretched_state = Ok [].
Proof.
  do 4 eexists.
  split; [vm_compute; reflexivity|].
  split; [reflexivity|].
  split; [reflexivity|].
  split.
  { exists {| atom_type := "CA"; xyz := (100, 0, 0) |},
           {| atom_type := "N"; xyz := (100, 0, 0) |}.
    split; [right; left; reflexivity|].
    split; [left; reflexivity | reflexivity]. }
  split; [reflexivity|].
  split; reflexivity.
Qed.

(** ** The pDockQ curve *)

Section Curve.
Local Open Scope R_scope.

Lemma exp_le_mono (x y : R) : x <= y -> exp x <= exp y.
Proof.
  intros [H| ->]; [left; apply exp_increasing, H | right; reflexivity].
Qed.

Lemma ln_le_mono (x y : R) : 0 < x -> x <= y -> ln x <= ln y.
Proof.
  intros Hx [H| ->]; [left; apply ln_increasing; assumption | right; reflexivity].
Qed.

Lemma ln_10_pos : 0 < ln 10.
Proof. rewrite <- ln_1. apply ln_increasing; lra. Qed.

Lemma log10_nonneg (n : nat) : (1 <= n)%nat -> 0 <= log10 (INR n).
Proof.
  intros H. unfold log10.
  assert (1 <= INR n) as Hn by (apply (le_INR 1 n), H).
  assert (0 <= ln (INR n)) as Hl.
  { rewrite <- ln_1. apply ln_le_mono; lra. }
  pose proof ln_10_pos as H10.
  apply Rmult_le_pos; [exact Hl|]. left. apply Rinv_0_lt_compat, H10.
Qed.

Lemma log10_mono (n1 n2 : nat) :
  (1 <= n1)%nat -> (n1 <= n2)%nat -> log10 (INR n1) <= log10 (INR n2).
Proof.
  intros H1 H2. unfold log10.
  assert (1 <= INR n1) as Hn by (apply (le_INR 1 n1), H1).
  assert (INR n1 <= INR n2) as Hle by (apply le_INR, H2).
  assert (ln (INR n1) <= ln (INR n2)) as Hl by (apply ln_le_mono; lra).
  pose proof ln_10_pos as H10.
  apply Rmult_le_compat_r; [|exact Hl]. left. apply Rinv_0_lt_compat, H10.
Qed.

Lemma pdockq_curve_logistic (avg : R) (n : nat) :
  pdockq_curve avg n = logistic (avg * log10 (INR n)).
Proof. reflexivity. Qed.

Lemma logistic_mono (x y : R) : x <= y -> logistic x <= logistic y.
Proof.
  intros H. unfold logistic.
  pose proof (exp_pos (- 0.052 * (x - 152.611))) as Px.
  pose proof (exp_pos (- 0.052 * (y - 152.611))) as Py.
  assert (exp (- 0.052 * (y - 152.611)) <= exp (- 0.052 * (x - 152.611)))
    as He by (apply exp_le_mono; lra).
  apply Rplus_le_compat_r. unfold Rdiv.
  apply Rmult_le_compat_l; [lra|].
  apply Rinv_le_contravar; lra.
Qed.

Lemma logistic_bounds (x : R) : 0.018 < logistic x < 0.742.
Proof.
  unfold logistic.
  pose proof (exp_pos (- 0.052 * (x - 152.611))) as Px.
  set (e := exp (- 0.052 * (x - 152.611))) in *.
  assert (0 < / (1 + e)) as Hi by (apply Rinv_0_lt_compat; lra).
  assert (/ (1 + e) < 1) as Hi1.
  { rewrite <- Rinv_1 at 2. apply Rinv_lt_contravar; lra. }
  unfold Rdiv. split; nra.
Qed.

End Curve.

(** C4.  For a fixed number of contacts [n >= 1] the score does not
    decrease when the average confidence grows; for a fixed average
    confidence [avg >= 0] it does not decrease when the number of contacts
    grows; and for every [n >= 1] it is at least 0.018 and below 0.742.
    The score that [pdockq_of_table] returns for two chains with at least
    one contact is a value of the curve, so it lies in the same range. *)
Theorem pdockq_curve_monotone_and_bounded :
  (forall (n : nat) (avg1 avg2 : R),
     (1 <= n)%nat -> (avg1 <= avg2)%R ->
     (pdockq_curve avg1 n <= pdockq_curve avg2 n)%R) /\
  (forall (avg : R) (n1 n2 : nat),
     (0 <= avg)%R -> (1 <= n1)%nat -> (n1 <= n2)%nat ->
     (pdockq_curve avg n1 <= pdockq_curve avg n2)%R) /\
  (forall (avg : R) (n : nat),
     (1 <= n)%nat ->
     (0.018 <= pdockq_curve avg n < 0.742)%R) /\
  (forall ch1 ch2 coords1 coords2 plddt1 plddt2,
     pdockq_contacts coords1 coords2 <> [] ->
     exists score,
       pdockq_of_table [(ch1, (coords1, plddt1)); (ch2, (coords2, plddt2))]
       = Ok score /\
       (0.018 <= score < 0.742)%R).
Proof.
  split; [|split; [|split]].
  - intros n a1 a2 Hn Ha. rewrite !pdockq_curve_logistic.
    apply logistic_mono. apply Rmult_le_compat_r; [|exact Ha].
    apply log10_nonneg, Hn.
  - intros avg n1 n2 Ha H1 H2. rewrite !pdockq_curve_logistic.
    apply logistic_mono. apply Rmult_le_compat_l; [exact Ha|].
    apply log10_mono; assumption.
  - intros avg n _. rewrite pdockq_curve_logistic.
    pose proof (logistic_bounds (avg * log10 (INR n))) as [H1 H2].
    split; [left; exact H1 | exact H2].
  - intros ch1 ch2 coords1 coords2 plddt1 plddt2 Hc.
    unfold pdockq_of_table.
    destruct (pdockq_contacts coords1 coords2) as [|c cs] eqn:E;
      [congruence|].
    eexists. split; [reflexivity|].
    rewrite pdockq_curve_logistic.
    match goal with
    | |- (_ <= logistic ?x < _)%R =>
        pose proof (logistic_bounds x) as [H1 H2]
    end.
    split; [left; exact H1 | exact H2].
Qed.

(** The theorem at average confidences 50 and 90 with 10 contacts, at 10
    and 100 contacts with average confidence 90, and on two chains with
    one pair of representative atoms 3 A apart. *)
Lemma pdockq_curve_monotone_and_bounded_witness :
  (pdockq_curve 50 10 <= pdockq_curve 90 10)%R /\
  (pdockq_curve 90 10 <= pdockq_curve 90 100)%R /\
  (0.018 <= pdockq_curve 90 10 < 0.742)%R /\
  (exists score,
     pdockq_of_table
       [("A"%string, ([(0, 0, 0)], [90])); ("B"%string, ([(3, 0, 0)], [90]))]
     = Ok score /\
     (0.018 <= score < 0.742)%R).
Proof.
  destruct pdockq_curve_monotone_and_bounded as [H1 [H2 [H3 H4]]].
  split; [|split; [|split]].
  - apply H1; [lia | lra].
  - apply H2; [lra | lia | lia].
  - apply H3. lia.
  - apply H4. vm_compute. discriminate.
Defined.

(** ** The score of the sample models *)

Section SampleScore.
Local Open Scope R_scope.

Lemma exp_double (y : R) : exp (2 * y) = exp y * exp y.
Proof. replace (2 * y) with (y + y) by ring. apply exp_plus. Qed.

(** [exp(0.052 * 152.611)] by six doublings of [exp(y) >= 1 + y]. *)
Lemma exp_midpoint_large : 1447 < exp (0.052 * 152.611).
Proof.
  set (y := 0.052 * 152.611 / 64).
  assert (1.1239 <= exp y) as H0.
  { pose proof (exp_ineq1_le y). unfold y in *. lra. }
  assert (1.263 <= exp (2 * y)) as H1 by (rewrite exp_double; nra).
  assert (1.595 <= exp (2 * (2 * y))) as H2 by (rewrite exp_double; nra).
  assert (2.544 <= exp (2 * (2 * (2 * y)))) as H3
    by (rewrite exp_double; nra).
  assert (6.47 <= exp (2 * (2 * (2 * (2 * y))))) as H4
    by (rewrite exp_double; nra).
  assert (41.8 <= exp (2 * (2 * (2 * (2 * (2 * y)))))) as H5
    by (rewrite exp_double; nra).
  assert (1747 <= exp (2 * (2 * (2 * (2 * (2 * (2 * y))))))) as H6
    by (rewrite exp_double; nra).
  replace (0.052 * 152.611) with (2 * (2 * (2 * (2 * (2 * (2 * y))))))
    by (unfold y; field).
  lra.
Qed.

(** With one contact the logarithm is 0 and the score is the value of the
    curve at 0, whatever the average confidence: 0.018 after rounding to
    three decimals. *)
Lemma pdockq_curve_one_contact (avg : R) :
  0.018 < pdockq_curve avg 1 < 0.0185.
Proof.
  unfold pdockq_curve, log10. rewrite INR_1, ln_1.
  replace (avg * (0 / ln 10)) with 0
    by (unfold Rdiv; rewrite Rmult_0_l, Rmult_0_r; reflexivity).
  replace (- 0.052 * (0 - 152.611)) with (0.052 * 152.611) by lra.
  pose proof exp_midpoint_large as He.
  set (e := exp (0.052 * 152.611)) in *.
  assert (0 < / (1 + e)) as Hp by (apply Rinv_0_lt_compat; lra).
  assert (/ (1 + e) < / 1448) as Hi by (apply Rinv_lt_contravar; lra).
  replace (0.724 / (1 + e)) with (0.724 * / (1 + e)) by reflexivity.
  split; lra.
Qed.

End SampleScore.

Example near_lines_table :
  fold_left (pdockq_line ["A"; "B"]%string) near_lines []
  = [("A"%string, ([(1, 0, 0)], [90])); ("B"%string, ([(4, 0, 0)], [90]))].
Proof. reflexivity. Qed.

Example near_lines_2_table :
  fold_left (pdockq_line ["A"; "B"]%string) near_lines_2 []
  = [("A"%string, ([(1, 0, 0)], [90])); ("B"%string, ([(6, 0, 0)], [90]))].
Proof. reflexivity. Qed.

(** Both sample models have one pair of representative atoms in contact,
    so the scorer returns a value that rounds to 0.018 for each: the
    value that [sample_pdockq] gives them. *)
Lemma sample_models_score :
  (exists v, get_pdockq_elofsson sample_pdb_files "a_b_model_1.pdb"
               ["A"; "B"]%string = Ok v /\ (0.018 < v < 0.0185)%R) /\
  (exists v, get_pdockq_elofsson sample_pdb_files "a_b_model_2.pdb"
               ["A"; "B"]%string = Ok v /\ (0.018 < v < 0.0185)%R).
Proof.
  split; eexists; (split; [|apply pdockq_curve_one_contact]).
  - unfold get_pdockq_elofsson.
    change (sample_pdb_files "a_b_model_1.pdb") with (Ok near_lines).
    cbn [bind]. rewrite near_lines_table. reflexivity.
  - unfold get_pdockq_elofsson.
    change (sample_pdb_files "a_b_model_2.pdb") with (Ok near_lines_2).
    cbn [bind]. rewrite near_lines_2_table. reflexivity.
Qed.

(** ** The per-model averages and the best model *)

(** The three averages of a model are its totals divided by the number
    of its chains. *)
Lemma model_if_stats_divisor
  (pdockq_rounded : string -> list string -> result Q) (pdb_filename : string)
  (contacts : dict (dict contact_entry)) (chain_list chain_list_lbl : list string)
  (total : Q) (st : if_stats) :
  model_if_stats pdockq_rounded pdb_filename contacts chain_list chain_list_lbl
  = Ok (total, st) ->
  (0 < length chain_list)%nat /\
  model_all_avg_pdockq st = total / inject_Z (Z.of_nat (length chain_list)).
Proof.
  unfold model_if_stats. intros H.
  match type of H with
  | (acc <- ?f ;; _) = _ => destruct f as [acc|]; [|discriminate]
  end.
  cbn [bind] in H. unfold div_by_len in H.
  destruct (Nat.eqb_spec (length chain_list) 0) as [E|E]; [discriminate|].
  cbn [bind] in H. injection H as <- <-. simpl. split; [lia | reflexivity].
Qed.

(** The kept model is replaced exactly when the total of the new model
    exceeds the average of the kept one. *)
Lemma update_best_rule (b : best_stats) (total : Q) (stats : if_stats)
  (model_num : Z) :
  (model_all_avg_pdockq (fst b) < total ->
   update_best (Some b) total stats model_num = Some (stats, model_num)) /\
  (total <= model_all_avg_pdockq (fst b) ->
   update_best (Some b) total stats model_num = Some b).
Proof.
  unfold update_best. split; intros H.
  - apply Qltb_lt in H. rewrite H. reflexivity.
  - destruct (Qltb (model_all_avg_pdockq (fst b)) total) eqn:E; [|reflexivity].
    apply Qltb_lt in E. exfalso. exact (Qlt_not_le _ _ E H).
Qed.

(** C2, the code at a failing input.  The first sample model has two
    chains and therefore one chain pair, with score 0.018, average
    confidence 90 and no matrix (error 0).  The three totals are divided
    by the number of chains, 2: the code reports 0.009 and 45 where the
    means over the chain pairs are 0.018 and 90. *)
Theorem model_averages_divide_by_chain_count :
  exists contacts total st pair,
    get_contacts sample_pdb_files sample_pae_files "a_b_model_1.pdb" ""
      8 50 15 "min" "" = Ok contacts /\
    model_if_stats sample_pdockq "a_b_model_1.pdb" contacts
      ["A"; "B"]%string ["a"; "b"]%string = Ok (total, st) /\
    pair_entries st = [("a:b"%string, pair)] /\
    ps_pdockq pair == 18 # 1000 /\
    snd (fst (plddt_stats (ps_interface pair))) == 90 /\
    snd (fst (pae_stats (ps_interface pair))) == 0 /\
    total == 18 # 1000 /\
    model_all_avg_pdockq st == 9 # 1000 /\
    model_all_avg_plddt st == 45 /\
    model_all_avg_pae st == 0.
Proof.
  do 4 eexists.
  split; [vm_compute; reflexivity|].
  split; [vm_compute; reflexivity|].
  split; [reflexivity|].
  repeat split; reflexivity.
Qed.

(** C1, the code at two failing inputs.  A complex of two chains with two
    models.  The two sample models have the same score 0.018, so their
    averages tie at 0.009, and the code reports model 2, not the first
    one: the total 0.018 of model 2 is compared with the average 0.009
    kept for model 1.  With scores 0.6 and 0.4 the averages are 0.3 and
    0.2, and the code reports model 2, whose average is the lower one. *)
Theorem best_model_compares_total_with_average :
  (exists s st1 st2,
     analyze_complex sample_pdb_files sample_pae_files sample_pdockq "a_b"
       ["a_b_model_1.pdb"; "a_b_model_2.pdb"]%string [] 8 50 15 "min" "" true
     = Ok (Some s) /\
     all_interface_stats s = [(1%Z, st1); (2%Z, st2)] /\
     model_all_avg_pdockq st1 == 9 # 1000 /\
     model_all_avg_pdockq st2 == 9 # 1000 /\
     best_model_num s = 2%Z) /\
  (exists s st1 st2,
     analyze_complex sample_pdb_files sample_pae_files larger_pdockq "a_b"
       ["a_b_model_1.pdb"; "a_b_model_2.pdb"]%string [] 8 50 15 "min" "" true
     = Ok (Some s) /\
     all_interface_stats s = [(1%Z, st1); (2%Z, st2)] /\
     model_all_avg_pdockq st1 == 3 # 10 /\
     model_all_avg_pdockq st2 == 2 # 10 /\
     best_model_num s = 2%Z).
Proof.
  split; do 3 eexists;
    (split; [vm_compute; reflexivity|]);
    (split; [reflexivity|]);
    repeat split; reflexivity.
Qed.
(** ** [get_closest_atoms] returns the minimum *)

Lemma Qltb_ge (x y : Q) : Qltb x y = false <-> y <= x.
Proof.
  unfold Qltb. rewrite negb_false_iff. apply Qle_bool_iff.
Qed.

(** The pairs of atoms in the order in which the two loops visit them. *)
Lemma closest_fold_pairs (l1 l2 : list atom) (acc : Q * option (atom * atom)) :
  fold_left
    (fun acc a1 => fold_left (fun acc a2 => closest_step a1 a2 acc) l2 acc)
    l1 acc
  = fold_left (fun acc p => closest_step (fst p) (snd p) acc)
      (list_prod l1 l2) acc.
Proof.
  revert acc. induction l1 as [|a1 l1 IH]; intros acc; [reflexivity|].
  simpl. rewrite fold_left_app, <- IH. f_equal.
  clear IH. revert acc. induction l2 as [|a2 l2 IH2]; intros acc;
    [reflexivity|].
  simpl. apply IH2.
Qed.

Lemma closest_fold_ok (rest seen : list (atom * atom))
  (acc : Q * option (atom * atom)) :
  closest_ok seen acc ->
  closest_ok (seen ++ rest)
    (fold_left (fun acc p => closest_step (fst p) (snd p) acc) rest acc).
Proof.
  revert seen acc. induction rest as [|p rest IH]; intros seen acc H.
  - rewrite app_nil_r. exact H.
  - simpl. replace (seen ++ p :: rest) with ((seen ++ [p]) ++ rest)
      by (rewrite <- app_assoc; reflexivity).
    apply IH. destruct H as (Hall & Hinit & Hc).
    unfold closest_step.
    destruct (Qltb (dist2 (xyz (fst p)) (xyz (snd p))) (fst acc)) eqn:E.
    + apply Qltb_lt in E. split; [|split]; simpl.
      * intros q Hq. apply in_app_or in Hq. destruct Hq as [Hq|[<-|[]]].
        -- apply Qle_trans with (fst acc); [apply Qlt_le_weak, E|].
           apply Hall, Hq.
        -- apply Qle_refl.
      * apply Qle_trans with (fst acc); [apply Qlt_le_weak, E | exact Hinit].
      * destruct p as [a1 a2]. simpl in *. split; [|split].
        -- apply in_or_app. right. left. reflexivity.
        -- reflexivity.
        -- apply Qlt_le_trans with (fst acc); assumption.
    + apply Qltb_ge in E. split; [|split].
      * intros q Hq. apply in_app_or in Hq. destruct Hq as [Hq|[<-|[]]].
        -- apply Hall, Hq.
        -- exact E.
      * exact Hinit.
      * destruct (snd acc) as [q|]; [|exact Hc].
        destruct Hc as (Hq & Hd & Hlt). split; [|split]; try assumption.
        apply in_or_app. left. exact Hq.
Qed.

Lemma get_closest_atoms_ok (r1 r2 : residue) :
  closest_ok (list_prod (atoms r1) (atoms r2)) (get_closest_atoms r1 r2).
Proof.
  unfold get_closest_atoms. rewrite closest_fold_pairs.
  apply (closest_fold_ok _ (seen := [])).
  split; [intros p []|]. split; [apply Qle_refl | reflexivity].
Qed.

(** X1.  The squared distance that [get_closest_atoms] returns is a
    lower bound of the squared distance of every pair of atoms of the
    two residues, and it is never above the starting value 1e6.  When a
    pair is returned, its atoms belong to the two residues, the distance
    is that of the pair and it is below 1e6; when none is returned, the
    distance is 1e6 and no pair of atoms is closer than that. *)
Theorem get_closest_atoms_minimum (r1 r2 : residue) :
  (forall a1 a2, In a1 (atoms r1) -> In a2 (atoms r2) ->
     fst (get_closest_atoms r1 r2) <= dist2 (xyz a1) (xyz a2)) /\
  fst (get_closest_atoms r1 r2) <= 1000000 /\
  match snd (get_closest_atoms r1 r2) with
  | Some (a1, a2) =>
      In a1 (atoms r1) /\ In a2 (atoms r2) /\
      fst (get_closest_atoms r1 r2) = dist2 (xyz a1) (xyz a2) /\
      fst (get_closest_atoms r1 r2) < 1000000
  | None =>
      fst (get_closest_atoms r1 r2) = 1000000 /\
      forall a1 a2, In a1 (atoms r1) -> In a2 (atoms r2) ->
        1000000 <= dist2 (xyz a1) (xyz a2)
  end.
Proof.
  destruct (get_closest_atoms_ok r1 r2) as (Hall & Hinit & Hc).
  assert (forall a1 a2, In a1 (atoms r1) -> In a2 (atoms r2) ->
            fst (get_closest_atoms r1 r2) <= dist2 (xyz a1) (xyz a2)) as Hmin.
  { intros a1 a2 H1 H2. apply (Hall (a1, a2)). apply in_prod; assumption. }
  split; [exact Hmin|]. split; [exact Hinit|].
  destruct (snd (get_closest_atoms r1 r2)) as [[a1 a2]|].
  - destruct Hc as (Hin & Hd & Hlt). apply in_prod_iff in Hin.
    destruct Hin as [H1 H2]. auto.
  - split; [exact Hc|]. intros a1 a2 H1 H2.
    change 1000000 with min_d2_init. rewrite <- Hc. apply Hmin; assumption.
Qed.

Lemma dist2_sym (v1 v2 : vec3) : dist2 v1 v2 == dist2 v2 v1.
Proof.
  destruct v1 as [[x1 y1] z1], v2 as [[x2 y2] z2]. unfold dist2. ring.
Qed.

(** X2.  The smallest squared distance between two residues does not
    depend on the order in which the residues are given. *)
Theorem get_closest_atoms_symmetric (r1 r2 : residue) :
  fst (get_closest_atoms r1 r2) == fst (get_closest_atoms r2 r1).
Proof.
  assert (forall r r', fst (get_closest_atoms r r') <= fst (get_closest_atoms r' r))
    as Hle.
  { intros r r'.
    destruct (get_closest_atoms_ok r r') as (Hall & Hinit & _).
    destruct (get_closest_atoms_ok r' r) as (_ & _ & Hc).
    destruct (snd (get_closest_atoms r' r)) as [[a' a]|].
    - destruct Hc as (Hin & Hd & _). apply in_prod_iff in Hin.
      destruct Hin as [H1 H2]. simpl in Hd. rewrite Hd.
      rewrite dist2_sym. apply (Hall (a, a')). apply in_prod; assumption.
    - rewrite Hc. exact Hinit. }
  apply Qle_antisym; apply Hle.
Qed.

(** ** What one line does to the parsing state *)

Lemma same_chain_true (c : string) (last : option string) :
  same_chain c last = true <-> last = Some c.
Proof.
  destruct last as [c'|]; simpl; [|split; discriminate].
  rewrite String.eqb_eq. split; [intros ->; reflexivity | intros H; congruence].
Qed.

Lemma append_atom_cases (a : atom) (rs rs' : list (list residue)) :
  append_atom a rs = Ok rs' ->
  (exists rs0, rs = rs0 ++ [[]] /\ rs' = rs) \/
  (exists rs0 c0 r, rs = rs0 ++ [c0 ++ [r]] /\
                    rs' = rs0 ++ [c0 ++ [add_atom a r]]).
Proof.
  intros H.
  destruct (last_cases rs) as [->|(rs0 & c & ->)]; [discriminate|].
  destruct (last_cases c) as [->|(c0 & r & ->)].
  - rewrite append_atom_empty_chain in H. injection H as <-. left. eauto.
  - rewrite append_atom_snoc in H. injection H as <-. right. eauto 6.
Qed.

Lemma add_atom_new (l : pdb_line) (abs : Z) (aa : ascii) :
  add_atom (atom_from_pdb_line l)
    {| chain := l_chain l; atoms := []; c_ix := l_res_seq l; a_ix := abs;
       aa_type := aa; plddt := l_bfactor l |}
  = new_residue l abs aa.
Proof. reflexivity. Qed.

Lemma parse_line_cases (min_plddt : Q) (valid_aas : string)
  (st st' : parse_state) (l : pdb_line) :
  Forall (fun c => c <> []) (residues st) ->
  length (residues st) = length (N_coords st) ->
  parse_line min_plddt valid_aas st l = Ok st' ->
  line_effect min_plddt valid_aas l st st'.
Proof.
  intros Hne Hlen H. unfold parse_line in H.
  destruct (is_atom_record l) eqn:Eatom; simpl in H.
  2:{ injection H as <-. apply effect_skip; try reflexivity. lia. }
  destruct (Qltb (l_bfactor l) min_plddt) eqn:Eb.
  { injection H as <-. apply effect_skip; try reflexivity. simpl.
    destruct (is_nitrogen l); lia. }
  apply Qltb_ge in Eb.
  destruct (aa_3c_to_1c (l_res_name l)) as [aa|] eqn:Eaa; [|discriminate].
  destruct ((0 <? String.length valid_aas)%nat && negb (char_in aa valid_aas))
    eqn:Ev.
  { injection H as <-. apply effect_skip; try reflexivity. simpl.
    destruct (is_nitrogen l); lia. }
  assert (passes min_plddt valid_aas l aa) as Hp.
  { split; [exact Eatom|]. split; [exact Eb|]. split; [exact Eaa|].
    intros Hv. apply Nat.ltb_lt in Hv. rewrite Hv in Ev. simpl in Ev.
    apply negb_false_iff in Ev. exact Ev. }
  destruct (is_nitrogen l) eqn:En; simpl in H.
  - match type of H with
    | (rs <- append_atom ?a ?rs0 ;; _) = _ =>
        destruct (append_atom a rs0) as [rs'|] eqn:Eap; [|discriminate]
    end.
    simpl in H. injection H as <-.
    destruct (same_chain (l_chain l) (last_chain st)) eqn:Es; simpl in *.
    + apply same_chain_true in Es.
      destruct (last_cases (residues st)) as [E|(rs0 & c & E)].
      { rewrite E in Eap. discriminate. }
      assert (exists ns0 cn, N_coords st = ns0 ++ [cn]) as (ns0 & cn & En').
      { destruct (last_cases (N_coords st)) as [E'|E']; [|exact E'].
        rewrite E, E', length_app in Hlen. simpl in Hlen. lia. }
      rewrite E, push_last_snoc, append_atom_snoc in Eap.
      injection Eap as <-. rewrite add_atom_new.
      eapply effect_residue with (aa := aa); simpl; eauto.
      rewrite En', push_last_snoc. reflexivity.
    + assert (last_chain st <> Some (l_chain l)) as Hn.
      { intros E. apply same_chain_true in E. congruence. }
      rewrite push_last_snoc in Eap.
      rewrite append_atom_snoc in Eap.
      injection Eap as <-. rewrite add_atom_new.
      eapply effect_chain with (aa := aa); simpl; eauto.
      rewrite push_last_snoc. reflexivity.
  - match type of H with
    | (rs <- append_atom ?a ?rs0 ;; _) = _ =>
        destruct (append_atom a rs0) as [rs'|] eqn:Eap; [|discriminate]
    end.
    simpl in H. injection H as <-.
    destruct (append_atom_cases _ _ Eap) as [(rs0 & E & _)|(rs0 & c0 & r & E & E')].
    + exfalso. rewrite E in Hne. apply Forall_app in Hne.
      destruct Hne as [_ Hne]. inversion Hne; subst. congruence.
    + eapply effect_atom; simpl; eauto.
Qed.

(** ** What the parsing loop keeps true *)

Lemma concat_snoc {A : Type} (xs : list (list A)) (c : list A) :
  concat (xs ++ [c]) = concat xs ++ c.
Proof. rewrite concat_app. simpl. rewrite app_nil_r. reflexivity. Qed.

Lemma StronglySorted_snoc (l : list Z) (x : Z) :
  StronglySorted Z.lt l -> Forall (fun y => (y < x)%Z) l ->
  StronglySorted Z.lt (l ++ [x]).
Proof.
  induction l as [|y l IH]; intros Hs Hf; simpl.
  - repeat constructor.
  - inversion Hs; subst. inversion Hf; subst. constructor.
    + apply IH; assumption.
    + apply Forall_app. split; [assumption|]. repeat constructor. assumption.
Qed.

Lemma Forall2_snoc {A B : Type} (R : A -> B -> Prop) (l : list A) (l' : list B)
  (x : A) (y : B) :
  Forall2 R l l' -> R x y -> Forall2 R (l ++ [x]) (l' ++ [y]).
Proof. intros H Hxy. apply Forall2_app; [exact H|]. repeat constructor. exact Hxy. Qed.

Lemma Forall_one {A : Type} (P : A -> Prop) (x : A) : P x -> Forall P [x].
Proof. intros H. constructor; [exact H | constructor]. Qed.

Lemma kept_residue_mono (min_plddt : Q) (valid_aas : string) (abs abs' : Z)
  (r : residue) :
  (abs <= abs')%Z -> kept_residue min_plddt valid_aas abs r ->
  kept_residue min_plddt valid_aas abs' r.
Proof. unfold kept_residue. intros H (H1 & H2 & H3 & H4). repeat split; try tauto; lia. Qed.

Lemma kept_residue_add_atom (min_plddt : Q) (valid_aas : string) (abs : Z)
  (a : atom) (r : residue) :
  kept_residue min_plddt valid_aas abs r ->
  kept_residue min_plddt valid_aas abs (add_atom a r).
Proof.
  unfold kept_residue. simpl. intros (H1 & H2 & (a0 & rest & E & Ha) & H4).
  repeat split; try tauto. exists a0, (rest ++ [a]). rewrite E. auto.
Qed.

Lemma kept_residue_new (min_plddt : Q) (valid_aas : string) (l : pdb_line)
  (abs : Z) (aa : ascii) :
  is_nitrogen l = true -> passes min_plddt valid_aas l aa -> (1 <= abs)%Z ->
  kept_residue min_plddt valid_aas abs (new_residue l abs aa).
Proof.
  intros Hn (_ & Hb & _ & Hv) Ha. unfold kept_residue. simpl.
  repeat split; try assumption; try lia.
  exists (atom_from_pdb_line l), []. split; [reflexivity|].
  simpl. apply String.eqb_eq. exact Hn.
Qed.

Lemma Forall2_length_eq {A B : Type} (R : A -> B -> Prop) (l : list A)
  (l' : list B) : Forall2 R l l' -> length l = length l'.
Proof. induction 1; simpl; congruence. Qed.

Lemma parse_line_well_formed (min_plddt : Q) (valid_aas : string)
  (st st' : parse_state) (l : pdb_line) :
  well_formed min_plddt valid_aas st ->
  parse_line min_plddt valid_aas st l = Ok st' ->
  well_formed min_plddt valid_aas st'.
Proof.
  intros [Habs Hch Hco Hne Hlast Hadj Hres Hsort] H.
  apply parse_line_cases in H;
    [|exact Hne | exact (Forall2_length_eq Hco)].
  destruct H as [E1 E2 E3 E4 E5
                |rs0 c0 r Hn E1 E2 E4 E5 E3 E3'
                |rs0 c ns0 cn aa Hn Hp El El' E2 E5 E3 E4 E3' E4'
                |aa Hn Hp El El' E2 E5 E3' E4'].
  - (* nothing stored *)
    constructor; rewrite ?E1, ?E2, ?E3, ?E4; try assumption.
    + lia.
    + eapply Forall_impl; [|exact Hres]. intros r.
      apply kept_residue_mono. lia.
  - (* an atom joins the last residue *)
    rewrite E3 in *.
    constructor; rewrite ?E1, ?E2, ?E3', ?E4, ?E5; try assumption.
    + apply Forall2_app_inv_r in Hch.
      destruct Hch as (cs0 & cs1 & H0 & H1 & ->).
      inversion H1 as [|ch ? ? t Hc Ht]; subst. inversion Ht; subst.
      apply Forall2_snoc; [exact H0|].
      apply Forall_app in Hc. destruct Hc as [Hc0 Hr].
      apply Forall_app. split; [exact Hc0|].
      inversion Hr; subst. apply Forall_one. simpl. auto.
    + apply Forall2_app_inv_l in Hco.
      destruct Hco as (n0 & n1 & H0 & H1 & ->).
      inversion H1 as [|? cn ? t Hc Ht]; subst. inversion Ht; subst.
      apply Forall2_snoc; [exact H0|].
      rewrite length_app in *. exact Hc.
    + apply Forall_app in Hne. destruct Hne as [Hne0 _].
      apply Forall_app. split; [exact Hne0|]. apply Forall_one.
      destruct c0; discriminate.
    + rewrite concat_snoc, app_assoc in *.
      apply Forall_app in Hres. destruct Hres as [H0 Hr].
      apply Forall_app. split; [exact H0|].
      inversion Hr; subst. apply Forall_one.
      apply kept_residue_add_atom. assumption.
    + rewrite concat_snoc, app_assoc, map_app in *. exact Hsort.
  - (* a residue joins the last chain *)
    rewrite E3, E4 in *.
    assert (1 <= abs_res_index st')%Z as H1 by lia.
    constructor; rewrite ?El', ?E2, ?E3', ?E4'; try assumption; try lia.
    + apply Forall2_app_inv_r in Hch.
      destruct Hch as (cs0 & cs1 & H0 & Hc1 & E).
      inversion Hc1 as [|ch ? ? t Hc Ht]; subst. inversion Ht; subst.
      rewrite E. apply Forall2_snoc; [exact H0|].
      apply Forall_app. split; [exact Hc|]. apply Forall_one.
      simpl. destruct Hlast as [[Hl _]|(cs & c' & Hl & Hl')].
      * rewrite Hl in E. destruct cs0; discriminate.
      * rewrite E in Hl. apply app_inj_tail in Hl. destruct Hl as [_ ->].
        congruence.
    + apply Forall2_app_inv_l in Hco.
      destruct Hco as (n0 & n1 & H0 & Hc1 & E).
      inversion Hc1 as [|? cn' ? t Hc Ht]; subst. inversion Ht; subst.
      apply app_inj_tail in E. destruct E as [-> ->].
      apply Forall2_snoc; [exact H0|].
      rewrite !length_app. simpl. lia.
    + apply Forall_app in Hne. destruct Hne as [Hne0 _].
      apply Forall_app. split; [exact Hne0|]. apply Forall_one.
      destruct c; discriminate.
    + destruct Hlast as [[Hl Hl']|(cs & c' & Hl & Hl')]; [congruence|].
      right. exists cs, c'. split; [exact Hl | congruence].
    + rewrite concat_snoc, app_assoc, <- concat_snoc.
      apply Forall_app. split.
      * eapply Forall_impl; [|exact Hres]. intros r.
        apply kept_residue_mono. lia.
      * apply Forall_one. apply kept_residue_new; assumption.
    + rewrite concat_snoc, app_assoc, <- concat_snoc, map_app. simpl.
      apply StronglySorted_snoc; [exact Hsort|].
      apply Forall_map. eapply Forall_impl; [|exact Hres].
      intros r (_ & _ & _ & Hr). lia.
  - (* a chain begins *)
    assert (1 <= abs_res_index st')%Z as H1 by lia.
    constructor; rewrite ?El', ?E2, ?E3', ?E4'; try assumption; try lia.
    + apply Forall2_snoc; [exact Hch|]. apply Forall_one. reflexivity.
    + apply Forall2_snoc; [exact Hco|]. reflexivity.
    + apply Forall_app. split; [exact Hne|]. apply Forall_one. discriminate.
    + right. exists (chains st), (l_chain l). split; reflexivity.
    + intros cs1 c1 c2 cs2 E.
      destruct (last_cases cs2) as [->|(cs2' & x & ->)].
      * replace (cs1 ++ [c1; c2]) with ((cs1 ++ [c1]) ++ [c2]) in E
          by (rewrite <- app_assoc; reflexivity).
        apply app_inj_tail in E. destruct E as [E <-].
        destruct Hlast as [[Hl _]|(cs & c' & Hl & Hl')].
        -- rewrite Hl in E. destruct cs1; discriminate.
        -- rewrite Hl in E. apply app_inj_tail in E. destruct E as [_ <-].
           intros ->. apply El. exact Hl'.
      * replace (cs1 ++ c1 :: c2 :: cs2' ++ [x])
          with ((cs1 ++ c1 :: c2 :: cs2') ++ [x]) in E
          by (rewrite <- app_assoc; reflexivity).
        apply app_inj_tail in E. destruct E as [E _].
        apply (Hadj _ _ _ _ E).
    + rewrite concat_snoc. apply Forall_app. split.
      * eapply Forall_impl; [|exact Hres]. intros r.
        apply kept_residue_mono. lia.
      * apply Forall_one. apply kept_residue_new; assumption.
    + rewrite concat_snoc, map_app. simpl.
      apply StronglySorted_snoc; [exact Hsort|].
      apply Forall_map. eapply Forall_impl; [|exact Hres].
      intros r (_ & _ & _ & Hr). lia.
Qed.

Lemma foldM_invariant {S A : Type} (P : S -> Prop) (body : S -> A -> result S)
  (l : list A) (s s' : S) :
  (forall s a s', P s -> body s a = Ok s' -> P s') ->
  P s -> foldM body l s = Ok s' -> P s'.
Proof.
  intros Hb. revert s. induction l as [|a l IH]; intros s Hs H; simpl in H.
  - injection H as <-. exact Hs.
  - destruct (body s a) as [s1|] eqn:E; [|discriminate]. simpl in H.
    apply (IH s1); [|exact H]. eapply Hb; eassumption.
Qed.

Lemma parse_structure_well_formed (min_plddt : Q) (valid_aas : string)
  (lines : list pdb_line) (st : parse_state) :
  parse_structure min_plddt valid_aas lines = Ok st ->
  well_formed min_plddt valid_aas st.
Proof.
  unfold parse_structure. apply foldM_invariant.
  - intros s a s'. apply parse_line_well_formed.
  - constructor; simpl.
    + lia.
    + constructor.
    + constructor.
    + constructor.
    + left. split; reflexivity.
    + intros cs1 c1 c2 cs2 E. destruct cs1; discriminate.
    + constructor.
    + constructor.
Qed.

Lemma nth_error_adjacent {A : Type} (l : list A) (i : nat) (x y : A) :
  nth_error l i = Some x -> nth_error l (S i) = Some y ->
  exists l1 l2, l = l1 ++ x :: y :: l2.
Proof.
  revert i. induction l as [|a l IH]; intros [|i] Hx Hy; simpl in *;
    try discriminate.
  - injection Hx as ->. destruct l as [|b l]; [discriminate|].
    simpl in Hy. injection Hy as ->. exists [], l. reflexivity.
  - destruct (IH i Hx Hy) as (l1 & l2 & ->). exists (a :: l1), l2. reflexivity.
Qed.

Lemma in_concat_nth {A : Type} (xs : list (list A)) (i : nat) (c : list A)
  (x : A) : nth_error xs i = Some c -> In x c -> In x (concat xs).
Proof.
  intros Hi Hx. apply in_concat. exists c. split; [|exact Hx].
  eapply nth_error_In. exact Hi.
Qed.

(** X3.  After the parsing loop, [chains], [residues] and [N_coords]
    have the same length; the list of a chain is never empty, holds one
    nitrogen coordinate for each residue, and every residue in it
    carries the name of the chain; two chains that follow each other
    have different names. *)
Theorem parsed_chains_are_aligned (min_plddt : Q) (valid_aas : string)
  (lines : list pdb_line) (st : parse_state) :
  parse_structure min_plddt valid_aas lines = Ok st ->
  length (residues st) = length (chains st) /\
  length (N_coords st) = length (chains st) /\
  (forall i ch, nth_error (chains st) i = Some ch ->
     exists rs ns,
       nth_error (residues st) i = Some rs /\
       nth_error (N_coords st) i = Some ns /\
       rs <> [] /\ length ns = length rs /\
       forall r, In r rs -> chain r = ch) /\
  (forall i c1 c2,
     nth_error (chains st) i = Some c1 ->
     nth_error (chains st) (S i) = Some c2 -> c1 <> c2).
Proof.
  intros H. apply parse_structure_well_formed in H.
  destruct H as [_ Hch Hco Hne _ Hadj _ _].
  pose proof (Forall2_length_eq Hch) as L1.
  pose proof (Forall2_length_eq Hco) as L2.
  split; [lia|]. split; [lia|]. split.
  - intros i ch Hi.
    destruct (@Forall2_nth_error _ _ _ _ _ i ch Hch Hi) as (rs & Hrs & Hc).
    destruct (@Forall2_nth_error _ _ _ _ _ i rs Hco Hrs) as (ns & Hns & Hl).
    exists rs, ns. split; [exact Hrs|]. split; [exact Hns|].
    split; [|split; [symmetry; exact Hl|]].
    + rewrite Forall_forall in Hne. apply Hne.
      eapply nth_error_In. exact Hrs.
    + rewrite Forall_forall in Hc. exact Hc.
  - intros i c1 c2 H1 H2.
    destruct (nth_error_adjacent _ _ H1 H2) as (l1 & l2 & E).
    exact (Hadj _ _ _ _ E).
Qed.

(** X4.  A residue that the parsing loop stores has a confidence of at
    least [min_plddt], an amino acid of [valid_aas] when that
    restriction is given, and the backbone nitrogen as its first
    atom. *)
Theorem kept_residues_pass_the_filters (min_plddt : Q) (valid_aas : string)
  (lines : list pdb_line) (st : parse_state) (r : residue) :
  parse_structure min_plddt valid_aas lines = Ok st ->
  In r (concat (residues st)) ->
  min_plddt <= plddt r /\
  (valid_aas <> EmptyString -> char_in (aa_type r) valid_aas = true) /\
  exists a rest, atoms r = a :: rest /\ atom_type a = "N"%string.
Proof.
  intros H Hr. apply parse_structure_well_formed in H.
  destruct H as [_ _ _ _ _ _ Hres _].
  rewrite Forall_forall in Hres. destruct (Hres r Hr) as (H1 & H2 & H3 & _).
  split; [exact H1|]. split; [|exact H3].
  intros Hv. apply H2. destruct valid_aas; [congruence | simpl; lia].
Qed.

Lemma StronglySorted_lt_NoDup (l : list Z) :
  StronglySorted Z.lt l -> NoDup l.
Proof.
  induction 1 as [|x l Hs IH Hf]; constructor; [|exact IH].
  intros Hin. rewrite Forall_forall in Hf. specialize (Hf x Hin). lia.
Qed.

(** X5.  In file order, the absolute indices of the stored residues
    increase strictly, so no two stored residues share one; each lies
    between 1 and the number of nitrogen records of the file. *)
Theorem absolute_indices_increase (min_plddt : Q) (valid_aas : string)
  (lines : list pdb_line) (st : parse_state) :
  parse_structure min_plddt valid_aas lines = Ok st ->
  StronglySorted Z.lt (map a_ix (concat (residues st))) /\
  NoDup (map a_ix (concat (residues st))) /\
  forall r, In r (concat (residues st)) ->
    (1 <= a_ix r <= Z.of_nat (count_N lines))%Z.
Proof.
  intros H.
  pose proof (parse_structure_well_formed _ _ _ H) as [_ _ _ _ _ _ Hres Hs].
  assert (numbered [] parse_init) as H0.
  { split; [reflexivity|]. intros r []. }
  pose proof (foldM_parse_numbered _ _ _ H0 H) as [Habs _]. simpl in Habs.
  split; [exact Hs|]. split; [apply StronglySorted_lt_NoDup, Hs|].
  intros r Hr. rewrite Forall_forall in Hres.
  destruct (Hres r Hr) as (_ & _ & _ & Hi). lia.
Qed.

(** The theorem on the two chains of the first sample model. *)
Lemma parsed_chains_are_aligned_witness :
  length (residues near_state) = length (chains near_state) /\
  length (N_coords near_state) = length (chains near_state) /\
  (forall i ch, nth_error (chains near_state) i = Some ch ->
     exists rs ns,
       nth_error (residues near_state) i = Some rs /\
       nth_error (N_coords near_state) i = Some ns /\
       rs <> [] /\ length ns = length rs /\
       forall r, In r rs -> chain r = ch) /\
  (forall i c1 c2,
     nth_error (chains near_state) i = Some c1 ->
     nth_error (chains near_state) (S i) = Some c2 -> c1 <> c2).
Proof.
  apply (@parsed_chains_are_aligned 50 ""%string near_lines near_state).
  vm_compute. reflexivity.
Defined.

(** The theorem on the residue of chain A of the first sample model. *)
Lemma kept_residues_pass_the_filters_witness :
  50 <= plddt near_residue_A /\
  (EmptyString <> EmptyString ->
   char_in (aa_type near_residue_A) EmptyString = true) /\
  exists a rest, atoms near_residue_A = a :: rest /\
                 atom_type a = "N"%string.
Proof.
  apply (@kept_residues_pass_the_filters 50 ""%string near_lines near_state
           near_residue_A).
  - vm_compute. reflexivity.
  - vm_compute. left. reflexivity.
Defined.

(** The theorem on a chain whose first residue is dropped. *)
Lemma absolute_indices_increase_witness :
  StronglySorted Z.lt (map a_ix (concat (residues filtered_state))) /\
  NoDup (map a_ix (concat (residues filtered_state))) /\
  forall r, In r (concat (residues filtered_state)) ->
    (1 <= a_ix r <= Z.of_nat (count_N filtered_lines))%Z.
Proof.
  apply (@absolute_indices_increase 50 ""%string filtered_lines
           filtered_state).
  vm_compute. reflexivity.
Defined.

(** ** The loops of the search as comprehensions *)

Lemma foldM_appends {A B : Type} (body : list B -> A -> result (list B))
  (g : A -> list B) (l : list A) :
  (forall s a s', In a l -> body s a = Ok s' -> s' = s ++ g a) ->
  forall s s', foldM body l s = Ok s' -> s' = s ++ flat_map g l.
Proof.
  induction l as [|a l IH]; intros Hb s s' H; simpl in *.
  - injection H as <-. rewrite app_nil_r. reflexivity.
  - destruct (body s a) as [s1|] eqn:E; [|discriminate]. simpl in H.
    apply IH in H; [|intros; eapply Hb; eauto].
    rewrite H, (Hb s a s1 (or_introl eq_refl) E), <- app_assoc. reflexivity.
Qed.

Lemma foldM_total {S A : Type} (body : S -> A -> result S) (l : list A) :
  (forall s a, In a l -> exists s', body s a = Ok s') ->
  forall s, exists s', foldM body l s = Ok s'.
Proof.
  induction l as [|a l IH]; intros Hb s; simpl.
  - eauto.
  - destruct (Hb s a (or_introl eq_refl)) as [s1 ->]. simpl.
    apply IH. intros; apply Hb; right; assumption.
Qed.

Lemma nth_res_ok {A : Type} (l : list A) (i : nat) (x : A) :
  nth_res l i = Ok x <-> nth_error l i = Some x.
Proof.
  unfold nth_res. destruct (nth_error l i); split; intros H;
    try discriminate; congruence.
Qed.

Lemma narrow_step_appends (d2_cutoff : Q) (res1 res2 : list residue)
  (contacts out : list contact) (ix : nat * nat) :
  narrow_step d2_cutoff res1 res2 contacts ix = Ok out ->
  out = contacts ++ candidate_contacts d2_cutoff res1 res2 ix.
Proof.
  unfold narrow_step, candidate_contacts, accepted_contact, nth_res.
  destruct (nth_error res1 (fst ix)) as [r1|]; [|discriminate].
  destruct (nth_error res2 (snd ix)) as [r2|]; [|discriminate].
  simpl. destruct (get_closest_atoms r1 r2) as [m c]. simpl.
  destruct (Qltb m d2_cutoff).
  - destruct c as [[a1 a2]|]; [|discriminate]. intros H. injection H as <-.
    reflexivity.
  - intros H. injection H as <-. rewrite app_nil_r. reflexivity.
Qed.

Lemma chain_pair_step_appends (max_distance : Q) (st : parse_state)
  (i i2 : nat) (c1 : list vec3) (contacts out : list contact) :
  nth_error (N_coords st) i = Some c1 ->
  chain_pair_step ((max_distance + 20) * (max_distance + 20))
    (max_distance * max_distance) st i c1 contacts i2 = Ok out ->
  out = contacts ++ chain_pair_contacts max_distance st i i2.
Proof.
  intros Hc1. unfold chain_pair_step, chain_pair_contacts, nth_res.
  rewrite Hc1.
  destruct (nth_error (N_coords st) i2) as [c2|]; [|discriminate].
  destruct (nth_error (residues st) i) as [res1|]; [|discriminate].
  destruct (nth_error (residues st) i2) as [res2|]; [|discriminate].
  simpl. apply foldM_appends. intros s a s' _. apply narrow_step_appends.
Qed.

Lemma find_contacts_comprehension (max_distance : Q) (within_chain : bool)
  (st : parse_state) (contacts : list contact) :
  find_contacts max_distance within_chain st = Ok contacts ->
  contacts =
  flat_map
    (fun i =>
       flat_map (chain_pair_contacts max_distance st i)
         (second_chains within_chain (length (chains st)) i))
    (seq 0 (length (chains st))).
Proof.
  unfold find_contacts. intros H.
  apply foldM_appends with
    (g := fun i =>
            flat_map (chain_pair_contacts max_distance st i)
              (second_chains within_chain (length (chains st)) i)) in H;
    [exact H|].
  intros s i s' _ Hs. unfold nth_res in Hs.
  destruct (nth_error (N_coords st) i) as [c1|] eqn:Ec1; [|discriminate].
  simpl in Hs.
  apply foldM_appends with (g := chain_pair_contacts max_distance st i) in Hs;
    [exact Hs|].
  intros s0 i2 s0' _. apply chain_pair_step_appends. exact Ec1.
Qed.

Lemma in_combine_seq_inv {A : Type} (l : list A) (s k : nat) (x : A) :
  In (k, x) (combine (seq s (length l)) l) ->
  (s <= k)%nat /\ nth_error l (k - s) = Some x.
Proof.
  revert s. induction l as [|y l IH]; intros s H; simpl in H; [contradiction|].
  destruct H as [H|H].
  - injection H as <- <-. rewrite Nat.sub_diag. split; [lia | reflexivity].
  - apply IH in H. destruct H as [Hs Hn]. split; [lia|].
    replace (k - s)%nat with (S (k - S s)) by lia. exact Hn.
Qed.

Lemma in_enumerate_inv {A : Type} (l : list A) (k : nat) (x : A) :
  In (k, x) (enumerate l) -> nth_error l k = Some x.
Proof.
  intros H. apply in_combine_seq_inv in H. destruct H as [_ H].
  rewrite Nat.sub_0_r in H. exact H.
Qed.

Lemma in_index_pairs_iff (cutoff : Q) (c1 c2 : list vec3) (k k2 : nat) :
  In (k, k2) (index_pairs cutoff c1 c2) <->
  exists n1 n2, nth_error c1 k = Some n1 /\ nth_error c2 k2 = Some n2 /\
                dist2 n1 n2 < cutoff.
Proof.
  split.
  - unfold index_pairs. intros H.
    apply in_flat_map in H. destruct H as ([k' n1] & H1 & H).
    apply in_flat_map in H. destruct H as ([k2' n2] & H2 & H).
    simpl in H. destruct (Qltb (dist2 n1 n2) cutoff) eqn:E; [|contradiction].
    destruct H as [H|[]]. injection H as -> ->.
    exists n1, n2. split; [apply in_enumerate_inv, H1|].
    split; [apply in_enumerate_inv, H2|]. apply Qltb_lt, E.
  - intros (n1 & n2 & H1 & H2 & Hd). eapply in_index_pairs; eassumption.
Qed.

Lemma in_accepted_contact (d2_cutoff : Q) (r1 r2 : residue) (c : contact) :
  In c (accepted_contact d2_cutoff r1 r2) <->
  exists a1 a2,
    snd (get_closest_atoms r1 r2) = Some (a1, a2) /\
    fst (get_closest_atoms r1 r2) < d2_cutoff /\
    c = contact_of (fst (get_closest_atoms r1 r2)) r1 r2 a1 a2.
Proof.
  unfold accepted_contact. split.
  - destruct (Qltb (fst (get_closest_atoms r1 r2)) d2_cutoff) eqn:E;
      [|contradiction].
    destruct (snd (get_closest_atoms r1 r2)) as [[a1 a2]|]; [|contradiction].
    intros [<-|[]]. exists a1, a2. split; [reflexivity|].
    split; [apply Qltb_lt, E | reflexivity].
  - intros (a1 & a2 & Hs & Hd & ->). apply Qltb_lt in Hd. rewrite Hd, Hs.
    left. reflexivity.
Qed.

Lemma in_chain_pair_contacts (max_distance : Q) (st : parse_state)
  (i i2 : nat) (c : contact) :
  In c (chain_pair_contacts max_distance st i i2) <->
  exists k k2, contact_between max_distance st i i2 k k2 c.
Proof.
  unfold chain_pair_contacts, contact_between. split.
  - destruct (nth_error (N_coords st) i) as [c1|]; [|contradiction].
    destruct (nth_error (N_coords st) i2) as [c2|]; [|contradiction].
    destruct (nth_error (residues st) i) as [res1|]; [|contradiction].
    destruct (nth_error (residues st) i2) as [res2|]; [|contradiction].
    intros H. apply in_flat_map in H. destruct H as ([k k2] & Hix & H).
    apply in_index_pairs_iff in Hix. destruct Hix as (n1 & n2 & H1 & H2 & Hd).
    unfold candidate_contacts in H. simpl in H.
    destruct (nth_error res1 k) as [r1|] eqn:E1; [|contradiction].
    destruct (nth_error res2 k2) as [r2|] eqn:E2; [|contradiction].
    apply in_accepted_contact in H. destruct H as (a1 & a2 & Hs & Hm & ->).
    exists k, k2, c1, c2, res1, res2, n1, n2, r1, r2, a1, a2.
    repeat split; assumption.
  - intros (k & k2 & c1 & c2 & res1 & res2 & n1 & n2 & r1 & r2 & a1 & a2 &
            H1 & H2 & H3 & H4 & H5 & H6 & H7 & H8 & Hd & Hs & Hm & ->).
    rewrite H1, H3, H5, H7. apply in_flat_map. exists (k, k2). split.
    + apply in_index_pairs_iff. exists n1, n2. auto.
    + unfold candidate_contacts. simpl. rewrite H6, H8.
      apply in_accepted_contact. exists a1, a2. auto.
Qed.

Lemma in_second_chains (within_chain : bool) (n i i2 : nat) :
  In i2 (second_chains within_chain n i) <->
  (i2 < n)%nat /\ (if within_chain then i <= i2 else i < i2)%nat.
Proof.
  unfold second_chains. rewrite in_seq. destruct within_chain; lia.
Qed.

Lemma find_contacts_sound (max_distance : Q)
  (within_chain : bool) (st : parse_state) (contacts : list contact)
  (c : contact) :
  find_contacts max_distance within_chain st = Ok contacts ->
  In c contacts ->
  exists i i2 k k2,
    (i2 < length (chains st))%nat /\
    (if within_chain then i <= i2 else i < i2)%nat /\
    contact_between max_distance st i i2 k k2 c.
Proof.
  intros H Hc. rewrite (find_contacts_comprehension _ _ _ H) in Hc.
  apply in_flat_map in Hc. destruct Hc as (i & Hi & Hc).
  apply in_flat_map in Hc. destruct Hc as (i2 & Hi2 & Hc).
  apply in_second_chains in Hi2. destruct Hi2 as [Hn Ho].
  apply in_chain_pair_contacts in Hc. destruct Hc as (k & k2 & Hc).
  exists i, i2, k, k2. auto.
Qed.

(** X6.  The contacts that the two search loops return are exactly the
    contacts of the residue pairs that pass both phases: the chain
    indices are ordered ([i < i2], or [i <= i2] within chains), the two
    nitrogens are closer than [max_distance + 20], the closest atoms
    are closer than [max_distance], and the contact is made of these
    two residues and atoms. *)
Theorem found_contacts_are_the_accepted_candidates (max_distance : Q)
  (within_chain : bool) (st : parse_state) (contacts : list contact) :
  find_contacts max_distance within_chain st = Ok contacts ->
  forall c,
    In c contacts <->
    exists i i2 k k2,
      (i2 < length (chains st))%nat /\
      (if within_chain then i <= i2 else i < i2)%nat /\
      contact_between max_distance st i i2 k k2 c.
Proof.
  intros H c. split.
  - apply find_contacts_sound, H.
  - rewrite (find_contacts_comprehension _ _ _ H).
    intros (i & i2 & k & k2 & Hn & Ho & Hc).
    apply in_flat_map. exists i. split.
    + apply in_seq. destruct within_chain; lia.
    + apply in_flat_map. exists i2. split.
      * apply in_second_chains. auto.
      * apply in_chain_pair_contacts. eauto.
Qed.

(** The theorem on the first sample model, with its one contact. *)
Lemma found_contacts_are_the_accepted_candidates_witness :
  find_contacts 8 false near_state = Ok [sample_contact] /\
  forall c,
    In c [sample_contact] <->
    exists i i2 k k2,
      (i2 < length (chains near_state))%nat /\ (i < i2)%nat /\
      contact_between 8 near_state i i2 k k2 c.
Proof.
  assert (find_contacts 8 false near_state = Ok [sample_contact]) as H
      by (vm_compute; reflexivity).
  split; [exact H|].
  exact (@found_contacts_are_the_accepted_candidates 8 false near_state
           [sample_contact] H).
Defined.

(** ** The search on a parsed structure *)

Lemma narrow_step_total (d2_cutoff : Q) (res1 res2 : list residue)
  (contacts : list contact) (k k2 : nat) (r1 r2 : residue) :
  d2_cutoff <= 1000000 ->
  nth_error res1 k = Some r1 -> nth_error res2 k2 = Some r2 ->
  exists out, narrow_step d2_cutoff res1 res2 contacts (k, k2) = Ok out.
Proof.
  intros Hd H1 H2. unfold narrow_step, nth_res. simpl. rewrite H1, H2. simpl.
  destruct (get_closest_atoms_ok r1 r2) as (_ & _ & Hc).
  destruct (get_closest_atoms r1 r2) as [m c]. simpl in *.
  destruct (Qltb m d2_cutoff) eqn:E; [|eauto].
  destruct c as [[a1 a2]|]; [eauto|].
  exfalso. apply Qltb_lt in E. rewrite Hc in E. unfold min_d2_init in E.
  exact (Qlt_not_le _ _ E Hd).
Qed.

Lemma nth_error_lt_Some {A : Type} (l : list A) (i : nat) :
  (i < length l)%nat -> exists x, nth_error l i = Some x.
Proof.
  intros H. destruct (nth_error l i) as [x|] eqn:E; [eauto|].
  apply nth_error_None in E. lia.
Qed.

Lemma find_contacts_total (min_plddt : Q) (valid_aas : string)
  (max_distance : Q) (within_chain : bool) (st : parse_state) :
  well_formed min_plddt valid_aas st ->
  max_distance * max_distance <= 1000000 ->
  exists contacts, find_contacts max_distance within_chain st = Ok contacts.
Proof.
  intros [_ Hch Hco _ _ _ _ _] Hd. unfold find_contacts.
  pose proof (Forall2_length_eq Hch) as L1.
  pose proof (Forall2_length_eq Hco) as L2.
  apply foldM_total. intros s i Hi. apply in_seq in Hi.
  destruct (@nth_error_lt_Some _ (N_coords st) i) as [c1 Hc1]; [lia|].
  unfold nth_res at 1. rewrite Hc1. cbn [bind].
  apply foldM_total. intros s0 i2 Hi2.
  assert (i2 < length (chains st))%nat as Hn.
  { apply in_seq in Hi2. destruct within_chain; lia. }
  destruct (@nth_error_lt_Some _ (N_coords st) i2) as [c2 Hc2]; [lia|].
  destruct (@nth_error_lt_Some _ (residues st) i) as [res1 Hr1]; [lia|].
  destruct (@nth_error_lt_Some _ (residues st) i2) as [res2 Hr2]; [lia|].
  unfold chain_pair_step, nth_res. rewrite Hc2, Hr1, Hr2. cbn [bind].
  destruct (@Forall2_nth_error _ _ _ _ _ i res1 Hco Hr1) as (c1' & Hc1' & Hl1).
  destruct (@Forall2_nth_error _ _ _ _ _ i2 res2 Hco Hr2) as (c2' & Hc2' & Hl2).
  assert (c1' = c1) as -> by congruence.
  assert (c2' = c2) as -> by congruence.
  apply foldM_total. intros s1 [k k2] Hk.
  apply in_index_pairs_iff in Hk. destruct Hk as (n1 & n2 & Hk1 & Hk2 & _).
  apply nth_error_Some_lt in Hk1. apply nth_error_Some_lt in Hk2.
  destruct (@nth_error_lt_Some _ res1 k) as [r1 Hx1]; [lia|].
  destruct (@nth_error_lt_Some _ res2 k2) as [r2 Hx2]; [lia|].
  eapply narrow_step_total; eassumption.
Qed.

(** X7.  For a file that is read and parsed without error, and a cutoff
    whose square is at most 1e6 (the starting value of the minimum),
    [get_contacts_from_structure] returns the contacts of the
    search loops: no exception is raised after the parsing. *)
Theorem contact_search_succeeds_on_parsed_structures
  (get_lines_from_pdb_file : string -> result (list pdb_line))
  (pdb_filename : string) (max_distance min_plddt : Q) (valid_aas : string)
  (within_chain : bool) (lines : list pdb_line) (st : parse_state) :
  get_lines_from_pdb_file pdb_filename = Ok lines ->
  parse_structure min_plddt valid_aas lines = Ok st ->
  max_distance * max_distance <= 1000000 ->
  exists contacts,
    get_contacts_from_structure get_lines_from_pdb_file pdb_filename
      max_distance min_plddt valid_aas within_chain = Ok contacts /\
    find_contacts max_distance within_chain st = Ok contacts.
Proof.
  intros Hl Hp Hd. unfold get_contacts_from_structure.
  rewrite Hl. cbn [bind]. rewrite Hp. cbn [bind].
  destruct (@find_contacts_total min_plddt valid_aas max_distance within_chain
              st (parse_structure_well_formed _ _ _ Hp) Hd) as [cs Hcs].
  exists cs. split; exact Hcs.
Qed.

Lemma StronglySorted_app_lt (l1 l2 : list Z) :
  StronglySorted Z.lt (l1 ++ l2) ->
  forall a b, In a l1 -> In b l2 -> (a < b)%Z.
Proof.
  induction l1 as [|x l1 IH]; intros Hs a b Ha Hb; [contradiction|].
  simpl in Hs. inversion Hs as [|? ? Hs' Hf]; subst.
  destruct Ha as [<-|Ha].
  - rewrite Forall_forall in Hf. apply Hf. apply in_or_app. right. exact Hb.
  - apply IH; assumption.
Qed.

Lemma StronglySorted_app_r (l1 l2 : list Z) :
  StronglySorted Z.lt (l1 ++ l2) -> StronglySorted Z.lt l2.
Proof.
  induction l1 as [|x l1 IH]; intros Hs; [exact Hs|].
  inversion Hs; subst. apply IH. assumption.
Qed.

Lemma sorted_across_chains (xs : list (list residue)) (i i2 : nat)
  (c1 c2 : list residue) (r1 r2 : residue) :
  StronglySorted Z.lt (map a_ix (concat xs)) ->
  (i < i2)%nat ->
  nth_error xs i = Some c1 -> nth_error xs i2 = Some c2 ->
  In r1 c1 -> In r2 c2 -> (a_ix r1 < a_ix r2)%Z.
Proof.
  revert i i2. induction xs as [|c xs IH]; intros i i2 Hs Hlt H1 H2 Hr1 Hr2.
  - destruct i; discriminate.
  - simpl in Hs. rewrite map_app in Hs.
    destruct i2 as [|i2]; [lia|]. simpl in H2.
    destruct i as [|i]; simpl in H1.
    + injection H1 as ->.
      apply (StronglySorted_app_lt _ _ Hs); [apply in_map, Hr1|].
      apply in_map. eapply in_concat_nth; eassumption.
    + apply (IH i i2); try assumption; [|lia].
      eapply StronglySorted_app_r. exact Hs.
Qed.

Lemma NoDup_map_inj {A B : Type} (f : A -> B) (l : list A) (x y : A) :
  NoDup (map f l) -> In x l -> In y l -> f x = f y -> x = y.
Proof.
  induction l as [|a l IH]; intros Hn Hx Hy E; [contradiction|].
  simpl in Hn. inversion Hn as [|? ? Hnot Hn']; subst.
  destruct Hx as [->|Hx], Hy as [->|Hy].
  - reflexivity.
  - exfalso. apply Hnot. rewrite E. apply in_map, Hy.
  - exfalso. apply Hnot. rewrite <- E. apply in_map, Hx.
  - apply IH; assumption.
Qed.

Lemma contacts_from_residues (max_distance : Q) (st : parse_state)
  (contacts : list contact) (c : contact) :
  find_contacts max_distance false st = Ok contacts ->
  In c contacts ->
  exists i i2 res1 res2 r1 r2 a1 a2,
    (i < i2)%nat /\
    nth_error (residues st) i = Some res1 /\ In r1 res1 /\
    nth_error (residues st) i2 = Some res2 /\ In r2 res2 /\
    snd (get_closest_atoms r1 r2) = Some (a1, a2) /\
    c = contact_of (fst (get_closest_atoms r1 r2)) r1 r2 a1 a2.
Proof.
  intros Hf Hc.
  apply (@find_contacts_sound max_distance false st contacts c Hf) in Hc.
  destruct Hc as (i & i2 & k & k2 & _ & Hlt & c1 & c2 & res1 & res2 & n1 &
                  n2 & r1 & r2 & a1 & a2 & _ & _ & _ & _ & H5 & H6 & H7 &
                  H8 & _ & Hs & _ & ->).
  exists i, i2, res1, res2, r1, r2, a1, a2.
  repeat split; try assumption; eapply nth_error_In; eassumption.
Qed.

Lemma parsed_contacts_unique (min_plddt : Q) (valid_aas : string)
  (st : parse_state) (max_distance : Q) (contacts : list contact)
  (c c' : contact) :
  well_formed min_plddt valid_aas st ->
  find_contacts max_distance false st = Ok contacts ->
  In c contacts -> In c' contacts ->
  ca_a_ix (aa1 c) = ca_a_ix (aa1 c') ->
  ca_a_ix (aa2 c) = ca_a_ix (aa2 c') -> c = c'.
Proof.
  intros [_ _ _ _ _ _ _ Hsort] Hf Hc Hc' E1 E2.
  pose proof (StronglySorted_lt_NoDup Hsort) as Hnd.
  destruct (@contacts_from_residues max_distance st contacts c Hf Hc)
    as (i & i2 & res1 & res2 & r1 & r2 & a1 & a2 & _ &
        H1 & Hr1 & H2 & Hr2 & Hs & ->).
  destruct (@contacts_from_residues max_distance st contacts c' Hf Hc')
    as (i' & i2' & res1' & res2' & r1' & r2' & a1' &
        a2' & _ & H1' & Hr1' & H2' & Hr2' & Hs' & ->).
  simpl in E1, E2.
  assert (r1 = r1') as <-.
  { exact (@NoDup_map_inj _ _ a_ix (concat (residues st)) r1 r1' Hnd
             (@in_concat_nth _ (residues st) i res1 r1 H1 Hr1)
             (@in_concat_nth _ (residues st) i' res1' r1' H1' Hr1') E1). }
  assert (r2 = r2') as <-.
  { exact (@NoDup_map_inj _ _ a_ix (concat (residues st)) r2 r2' Hnd
             (@in_concat_nth _ (residues st) i2 res2 r2 H2 Hr2)
             (@in_concat_nth _ (residues st) i2' res2' r2' H2' Hr2') E2). }
  rewrite Hs in Hs'. congruence.
Qed.

(** X8.  In the contacts between chains of a parsed structure, the
    first residue comes before the second in the file (absolute indices
    [1 <= a1 < a2]), both residues pass the confidence filter and the
    amino-acid restriction, and two contacts with the same pair of
    absolute indices are the same contact. *)
Theorem contacts_of_parsed_structures (min_plddt : Q) (valid_aas : string)
  (lines : list pdb_line) (st : parse_state) (max_distance : Q)
  (contacts : list contact) :
  parse_structure min_plddt valid_aas lines = Ok st ->
  find_contacts max_distance false st = Ok contacts ->
  (forall c, In c contacts ->
     (1 <= ca_a_ix (aa1 c) < ca_a_ix (aa2 c))%Z /\
     min_plddt <= ca_plddt (aa1 c) /\ min_plddt <= ca_plddt (aa2 c) /\
     (valid_aas <> EmptyString ->
      char_in (ca_type (aa1 c)) valid_aas = true /\
      char_in (ca_type (aa2 c)) valid_aas = true)) /\
  (forall c c', In c contacts -> In c' contacts ->
     ca_a_ix (aa1 c) = ca_a_ix (aa1 c') ->
     ca_a_ix (aa2 c) = ca_a_ix (aa2 c') -> c = c').
Proof.
  intros Hp Hf.
  pose proof (parse_structure_well_formed _ _ _ Hp) as Hwf.
  split.
  - intros c Hc. destruct Hwf as [_ _ _ _ _ _ Hres Hsort].
    rewrite Forall_forall in Hres.
    destruct (@contacts_from_residues max_distance st contacts c Hf Hc)
      as (i & i2 & res1 & res2 & r1 & r2 & a1 & a2 & Hlt &
          H1 & Hr1 & H2 & Hr2 & _ & ->).
    pose proof (@in_concat_nth _ (residues st) i res1 r1 H1 Hr1) as Hin1.
    pose proof (@in_concat_nth _ (residues st) i2 res2 r2 H2 Hr2) as Hin2.
    destruct (Hres r1 Hin1) as (Hp1 & Hv1 & _ & Hi1).
    destruct (Hres r2 Hin2) as (Hp2 & Hv2 & _ & Hi2).
    pose proof (@sorted_across_chains (residues st) i i2 res1 res2 r1 r2
                  Hsort Hlt H1 H2 Hr1 Hr2) as Hord.
    simpl. split; [lia|]. split; [exact Hp1|]. split; [exact Hp2|].
    intros Hv.
    assert (0 < String.length valid_aas)%nat as Hpos
      by (destruct valid_aas; [congruence | simpl; lia]).
    auto.
  - intros c c'.
    exact (@parsed_contacts_unique min_plddt valid_aas st max_distance
             contacts c c' Hwf Hf).
Qed.

(** The theorem on the file of the first sample model. *)
Lemma contact_search_succeeds_on_parsed_structures_witness :
  exists contacts,
    get_contacts_from_structure sample_pdb_files "a_b_model_1.pdb"
      8 50 "" false = Ok contacts /\
    find_contacts 8 false near_state = Ok contacts.
Proof.
  apply (@contact_search_succeeds_on_parsed_structures sample_pdb_files
           "a_b_model_1.pdb" 8 50 ""%string false near_lines near_state).
  - reflexivity.
  - vm_compute. reflexivity.
  - vm_compute. discriminate.
Defined.

(** The theorem on the contact of the first sample model. *)
Lemma contacts_of_parsed_structures_witness :
  (forall c, In c [sample_contact] ->
     (1 <= ca_a_ix (aa1 c) < ca_a_ix (aa2 c))%Z /\
     50 <= ca_plddt (aa1 c) /\ 50 <= ca_plddt (aa2 c) /\
     (EmptyString <> EmptyString ->
      char_in (ca_type (aa1 c)) EmptyString = true /\
      char_in (ca_type (aa2 c)) EmptyString = true)) /\
  (forall c c', In c [sample_contact] -> In c' [sample_contact] ->
     ca_a_ix (aa1 c) = ca_a_ix (aa1 c') ->
     ca_a_ix (aa2 c) = ca_a_ix (aa2 c') -> c = c').
Proof.
  apply (@contacts_of_parsed_structures 50 ""%string near_lines near_state 8
           [sample_contact]).
  - vm_compute. reflexivity.
  - vm_compute. reflexivity.
Defined.

(** ** The entries that [get_contacts] returns *)

Section Dict.
Context {V : Type}.

Lemma dict_set_Forall (Q : string -> V -> Prop) (d : dict V) (k : string) (v : V) :
  Forall (fun kv => Q (fst kv) (snd kv)) d -> Q k v ->
  Forall (fun kv => Q (fst kv) (snd kv)) (dict_set k v d).
Proof.
  intros Hd Hv. induction d as [|[k' v'] d IH]; simpl.
  - apply Forall_one. exact Hv.
  - inversion Hd as [|? ? H1 H2]; subst.
    destruct (String.eqb k k') eqn:E.
    + apply String.eqb_eq in E. subst k'. constructor; assumption.
    + constructor; [exact H1 | apply IH, H2].
Qed.

Lemma dict_get_Forall (Q : string -> V -> Prop) (d : dict V) (k : string) (v : V) :
  Forall (fun kv => Q (fst kv) (snd kv)) d -> dict_get k d = Some v -> Q k v.
Proof.
  intros Hd. induction d as [|[k' v'] d IH]; simpl; [discriminate|].
  inversion Hd as [|? ? H1 H2]; subst.
  destruct (String.eqb k k') eqn:E.
  - apply String.eqb_eq in E. subst k'. intros H. injection H as <-. exact H1.
  - apply IH, H2.
Qed.

Lemma dict_get_set_other (d : dict V) (k k' : string) (v : V) :
  k' <> k -> dict_get k' (dict_set k v d) = dict_get k' d.
Proof.
  intros Hne. induction d as [|[k0 v0] d IH]; simpl.
  - destruct (String.eqb k' k) eqn:E; [|reflexivity].
    apply String.eqb_eq in E. congruence.
  - destruct (String.eqb k k0) eqn:E; simpl.
    + apply String.eqb_eq in E. subst k0.
      destruct (String.eqb k' k) eqn:E'; [|reflexivity].
      apply String.eqb_eq in E'. congruence.
    + rewrite IH. reflexivity.
Qed.

End Dict.

Lemma pae_lookup_combines (pae_data : list pae_token) (N : Z)
  (pae_mode : string) (a0 a1 : Z) (r : Q * (Q * Q)) :
  pae_lookup pae_data N pae_mode a0 a1 = Ok r ->
  fst r = (if String.eqb pae_mode "avg"
           then (1 # 2) * (fst (snd r) + snd (snd r))
           else Qmin (fst (snd r)) (snd (snd r))).
Proof.
  unfold pae_lookup.
  destruct ((Z.of_nat (length pae_data) <=? pae_index N a0 a1)%Z
            || (Z.of_nat (length pae_data) <=? pae_index N a1 a0)%Z);
    [discriminate|].
  destruct (py_getitem pae_data (pae_index N a0 a1)) as [t0|]; [|discriminate].
  cbn [bind]. destruct (float_of t0) as [v0|]; [|discriminate]. cbn [bind].
  destruct (py_getitem pae_data (pae_index N a1 a0)) as [t1|]; [|discriminate].
  cbn [bind]. destruct (float_of t1) as [v1|]; [|discriminate]. cbn [bind].
  intros H. injection H as <-. reflexivity.
Qed.

Lemma filter_contact_entry (ignore_pae : bool) (pae_data : list pae_token)
  (N : Z) (max_pae : Q) (pae_mode valid_aas : string) (model_num : Z)
  (c : contact) (cid id : string) (e : contact_entry) :
  filter_contact ignore_pae pae_data N max_pae pae_mode valid_aas model_num c
  = Ok (Some (cid, id, e)) ->
  entry_of ignore_pae max_pae pae_mode valid_aas model_num c cid id e.
Proof.
  unfold filter_contact. intros H.
  match type of H with
  | (pae <- ?p ;; _) = _ => destruct p as [pae|] eqn:Ep; [|discriminate]
  end.
  cbn [bind] in H.
  destruct (negb ignore_pae && Qltb max_pae (fst pae)) eqn:Ef; [discriminate|].
  match type of H with
  | (if ?b then _ else _) = _ => destruct b eqn:Ev; [discriminate|]
  end.
  injection H as <- <- <-. unfold entry_of. simpl.
  repeat (split; [reflexivity|]). split.
  - destruct ignore_pae.
    + injection Ep as <-. split; reflexivity.
    + simpl in Ef. apply Qltb_ge in Ef. split; [exact Ef|].
      eapply pae_lookup_combines. exact Ep.
  - intros Hv. apply Nat.ltb_lt in Hv. rewrite Hv in Ev. simpl in Ev.
    apply orb_false_iff in Ev. destruct Ev as [E1 E2].
    apply negb_false_iff in E1. apply negb_false_iff in E2. auto.
Qed.

Lemma dict_set_nonempty {V : Type} (k : string) (v : V) (d : dict V) :
  dict_set k v d <> [].
Proof.
  destruct d as [|[k' v'] d]; simpl; [discriminate|].
  destruct (String.eqb k k'); discriminate.
Qed.

Lemma filter_step_stored (ignore_pae : bool) (pae_data : list pae_token)
  (N : Z) (max_pae : Q) (pae_mode valid_aas : string) (model_num : Z)
  (contacts : list contact) (d d' : dict (dict contact_entry)) (c : contact) :
  In c contacts ->
  stored ignore_pae max_pae pae_mode valid_aas model_num contacts d ->
  filter_step ignore_pae pae_data N max_pae pae_mode valid_aas model_num d c
  = Ok d' ->
  stored ignore_pae max_pae pae_mode valid_aas model_num contacts d'.
Proof.
  intros Hc Hd H. unfold filter_step in H.
  match type of H with
  | (kept <- ?p ;; _) = _ => destruct p as [kept|] eqn:Ek; [|discriminate]
  end.
  cbn [bind] in H. destruct kept as [[[cid id] e]|].
  2:{ injection H as <-. exact Hd. }
  injection H as <-. apply filter_contact_entry in Ek.
  unfold stored, add_contact.
  apply (@dict_set_Forall _
           (fun k (v : dict contact_entry) =>
              v <> [] /\
              Forall
                (fun ie =>
                   exists c, In c contacts /\
                     entry_of ignore_pae max_pae pae_mode valid_aas model_num
                       c k (fst ie) (snd ie)) v));
    [exact Hd|].
  split; [apply dict_set_nonempty|].
  apply (@dict_set_Forall _
           (fun i (x : contact_entry) =>
              exists c, In c contacts /\
                entry_of ignore_pae max_pae pae_mode valid_aas model_num
                  c cid i x)).
  - destruct (dict_get cid d) as [inner|] eqn:Eg; [|constructor].
    apply (@dict_get_Forall _
             (fun k (v : dict contact_entry) =>
                v <> [] /\
                Forall
                  (fun ie =>
                     exists c, In c contacts /\
                       entry_of ignore_pae max_pae pae_mode valid_aas
                         model_num c k (fst ie) (snd ie)) v) d cid inner Hd Eg).
  - exists c. split; assumption.
Qed.

Lemma foldM_stored (ignore_pae : bool) (pae_data : list pae_token)
  (N : Z) (max_pae : Q) (pae_mode valid_aas : string) (model_num : Z)
  (contacts : list contact) (todo : list contact)
  (d d' : dict (dict contact_entry)) :
  incl todo contacts ->
  stored ignore_pae max_pae pae_mode valid_aas model_num contacts d ->
  foldM (filter_step ignore_pae pae_data N max_pae pae_mode valid_aas model_num)
    todo d = Ok d' ->
  stored ignore_pae max_pae pae_mode valid_aas model_num contacts d'.
Proof.
  revert d. induction todo as [|c todo IH]; intros d Hi Hd H; simpl in H.
  - injection H as <-. exact Hd.
  - match type of H with
    | (s' <- ?p ;; _) = _ => destruct p as [d1|] eqn:E; [|discriminate]
    end.
    cbn [bind] in H. apply (IH d1); [| |exact H].
    + intros x Hx. apply Hi. right. exact Hx.
    + eapply filter_step_stored; [|exact Hd|exact E].
      apply Hi. left. reflexivity.
Qed.

(** X9.  When [get_contacts] returns, the model number of the structure
    file is one of 1..5, no chain pair of the result is without a
    contact, and every entry is made of one geometric contact: its
    chain-pair key is [chain1:chain2], its key is [a1&a2] for the
    absolute indices, it records the chains, in-chain indices, types,
    confidences, distance and model number of that contact; without a
    matrix its error is 0, with a matrix the error is at most [max_pae]
    and is the mean or the minimum of the two directional values; the
    two amino acids belong to [valid_aas] when it is given. *)
Theorem get_contacts_entries
  (get_lines_from_pdb_file : string -> result (list pdb_line))
  (pae_payload : string -> result (list pae_token))
  (pdb_filename pae_filename : string) (max_distance min_plddt max_pae : Q)
  (pae_mode valid_aas : string) (d : dict (dict contact_entry)) :
  get_contacts get_lines_from_pdb_file pae_payload pdb_filename pae_filename
    max_distance min_plddt max_pae pae_mode valid_aas = Ok d ->
  exists model_num contacts,
    get_af_model_num pdb_filename = Ok model_num /\
    (1 <= model_num <= 5)%Z /\
    get_contacts_from_structure get_lines_from_pdb_file pdb_filename
      max_distance min_plddt valid_aas false = Ok contacts /\
    forall chain_contact_id inner,
      dict_get chain_contact_id d = Some inner ->
      inner <> [] /\
      forall contact_id e,
        dict_get contact_id inner = Some e ->
        exists c,
          In c contacts /\
          entry_of (String.length pae_filename =? 0)%nat max_pae pae_mode
            valid_aas model_num c chain_contact_id contact_id e.
Proof.
  unfold get_contacts. intros H.
  destruct (get_af_model_num pdb_filename) as [n|]; [|discriminate].
  cbn [bind] in H.
  destruct ((n <? 1)%Z || (5 <? n)%Z) eqn:En; [discriminate|].
  apply orb_false_iff in En. destruct En as [E1 E2].
  apply Z.ltb_ge in E1. apply Z.ltb_ge in E2.
  match type of H with
  | (ok <- ?p ;; _) = _ => destruct p as [same|]; [|discriminate]
  end.
  cbn [bind] in H. destruct same; [|discriminate]. cbn [negb] in H.
  match type of H with
  | (cs <- ?p ;; _) = _ => destruct p as [contacts|]; [|discriminate]
  end.
  cbn [bind] in H.
  exists n, contacts. split; [reflexivity|]. split; [lia|].
  split; [reflexivity|].
  assert (stored (String.length pae_filename =? 0)%nat max_pae pae_mode
            valid_aas n contacts d) as Hs.
  { destruct (length contacts <? 1)%nat.
    - injection H as <-. constructor.
    - match type of H with
      | (pae <- ?p ;; _) = _ => destruct p as [pae|]; [|discriminate]
      end.
      cbn [bind] in H.
      eapply foldM_stored; [apply incl_refl | constructor | exact H]. }
  intros cid inner Hg.
  pose proof (@dict_get_Forall _
                (fun k (v : dict contact_entry) =>
                   v <> [] /\
                   Forall
                     (fun ie =>
                        exists c, In c contacts /\
                          entry_of (String.length pae_filename =? 0)%nat
                            max_pae pae_mode valid_aas n c k (fst ie) (snd ie))
                     v) d cid inner Hs Hg) as [Hne Hin].
  split; [exact Hne|]. intros id e He.
  exact (@dict_get_Forall _
           (fun i (x : contact_entry) =>
              exists c, In c contacts /\
                entry_of (String.length pae_filename =? 0)%nat max_pae
                  pae_mode valid_aas n c cid i x) inner id e Hin He).
Qed.

(** The theorem on the first sample model and its matrix. *)
Lemma get_contacts_entries_witness :
  exists model_num contacts,
    get_af_model_num "a_b_model_1.pdb" = Ok model_num /\
    (1 <= model_num <= 5)%Z /\
    get_contacts_from_structure sample_pdb_files "a_b_model_1.pdb"
      8 50 "" false = Ok contacts /\
    forall chain_contact_id inner,
      dict_get chain_contact_id near_contacts = Some inner ->
      inner <> [] /\
      forall contact_id e,
        dict_get contact_id inner = Some e ->
        exists c,
          In c contacts /\
          entry_of (String.length "a_b_model_1.json" =? 0)%nat 15 "min" ""
            model_num c chain_contact_id contact_id e.
Proof.
  apply (@get_contacts_entries sample_pdb_files sample_pae_files
           "a_b_model_1.pdb" "a_b_model_1.json" 8 50 15 "min"%string
           ""%string near_contacts).
  vm_compute. reflexivity.
Defined.

(** ** Rounding to one decimal *)

Lemma round_half_even_near (y : Q) :
  inject_Z (round_half_even y) - (1 # 2) <= y /\
  y <= inject_Z (round_half_even y) + (1 # 2).
Proof.
  unfold round_half_even.
  pose proof (Qfloor_le y) as Hl. pose proof (Qlt_floor y) as Hu.
  rewrite inject_Z_plus in Hu.
  replace (inject_Z 1) with 1 in Hu by reflexivity.
  destruct (y - inject_Z (Qfloor y) ?= 1 # 2) eqn:E.
  - apply Qeq_alt in E. destruct (Z.even (Qfloor y)).
    + split; lra.
    + rewrite inject_Z_plus. replace (inject_Z 1) with 1 by reflexivity.
      split; lra.
  - apply Qlt_alt in E. split; lra.
  - apply Qgt_alt in E. rewrite inject_Z_plus.
    replace (inject_Z 1) with 1 by reflexivity. split; lra.
Qed.

Lemma round1_near (x : Q) :
  round1 x - (1 # 20) <= x /\ x <= round1 x + (1 # 20).
Proof.
  unfold round1. destruct (round_half_even_near (x * 10)) as [H1 H2].
  set (r := inject_Z (round_half_even (x * 10))) in *.
  unfold Qdiv. change (/ 10) with (1 # 10). split; lra.
Qed.

(** ** [calculate_interface_statistics] *)

Lemma stats_bounds_init : stats_bounds [] stats_init.
Proof.
  constructor; simpl.
  - reflexivity.
  - intros kv [].
  - intros kv [].
  - split; unfold Qle; simpl; lia.
  - split; unfold Qle; simpl; lia.
  - repeat split; unfold Qle; simpl; lia.
Qed.

Lemma sum_bounds_step (n lo hi s a : Q) :
  0 <= n -> n * lo <= s -> s <= n * hi ->
  (n + 1) * Qmin lo a <= s + a /\ s + a <= (n + 1) * Qmax hi a.
Proof.
  intros Hn H1 H2.
  pose proof (Q.le_min_l lo a). pose proof (Q.le_min_r lo a).
  pose proof (Q.le_max_l hi a). pose proof (Q.le_max_r hi a).
  split; nra.
Qed.

Lemma stats_step_bounds (entries : dict contact_entry) (acc : stats_acc)
  (kv : string * contact_entry) :
  stats_bounds entries acc -> stats_bounds (entries ++ [kv]) (stats_step acc kv).
Proof.
  intros [Hc Hp Ha Hps Has Hcl].
  assert (0 <= inject_Z (acc_num_contacts acc)) as Hn.
  { rewrite Hc. change 0 with (inject_Z 0). rewrite <- Zle_Qle. lia. }
  pose proof (Q.le_min_l (plddt_min acc) (avg_plddt (snd kv))).
  pose proof (Q.le_min_r (plddt_min acc) (avg_plddt (snd kv))).
  pose proof (Q.le_max_l (plddt_max acc) (avg_plddt (snd kv))).
  pose proof (Q.le_max_r (plddt_max acc) (avg_plddt (snd kv))).
  pose proof (Q.le_min_l (pae_min acc) (ce_pae (snd kv))).
  pose proof (Q.le_min_r (pae_min acc) (ce_pae (snd kv))).
  pose proof (Q.le_max_l (pae_max acc) (ce_pae (snd kv))).
  pose proof (Q.le_max_r (pae_max acc) (ce_pae (snd kv))).
  constructor; unfold stats_step; cbn [acc_num_contacts plddt_min plddt_max
    pae_min pae_max plddt_sum pae_sum]; fold (avg_plddt (snd kv)).
  - rewrite length_app. simpl. lia.
  - intros x Hx. apply in_app_or in Hx. destruct Hx as [Hx|[<-|[]]].
    + specialize (Hp x Hx). split; lra.
    + split; lra.
  - intros x Hx. apply in_app_or in Hx. destruct Hx as [Hx|[<-|[]]].
    + specialize (Ha x Hx). split; lra.
    + split; lra.
  - rewrite inject_Z_plus. replace (inject_Z 1) with 1 by reflexivity.
    apply sum_bounds_step; tauto.
  - rewrite inject_Z_plus. replace (inject_Z 1) with 1 by reflexivity.
    apply sum_bounds_step; tauto.
  - repeat split; lra.
Qed.

Lemma stats_fold_bounds (todo done : dict contact_entry) (acc : stats_acc) :
  stats_bounds done acc ->
  stats_bounds (done ++ todo) (fold_left stats_step todo acc).
Proof.
  revert done acc. induction todo as [|kv todo IH]; intros done acc H; simpl.
  - rewrite app_nil_r. exact H.
  - replace (done ++ kv :: todo) with ((done ++ [kv]) ++ todo)
      by (rewrite <- app_assoc; reflexivity).
    apply IH, stats_step_bounds, H.
Qed.

Lemma mean_between (n lo hi s : Q) :
  0 < n -> n * lo <= s -> s <= n * hi -> lo <= s / n /\ s / n <= hi.
Proof.
  intros Hn H1 H2. split.
  - apply Qle_shift_div_l; [exact Hn|]. lra.
  - apply Qle_shift_div_r; [exact Hn|]. lra.
Qed.

(** X10.  For a chain pair that has contacts,
    [calculate_interface_statistics] counts them, reports a minimum and a
    maximum that bound the confidence and the error of every contact,
    and averages that lie between the minimum and the maximum up to the
    rounding to one decimal (0.05).  The minimum never exceeds its
    starting value (100 or 30) and the maximum is never negative. *)
Theorem interface_statistics_bounds (interchain_id : string)
  (contacts : dict (dict contact_entry)) (entries : dict contact_entry) :
  dict_get interchain_id contacts = Some entries ->
  entries <> [] ->
  let s := calculate_interface_statistics interchain_id contacts in
  num_contacts s = Z.of_nat (length entries) /\
  (forall contact_id e, In (contact_id, e) entries ->
     fst (fst (plddt_stats s)) <= avg_plddt e <= snd (plddt_stats s) /\
     fst (fst (pae_stats s)) <= ce_pae e <= snd (pae_stats s)) /\
  (fst (fst (plddt_stats s)) - (1 # 20) <= snd (fst (plddt_stats s)) /\
   snd (fst (plddt_stats s)) <= snd (plddt_stats s) + (1 # 20)) /\
  (fst (fst (pae_stats s)) - (1 # 20) <= snd (fst (pae_stats s)) /\
   snd (fst (pae_stats s)) <= snd (pae_stats s) + (1 # 20)) /\
  fst (fst (plddt_stats s)) <= 100 /\ 0 <= snd (plddt_stats s) /\
  fst (fst (pae_stats s)) <= 30 /\ 0 <= snd (pae_stats s).
Proof.
  intros Hg Hne s. subst s. unfold calculate_interface_statistics.
  rewrite Hg.
  pose proof (@stats_fold_bounds entries [] stats_init stats_bounds_init) as Hb.
  simpl app in Hb.
  set (acc := fold_left stats_step entries stats_init) in *.
  destruct Hb as [Hc Hp Ha Hps Has Hcl].
  assert (0 < acc_num_contacts acc)%Z as Hpos.
  { rewrite Hc. destruct entries; [congruence|]. simpl length. lia. }
  apply Z.ltb_lt in Hpos. rewrite Hpos. apply Z.ltb_lt in Hpos.
  cbn [num_contacts plddt_stats pae_stats fst snd].
  assert (0 < inject_Z (acc_num_contacts acc)) as Hn.
  { change 0 with (inject_Z 0). rewrite <- Zlt_Qlt. exact Hpos. }
  split; [exact Hc|]. split.
  { intros k e Hin. split.
    - exact (Hp (k, e) Hin).
    - exact (Ha (k, e) Hin). }
  destruct Hps as [Hp1 Hp2]. destruct Has as [Ha1 Ha2].
  destruct (mean_between Hn Hp1 Hp2) as [M1 M2].
  destruct (mean_between Hn Ha1 Ha2) as [M3 M4].
  destruct (round1_near (plddt_sum acc / inject_Z (acc_num_contacts acc)))
    as [R1 R2].
  destruct (round1_near (pae_sum acc / inject_Z (acc_num_contacts acc)))
    as [R3 R4].
  repeat split; try tauto; lra.
Qed.

(** The theorem on the chain pair A:B of the first sample model: one
    contact. *)
Lemma interface_statistics_bounds_witness :
  num_contacts (calculate_interface_statistics "A:B" near_contacts) = 1%Z /\
  fst (fst (plddt_stats (calculate_interface_statistics "A:B" near_contacts)))
  <= 100 /\
  0 <= snd (plddt_stats (calculate_interface_statistics "A:B" near_contacts)).
Proof.
  assert (exists entries, dict_get "A:B" near_contacts = Some entries /\
                          entries <> [] /\ length entries = 1%nat)
    as (entries & Hg & Hne & Hl).
  { eexists. split; [vm_compute; reflexivity|]. split; [discriminate|].
    reflexivity. }
  pose proof (@interface_statistics_bounds "A:B" near_contacts entries Hg Hne)
    as H.
  cbv zeta in H. destruct H as (H1 & _ & _ & _ & H5 & H6 & _).
  rewrite Hl in H1. split; [exact H1|]. split; [exact H5 | exact H6].
Defined.

(** ** [summarize_interface_statistics] *)

Lemma foldM_app {S A : Type} (body : S -> A -> result S) (l1 l2 : list A) (s : S) :
  foldM body (l1 ++ l2) s = (s' <- foldM body l1 s ;; foldM body l2 s').
Proof.
  revert s. induction l1 as [|a l1 IH]; intros s; simpl; [reflexivity|].
  destruct (body s a) as [s1|e]; simpl; [apply IH | reflexivity].
Qed.

Lemma foldM_flat_map {S A B : Type} (body : S -> B -> result S)
  (f : A -> list B) (l : list A) (s : S) :
  foldM (fun s a => foldM body (f a) s) l s = foldM body (flat_map f l) s.
Proof.
  revert s. induction l as [|a l IH]; intros s; simpl; [reflexivity|].
  rewrite foldM_app. destruct (foldM body (f a) s); simpl;
    [apply IH | reflexivity].
Qed.

Lemma foldM_map {S A B : Type} (body : S -> B -> result S) (f : A -> B)
  (l : list A) (s : S) :
  foldM (fun s a => body s (f a)) l s = foldM body (map f l) s.
Proof.
  revert s. induction l as [|a l IH]; intros s; simpl; [reflexivity|].
  destruct (body s (f a)); simpl; [apply IH | reflexivity].
Qed.

Lemma foldM_ext {S A : Type} (f g : S -> A -> result S) (l : list A) (s : S) :
  (forall s a, f s a = g s a) -> foldM f l s = foldM g l s.
Proof.
  intros H. revert s. induction l as [|a l IH]; intros s; simpl; [reflexivity|].
  rewrite H. destruct (g s a); simpl; [apply IH | reflexivity].
Qed.

Lemma loops_over_contact_ids (interfaces : list (Z * dict (dict contact_entry)))
  (st : dict Z * Z) :
  foldM
    (fun st model =>
       foldM
         (fun st interchain =>
            foldM (fun st kc => count_contact st (fst kc)) (snd interchain) st)
         (snd model) st)
    interfaces st
  = foldM count_contact (contact_ids interfaces) st.
Proof.
  unfold contact_ids.
  rewrite <- (foldM_flat_map count_contact
                (fun model : Z * dict (dict contact_entry) =>
                   flat_map (fun interchain : string * dict contact_entry =>
                               map fst (snd interchain)) (snd model))).
  apply foldM_ext. intros s model.
  rewrite <- (foldM_flat_map count_contact
                (fun interchain : string * dict contact_entry =>
                   map fst (snd interchain))).
  apply foldM_ext. intros s' interchain.
  apply (foldM_map count_contact fst).
Qed.

Lemma count_contact_ok (unique_contacts : dict Z) (max_num_models : Z)
  (contact_id : string) :
  count_contact (unique_contacts, max_num_models) contact_id
  = Ok (dict_set contact_id (next_count unique_contacts contact_id)
          unique_contacts,
        Z.max max_num_models (next_count unique_contacts contact_id)).
Proof.
  unfold count_contact, next_count, dict_mem, dict_lookup. cbn [fst snd].
  destruct (dict_get contact_id unique_contacts) as [n|]; cbn [negb bind];
    rewrite dict_get_set_same; reflexivity.
Qed.

Lemma values_sum_set (d : dict Z) (k : string) (v : Z) :
  values_sum (dict_set k v d)
  = (values_sum d + v
     - match dict_get k d with Some o => o | None => 0 end)%Z.
Proof.
  unfold values_sum. induction d as [|[k' v'] d IH]; simpl.
  - lia.
  - destruct (String.eqb k k'); simpl; lia.
Qed.

Lemma keys_set {V : Type} (d : dict V) (k : string) (v : V) :
  map fst (dict_set k v d)
  = if dict_mem k d then map fst d else map fst d ++ [k].
Proof.
  unfold dict_mem. induction d as [|[k' v'] d IH]; simpl; [reflexivity|].
  destruct (String.eqb k k') eqn:E; simpl; [reflexivity|].
  rewrite IH. destruct (dict_get k d); reflexivity.
Qed.

Lemma dict_get_in_keys {V : Type} (d : dict V) (k : string) :
  In k (map fst d) <-> dict_get k d <> None.
Proof.
  induction d as [|[k' v'] d IH]; simpl.
  - split; [intros [] | congruence].
  - destruct (String.eqb k k') eqn:E.
    + apply String.eqb_eq in E. subst. split; [discriminate | auto].
    + apply String.eqb_neq in E. rewrite <- IH. split.
      * intros [H|H]; [congruence | exact H].
      * auto.
Qed.

Lemma dict_get_in {V : Type} (d : dict V) (k : string) (v : V) :
  dict_get k d = Some v -> In (k, v) d.
Proof.
  induction d as [|[k' v'] d IH]; simpl; [discriminate|].
  destruct (String.eqb k k') eqn:E.
  - apply String.eqb_eq in E. subst. intros H. injection H as <-. auto.
  - auto.
Qed.

Lemma in_dict_get {V : Type} (d : dict V) (k : string) (v : V) :
  NoDup (map fst d) -> In (k, v) d -> dict_get k d = Some v.
Proof.
  induction d as [|[k' v'] d IH]; simpl; [intros _ []|].
  intros Hnd. inversion Hnd as [|? ? Hn Hnd']; subst.
  intros [H|H].
  - injection H as -> ->. rewrite String.eqb_refl. reflexivity.
  - destruct (String.eqb k k') eqn:E.
    + apply String.eqb_eq in E. subst. exfalso. apply Hn.
      apply (in_map fst) in H. exact H.
    + apply IH; assumption.
Qed.

Lemma counted_init : counted [] ([], 0%Z).
Proof.
  constructor; simpl.
  - constructor.
  - reflexivity.
  - reflexivity.
  - intros c. unfold occurrences. simpl. lia.
  - left. split; reflexivity.
Qed.

Lemma occurrences_snoc (ids : list string) (x contact_id : string) :
  occurrences (ids ++ [x]) contact_id
  = (occurrences ids contact_id
     + if string_dec x contact_id then 1 else 0)%Z.
Proof.
  unfold occurrences. rewrite count_occ_app. simpl.
  destruct (string_dec x contact_id); lia.
Qed.

Lemma occurrences_pos (ids : list string) (contact_id : string) :
  In contact_id ids <-> (0 < occurrences ids contact_id)%Z.
Proof.
  unfold occurrences. rewrite (count_occ_In string_dec). lia.
Qed.

Lemma occurrences_zero (ids : list string) (contact_id : string) :
  ~ In contact_id ids -> occurrences ids contact_id = 0%Z.
Proof.
  unfold occurrences. intros H.
  apply (count_occ_not_In string_dec) in H. rewrite H. reflexivity.
Qed.

Lemma next_count_counted (ids : list string) (st : dict Z * Z) (x : string) :
  counted ids st -> next_count (fst st) x = occurrences (ids ++ [x]) x.
Proof.
  intros H. unfold next_count. rewrite (cn_get H).
  rewrite occurrences_snoc.
  destruct (string_dec x x) as [_|N]; [|congruence].
  destruct (in_dec string_dec x ids) as [Hi|Hi]; [reflexivity|].
  rewrite (occurrences_zero _ _ Hi). reflexivity.
Qed.

Lemma count_contact_counted (ids : list string) (st st' : dict Z * Z)
  (x : string) :
  counted ids st -> count_contact st x = Ok st' -> counted (ids ++ [x]) st'.
Proof.
  intros H E. destruct st as [uc mx]. rewrite count_contact_ok in E.
  injection E as <-.
  pose proof (next_count_counted x H) as Hn. cbn [fst] in Hn. rewrite Hn.
  destruct H as [Hk Hg Hs Hm Ha]. cbn [fst snd] in *.
  constructor; cbn [fst snd].
  - rewrite keys_set. unfold dict_mem. rewrite Hg.
    destruct (in_dec string_dec x ids) as [Hi|Hi]; [exact Hk|].
    apply NoDup_app; [exact Hk | repeat constructor; intros [] |].
    intros y Hy [E|[]]. subst y. apply dict_get_in_keys in Hy.
    rewrite Hg in Hy. destruct (in_dec string_dec x ids); congruence.
  - intros c. destruct (string_dec c x) as [->|Hne].
    + rewrite dict_get_set_same.
      destruct (in_dec string_dec x (ids ++ [x])) as [_|N]; [reflexivity|].
      exfalso. apply N, in_or_app. right. left. reflexivity.
    + rewrite dict_get_set_other by exact Hne. rewrite Hg.
      rewrite occurrences_snoc.
      destruct (string_dec x c) as [->|_]; [congruence|].
      rewrite Z.add_0_r.
      destruct (in_dec string_dec c ids) as [Hi|Hi];
        destruct (in_dec string_dec c (ids ++ [x])) as [Hj|Hj];
        try reflexivity.
      * exfalso. apply Hj, in_or_app. left. exact Hi.
      * exfalso. apply in_app_or in Hj. destruct Hj as [Hj|[Hj|[]]];
          [exact (Hi Hj) | congruence].
  - rewrite values_sum_set, Hs, Hg, length_app. simpl length.
    rewrite occurrences_snoc.
    destruct (string_dec x x) as [_|N]; [|congruence].
    destruct (in_dec string_dec x ids) as [Hi|Hi].
    + lia.
    + rewrite (occurrences_zero _ _ Hi). lia.
  - intros c. specialize (Hm c).
    pose proof (occurrences_snoc ids x x) as Hx.
    pose proof (occurrences_snoc ids x c) as Hxc.
    destruct (string_dec x x) as [_|N]; [|congruence].
    destruct (string_dec x c) as [->|_]; lia.
  - right.
    destruct (Z.max_spec mx (occurrences (ids ++ [x]) x)) as [[Hlt ->]|[Hge ->]].
    + exists x. split; [apply in_or_app; right; left; reflexivity | reflexivity].
    + destruct Ha as [[-> ->]|[c [Hc Hcm]]].
      * exfalso. unfold occurrences in Hge. simpl in Hge.
        destruct (string_dec x x); [simpl in Hge; lia | congruence].
      * exists c. split; [apply in_or_app; left; exact Hc|].
        rewrite occurrences_snoc.
        destruct (string_dec x c) as [->|_]; [|lia].
        rewrite occurrences_snoc in Hge.
        destruct (string_dec c c); [lia | congruence].
Qed.

Lemma foldM_count_contact (todo done : list string) (st : dict Z * Z) :
  counted done st ->
  exists st', foldM count_contact todo st = Ok st' /\ counted (done ++ todo) st'.
Proof.
  revert done st. induction todo as [|x todo IH]; intros done st H; simpl.
  - exists st. rewrite app_nil_r. split; [reflexivity | exact H].
  - destruct st as [uc mx]. rewrite count_contact_ok. cbn [bind].
    replace (done ++ x :: todo) with ((done ++ [x]) ++ todo)
      by (rewrite <- app_assoc; reflexivity).
    apply IH. eapply count_contact_counted; [exact H|].
    apply count_contact_ok.
Qed.

(** The second loop. *)
Lemma tally_fold (max_num_models : Z) (unique_contacts : dict Z)
  (n s m : Z) :
  fold_left (tally max_num_models) unique_contacts (n, s, m)
  = ((n + Z.of_nat (length unique_contacts))%Z,
     (s + values_sum unique_contacts)%Z,
     (m + Z.of_nat (length (filter (fun kv => (snd kv =? max_num_models)%Z)
                              unique_contacts)))%Z).
Proof.
  revert n s m. induction unique_contacts as [|[k v] d IH]; intros n s m.
  - simpl. unfold values_sum. simpl.
    repeat match goal with |- (_, _) = (_, _) => apply f_equal2 end; lia.
  - cbn [fold_left tally snd]. rewrite IH. unfold values_sum.
    cbn [map snd fold_right filter length].
    destruct (v =? max_num_models)%Z; cbn [length];
      repeat match goal with |- (_, _) = (_, _) => apply f_equal2 end; lia.
Qed.

Lemma filter_length_perm {A : Type} (f : A -> bool) (l l' : list A) :
  Permutation l l' -> length (filter f l) = length (filter f l').
Proof.
  intros H. induction H; simpl.
  - reflexivity.
  - destruct (f x); simpl; congruence.
  - destruct (f x), (f y); reflexivity.
  - congruence.
Qed.

Lemma filter_map_length {A B : Type} (g : A -> B) (f : B -> bool) (l : list A) :
  length (filter f (map g l)) = length (filter (fun a => f (g a)) l).
Proof.
  induction l as [|a l IH]; simpl; [reflexivity|].
  destruct (f (g a)); simpl; congruence.
Qed.

Lemma filter_ext_in_length {A : Type} (f g : A -> bool) (l : list A) :
  (forall a, In a l -> f a = g a) ->
  length (filter f l) = length (filter g l).
Proof.
  intros H. rewrite (filter_ext_in f g l H). reflexivity.
Qed.

(** The result, from the dictionary and the maximum that the first loop
    ends with. *)
Lemma summarize_interface_statistics_counted
  (interfaces : list (Z * dict (dict contact_entry))) :
  exists unique_contacts max_num_models,
    counted (contact_ids interfaces) (unique_contacts, max_num_models) /\
    summarize_interface_statistics interfaces
    = Ok {| max_n_models := max_num_models;
            avg_n_models :=
              if (0 <? Z.of_nat (length unique_contacts))%Z
              then round1
                     (nearest_double
                        (inject_Z (values_sum unique_contacts)
                         / inject_Z (Z.of_nat (length unique_contacts))))
              else 0;
            num_contacts_with_max_n_models :=
              Z.of_nat (length (filter
                                  (fun kv => (snd kv =? max_num_models)%Z)
                                  unique_contacts));
            num_unique_contacts := Z.of_nat (length unique_contacts) |}.
Proof.
  unfold summarize_interface_statistics.
  rewrite loops_over_contact_ids.
  destruct (@foldM_count_contact (contact_ids interfaces) [] ([], 0%Z)
              counted_init) as [[uc mx] [E H]].
  simpl app in H. rewrite E. cbn [bind fst snd].
  rewrite tally_fold. rewrite !Z.add_0_l.
  exists uc, mx. split; [exact H | reflexivity].
Qed.

Lemma counted_keys (ids : list string) (unique_contacts : dict Z)
  (max_num_models : Z) :
  counted ids (unique_contacts, max_num_models) ->
  Permutation (map fst unique_contacts) (nodup string_dec ids).
Proof.
  intros [Hk Hg _ _ _]. cbn [fst snd] in *.
  apply NoDup_Permutation; [exact Hk | apply NoDup_nodup |].
  intros c. rewrite nodup_In, dict_get_in_keys, Hg.
  destruct (in_dec string_dec c ids); split; intros; try congruence;
    try contradiction.
Qed.

(** X11.  [summarize_interface_statistics] never raises.  Its number of
    unique contacts is the number of distinct contact ids over all
    models and chain pairs, [max_n_models] is the largest number of
    occurrences of an id (0 without contacts) and is reached by an id,
    [num_contacts_with_max_n_models] is the number of ids that occur
    that often, and [avg_n_models] is the number of id occurrences
    divided by the number of distinct ids, as the double nearest to the
    quotient, rounded to one decimal. *)
Theorem summary_counts_contact_ids
  (interfaces : list (Z * dict (dict contact_entry))) :
  exists s,
    summarize_interface_statistics interfaces = Ok s /\
    num_unique_contacts s
    = Z.of_nat (length (nodup string_dec (contact_ids interfaces))) /\
    (forall contact_id,
       (occurrences (contact_ids interfaces) contact_id <= max_n_models s)%Z) /\
    (contact_ids interfaces = [] -> max_n_models s = 0%Z) /\
    (contact_ids interfaces <> [] ->
     exists contact_id,
       In contact_id (contact_ids interfaces) /\
       occurrences (contact_ids interfaces) contact_id = max_n_models s) /\
    num_contacts_with_max_n_models s
    = Z.of_nat (length (filter
                          (fun contact_id =>
                             (occurrences (contact_ids interfaces) contact_id
                              =? max_n_models s)%Z)
                          (nodup string_dec (contact_ids interfaces)))) /\
    avg_n_models s
    = (if (0 <? length (nodup string_dec (contact_ids interfaces)))%nat
       then round1
              (nearest_double
                 (inject_Z (Z.of_nat (length (contact_ids interfaces)))
                  / inject_Z
                      (Z.of_nat
                         (length (nodup string_dec (contact_ids interfaces))))))
       else 0).
Proof.
  destruct (summarize_interface_statistics_counted interfaces)
    as (uc & mx & H & ->).
  set (ids := contact_ids interfaces) in *.
  set (unique := nodup string_dec ids).
  pose proof (counted_keys H) as Hperm. fold unique in Hperm.
  destruct H as [Hk Hg Hs Hm Ha]. cbn [fst snd] in *.
  assert (length uc = length unique) as Hlen.
  { rewrite <- (Permutation_length Hperm). rewrite length_map. reflexivity. }
  eexists. split; [reflexivity|]. cbn [num_unique_contacts max_n_models
    num_contacts_with_max_n_models avg_n_models].
  split; [rewrite Hlen; reflexivity|].
  split; [exact Hm|].
  split.
  { intros E0. destruct Ha as [[_ ->]|[c [Hc _]]]; [reflexivity|].
    rewrite E0 in Hc. destruct Hc. }
  split.
  { intros Hne. destruct Ha as [[E0 _]|Hex]; [congruence | exact Hex]. }
  split.
  { f_equal.
    rewrite <- (filter_length_perm
                  (fun c => (occurrences ids c =? mx)%Z) Hperm).
    rewrite filter_map_length. apply filter_ext_in_length.
    intros [k v] Hin. cbn [fst snd].
    apply (@in_dict_get _ uc k v Hk) in Hin. rewrite Hg in Hin.
    destruct (in_dec string_dec k ids); [|discriminate].
    injection Hin as <-. reflexivity. }
  rewrite Hs, Hlen.
  destruct (0 <? length unique)%nat eqn:E0.
  - apply Nat.ltb_lt in E0.
    assert ((0 <? Z.of_nat (length unique))%Z = true) as ->
        by (apply Z.ltb_lt; lia).
    reflexivity.
  - apply Nat.ltb_ge in E0.
    assert ((0 <? Z.of_nat (length unique))%Z = false) as ->
        by (apply Z.ltb_ge; lia).
    reflexivity.
Qed.

(** Twenty contacts, three of them in both models: the quotient 23 / 20
    is stored as a double below 1.15, and the average is 1.1 and not
    1.2. *)
Example summary_of_23_occurrences_of_20_ids :
  exists s,
    summarize_interface_statistics consensus_interfaces = Ok s /\
    max_n_models s = 2%Z /\
    num_contacts_with_max_n_models s = 3%Z /\
    num_unique_contacts s = 20%Z /\
    nearest_double (23 # 20) < 23 # 20 /\
    avg_n_models s == 11 # 10.
Proof.
  eexists. split; [vm_compute; reflexivity|].
  repeat split; vm_compute; reflexivity.
Qed.

(** A tie that a double holds exactly goes to the even tenth:
    [round(5 / 4, 1)] is 1.2. *)
Example nearest_double_of_an_exact_tie :
  nearest_double (5 # 4) == 5 # 4 /\ round1 (nearest_double (5 # 4)) == 6 # 5.
Proof. split; vm_compute; reflexivity. Qed.

(** ** Contact ids *)

Lemma string_of_uint_no_ampersand (d : Decimal.uint) :
  lacks "&" (NilEmpty.string_of_uint d).
Proof.
  unfold lacks.
  induction d; simpl; constructor; try discriminate; assumption.
Qed.

Lemma str_of_int_no_ampersand (n : Z) : lacks "&" (str_of_int n).
Proof.
  unfold str_of_int, NilZero.string_of_int.
  assert (forall d, lacks "&" (NilZero.string_of_uint d)) as H.
  { intros d. destruct d; try apply string_of_uint_no_ampersand.
    unfold lacks. simpl. constructor; [discriminate | constructor]. }
  destruct (Z.to_int n) as [d|d]; [apply H|].
  unfold lacks. simpl. constructor; [discriminate | apply H].
Qed.

Lemma str_of_int_inj (a b : Z) : str_of_int a = str_of_int b -> a = b.
Proof.
  unfold str_of_int. intros H.
  assert (forall z, NilZero.int_of_string (NilZero.string_of_int (Z.to_int z))
                    = Some (Z.to_int z)) as Hisi.
  { intros z. apply NilZero.isi; destruct z; simpl; try discriminate;
      intros E; injection E as E; revert E; apply Unsigned.to_uint_nonnil. }
  pose proof (Hisi a) as Ha. rewrite H, Hisi in Ha. injection Ha as Ha.
  rewrite <- (DecimalZ.of_to a), <- (DecimalZ.of_to b), Ha. reflexivity.
Qed.

Lemma split_at_ampersand (s1 t1 s2 t2 : string) :
  lacks "&" s1 -> lacks "&" s2 ->
  (s1 ++ String "&" t1 = s2 ++ String "&" t2)%string -> s1 = s2 /\ t1 = t2.
Proof.
  unfold lacks. revert s2.
  induction s1 as [|c s1 IH]; intros [|c2 s2] H1 H2 E; simpl in *.
  - injection E as <-. split; reflexivity.
  - injection E as <- _. inversion H2; congruence.
  - injection E as -> _. inversion H1; congruence.
  - injection E as <- E. inversion H1; inversion H2; subst.
    destruct (IH s2) as [-> ->]; try assumption. split; reflexivity.
Qed.

Lemma contact_id_inj (a0 a1 b0 b1 : Z) :
  (str_of_int a0 ++ "&" ++ str_of_int a1
   = str_of_int b0 ++ "&" ++ str_of_int b1)%string ->
  a0 = b0 /\ a1 = b1.
Proof.
  intros E.
  apply split_at_ampersand in E; try apply str_of_int_no_ampersand.
  destruct E as [E0 E1].
  split; apply str_of_int_inj; assumption.
Qed.

(** ** Keys of the dictionaries that [get_contacts] builds *)

Lemma dict_set_NoDup {V : Type} (d : dict V) (k : string) (v : V) :
  NoDup (map fst d) -> NoDup (map fst (dict_set k v d)).
Proof.
  intros H. rewrite keys_set. unfold dict_mem.
  destruct (dict_get k d) eqn:E; [exact H|].
  apply NoDup_app; [exact H | repeat constructor; intros [] |].
  intros y Hy [Ey|[]]. subst y. apply dict_get_in_keys in Hy. congruence.
Qed.

Lemma add_contact_keys_distinct (cid id : string) (e : contact_entry)
  (d : dict (dict contact_entry)) :
  keys_distinct d -> keys_distinct (add_contact cid id e d).
Proof.
  intros [H1 H2]. unfold add_contact. split.
  - apply dict_set_NoDup, H1.
  - apply (@dict_set_Forall _
             (fun _ (v : dict contact_entry) => NoDup (map fst v)));
      [exact H2|].
    apply dict_set_NoDup.
    destruct (dict_get cid d) as [inner|] eqn:Eg; [|constructor].
    exact (@dict_get_Forall _
             (fun _ (v : dict contact_entry) => NoDup (map fst v))
             d cid inner H2 Eg).
Qed.

Lemma foldM_keys_distinct (ignore_pae : bool) (pae_data : list pae_token)
  (N : Z) (max_pae : Q) (pae_mode valid_aas : string) (model_num : Z)
  (todo : list contact) (d d' : dict (dict contact_entry)) :
  keys_distinct d ->
  foldM (filter_step ignore_pae pae_data N max_pae pae_mode valid_aas model_num)
    todo d = Ok d' ->
  keys_distinct d'.
Proof.
  revert d. induction todo as [|c todo IH]; intros d Hd H; simpl in H.
  - injection H as <-. exact Hd.
  - match type of H with
    | (s' <- ?p ;; _) = _ => destruct p as [d1|] eqn:E; [|discriminate]
    end.
    cbn [bind] in H. apply (IH d1); [|exact H].
    unfold filter_step in E.
    match type of E with
    | (kept <- ?p ;; _) = _ => destruct p as [r|]; [|discriminate]
    end.
    cbn [bind] in E. destruct r as [[[cid id] e]|]; injection E as <-.
    + apply add_contact_keys_distinct, Hd.
    + exact Hd.
Qed.

Section StoredContacts.

Variable get_lines_from_pdb_file : string -> result (list pdb_line).
Variable pae_payload : string -> result (list pae_token).

Lemma get_contacts_stored (pdb_filename pae_filename : string)
  (max_distance min_plddt max_pae : Q) (pae_mode valid_aas : string)
  (d : dict (dict contact_entry)) :
  get_contacts get_lines_from_pdb_file pae_payload pdb_filename pae_filename
    max_distance min_plddt max_pae pae_mode valid_aas = Ok d ->
  exists model_num contacts,
    get_af_model_num pdb_filename = Ok model_num /\
    (1 <= model_num <= 5)%Z /\
    get_contacts_from_structure get_lines_from_pdb_file pdb_filename
      max_distance min_plddt valid_aas false = Ok contacts /\
    stored (String.length pae_filename =? 0)%nat max_pae pae_mode valid_aas
      model_num contacts d /\
    keys_distinct d.
Proof.
  unfold get_contacts. intros H.
  destruct (get_af_model_num pdb_filename) as [n|]; [|discriminate].
  cbn [bind] in H.
  destruct ((n <? 1)%Z || (5 <? n)%Z) eqn:En; [discriminate|].
  apply orb_false_iff in En. destruct En as [E1 E2].
  apply Z.ltb_ge in E1. apply Z.ltb_ge in E2.
  match type of H with
  | (ok <- ?p ;; _) = _ => destruct p as [same|]; [|discriminate]
  end.
  cbn [bind] in H. destruct same; [|discriminate]. cbn [negb] in H.
  match type of H with
  | (cs <- ?p ;; _) = _ => destruct p as [contacts|]; [|discriminate]
  end.
  cbn [bind] in H.
  exists n, contacts. split; [reflexivity|]. split; [lia|].
  split; [reflexivity|].
  destruct (length contacts <? 1)%nat.
  - injection H as <-. split; [constructor|]. split; constructor.
  - match type of H with
    | (pae <- ?p ;; _) = _ => destruct p as [pae|]; [|discriminate]
    end.
    cbn [bind] in H. split.
    + eapply foldM_stored; [apply incl_refl | constructor | exact H].
    + eapply foldM_keys_distinct; [|exact H]. split; constructor.
Qed.

End StoredContacts.

Lemma NoDup_flat_map_keys {V : Type} (d : dict (dict V)) :
  NoDup (map fst d) ->
  Forall (fun kv => NoDup (map fst (snd kv))) d ->
  (forall k inner k' inner' id,
     In (k, inner) d -> In (k', inner') d ->
     In id (map fst inner) -> In id (map fst inner') -> k = k') ->
  NoDup (flat_map (fun kv => map fst (snd kv)) d).
Proof.
  induction d as [|[k inner] d IH]; intros Hk Hi Hd; simpl; [constructor|].
  simpl in Hk. inversion Hk as [|? ? Hn Hk']; subst.
  inversion Hi as [|? ? Hin Hi']; subst.
  apply NoDup_app.
  - exact Hin.
  - apply IH; [exact Hk' | exact Hi'|].
    intros k1 i1 k2 i2 id H1 H2. apply Hd; right; assumption.
  - intros id Hid Hrest. apply in_flat_map in Hrest.
    destruct Hrest as [[k' inner'] [Hin' Hid']]. simpl in Hid'.
    assert (k = k') as <-.
    { apply (Hd k inner k' inner' id); try assumption.
      - left. reflexivity.
      - right. exact Hin'. }
    apply Hn. apply (in_map fst) in Hin'. exact Hin'.
Qed.

Lemma stored_ids_distinct (min_plddt : Q) (lines : list pdb_line)
  (st : parse_state) (max_distance : Q) (ignore_pae : bool) (max_pae : Q)
  (pae_mode valid_aas : string) (model_num : Z) (contacts : list contact)
  (d : dict (dict contact_entry)) :
  parse_structure min_plddt valid_aas lines = Ok st ->
  find_contacts max_distance false st = Ok contacts ->
  stored ignore_pae max_pae pae_mode valid_aas model_num contacts d ->
  keys_distinct d ->
  NoDup (model_contact_ids d).
Proof.
  intros Hp Hf Hs [Hk Hi].
  pose proof (parse_structure_well_formed _ _ _ Hp) as Hwf.
  pose proof (fun c c' => @parsed_contacts_unique min_plddt valid_aas st
                max_distance contacts c c' Hwf Hf) as Huniq.
  apply NoDup_flat_map_keys; [exact Hk | exact Hi|].
  intros k inner k' inner' id H1 H2 Hid Hid'.
  unfold stored in Hs. rewrite Forall_forall in Hs.
  destruct (Hs _ H1) as [_ He]. destruct (Hs _ H2) as [_ He'].
  cbn [fst snd] in He, He'. rewrite Forall_forall in He, He'.
  apply in_map_iff in Hid. destruct Hid as [[id1 e] [<- Hin]].
  apply in_map_iff in Hid'. destruct Hid' as [[id2 e'] [E Hin']].
  cbn [fst] in E. subst id2.
  destruct (He _ Hin) as [c [Hc Hec]]. destruct (He' _ Hin') as [c' [Hc' Hec']].
  cbn [fst snd] in Hec, Hec'.
  destruct Hec as (-> & Eid & _). destruct Hec' as (-> & Eid' & _).
  rewrite Eid in Eid'. apply contact_id_inj in Eid'. destruct Eid' as [E0 E1].
  rewrite (Huniq c c' Hc Hc' E0 E1). reflexivity.
Qed.

Lemma occurrences_models (interfaces : list (Z * dict (dict contact_entry)))
  (contact_id : string) :
  Forall (fun model => NoDup (model_contact_ids (snd model))) interfaces ->
  (occurrences (contact_ids interfaces) contact_id
   <= Z.of_nat (length interfaces))%Z.
Proof.
  unfold occurrences, contact_ids.
  induction 1 as [|model l Hm _ IH]; cbn [flat_map length]; [simpl; lia|].
  rewrite count_occ_app.
  rewrite (NoDup_count_occ string_dec) in Hm. specialize (Hm contact_id).
  unfold model_contact_ids in Hm. rewrite Nat2Z.inj_add, Nat2Z.inj_succ.
  apply Z.le_trans with (1 + Z.of_nat (length l))%Z; [|lia].
  apply Z.add_le_mono; [|exact IH].
  apply (inj_le _ 1%nat). exact Hm.
Qed.

Section Consensus.

Variable get_lines_from_pdb_file : string -> result (list pdb_line).
Variable pae_payload : string -> result (list pae_token).

Lemma contacts_of_a_model_ids (contacts : dict (dict contact_entry)) :
  contacts_of_a_model get_lines_from_pdb_file pae_payload contacts -> NoDup (model_contact_ids contacts).
Proof.
  intros (pdb & pae & maxd & minp & maxpae & mode & aas & H).
  apply get_contacts_stored in H.
  destruct H as (n & cs & _ & _ & Hcs & Hs & Hk).
  unfold get_contacts_from_structure in Hcs.
  destruct (get_lines_from_pdb_file pdb) as [lines|]; [|discriminate].
  cbn [bind] in Hcs.
  destruct (parse_structure minp aas lines) as [st|] eqn:Hp; [|discriminate].
  cbn [bind] in Hcs.
  exact (@stored_ids_distinct minp lines st maxd _ maxpae mode aas n cs
           contacts Hp Hcs Hs Hk).
Qed.

(** X12.  When every model's contacts are what [get_contacts] returned
    for some pair of files, a contact id occurs at most once in a model
    (also across its chain pairs), so [max_n_models] is at most the
    number of models; with at least one contact it is at least 1 and is
    reached by at least one contact. *)
Theorem consensus_is_bounded_by_the_number_of_models
  (interfaces : list (Z * dict (dict contact_entry))) :
  Forall (fun model => contacts_of_a_model get_lines_from_pdb_file pae_payload (snd model)) interfaces ->
  exists s,
    summarize_interface_statistics interfaces = Ok s /\
    Forall (fun model => NoDup (model_contact_ids (snd model))) interfaces /\
    (0 <= max_n_models s <= Z.of_nat (length interfaces))%Z /\
    (num_contacts_with_max_n_models s <= num_unique_contacts s)%Z /\
    (contact_ids interfaces <> [] ->
     (1 <= max_n_models s)%Z /\ (1 <= num_contacts_with_max_n_models s)%Z).
Proof.
  intros H.
  assert (Forall (fun model => NoDup (model_contact_ids (snd model)))
            interfaces) as Hnd.
  { eapply Forall_impl; [|exact H]. intros m. apply contacts_of_a_model_ids. }
  destruct (summarize_interface_statistics_counted interfaces)
    as (uc & mx & Hc & ->).
  destruct Hc as [Hk Hg _ Hm Ha]. cbn [fst snd] in *.
  eexists. split; [reflexivity|]. split; [exact Hnd|].
  cbn [max_n_models num_contacts_with_max_n_models num_unique_contacts].
  pose proof (filter_length_le (fun kv : string * Z => (snd kv =? mx)%Z) uc)
    as Hfl.
  destruct Ha as [[E0 ->]|(c & Hc & Hcm)].
  - split; [lia|]. split; [lia|]. congruence.
  - pose proof (occurrences_models c Hnd) as Hb.
    pose proof (proj1 (occurrences_pos _ _) Hc) as Hpos.
    split; [lia|]. split; [lia|]. intros _. split; [lia|].
    assert (In (c, mx) (filter (fun kv : string * Z => (snd kv =? mx)%Z) uc))
      as Hinf.
    { apply filter_In. split; [|apply Z.eqb_refl].
      apply dict_get_in. rewrite Hg.
      destruct (in_dec string_dec c (contact_ids interfaces));
        [rewrite Hcm; reflexivity | contradiction]. }
    destruct (filter _ uc); [destruct Hinf | simpl length; lia].
Qed.

End Consensus.

(** The theorem on the contacts of one model. *)
Lemma consensus_is_bounded_by_the_number_of_models_witness :
  exists s,
    summarize_interface_statistics [(1%Z, near_contacts)] = Ok s /\
    Forall (fun model => NoDup (model_contact_ids (snd model)))
      [(1%Z, near_contacts)] /\
    (0 <= max_n_models s <= Z.of_nat (length [(1%Z, near_contacts)]))%Z /\
    (num_contacts_with_max_n_models s <= num_unique_contacts s)%Z /\
    (contact_ids [(1%Z, near_contacts)] <> [] ->
     (1 <= max_n_models s)%Z /\ (1 <= num_contacts_with_max_n_models s)%Z).
Proof.
  apply (@consensus_is_bounded_by_the_number_of_models sample_pdb_files
           sample_pae_files [(1%Z, near_contacts)]).
  constructor; [|constructor].
  exists "a_b_model_1.pdb"%string, "a_b_model_1.json"%string, 8, 50, 15,
    "min"%string, ""%string.
  vm_compute. reflexivity.
Defined.

(** ** Sorting the files by model number *)

Lemma insert_by_key_perm (x : Z * string) (l : list (Z * string)) :
  Permutation (insert_by_key x l) (x :: l).
Proof.
  induction l as [|y l IH]; simpl; [apply Permutation_refl|].
  destruct (fst x <=? fst y)%Z; [apply Permutation_refl|].
  apply perm_trans with (y :: x :: l); [|apply perm_swap].
  apply perm_skip, IH.
Qed.

Lemma insert_by_key_sorted (x : Z * string) (l : list (Z * string)) :
  StronglySorted Z.le (map fst l) ->
  StronglySorted Z.le (map fst (insert_by_key x l)).
Proof.
  induction l as [|y l IH]; intros H; simpl.
  - repeat constructor.
  - inversion H as [|? ? Hs Hf]; subst.
    destruct (Z.leb_spec (fst x) (fst y)) as [Hle|Hgt]; simpl.
    + constructor; [exact H|]. constructor; [exact Hle|].
      eapply Forall_impl; [|exact Hf]. intros a Ha. lia.
    + constructor; [apply IH, Hs|].
      apply Forall_forall. intros a Ha.
      apply (Permutation_in a (Permutation_map fst (insert_by_key_perm x l)))
        in Ha.
      destruct Ha as [<-|Ha]; [lia|].
      rewrite Forall_forall in Hf. apply Hf, Ha.
Qed.

Lemma insert_by_key_stable (n : Z) (x : Z * string) (l : list (Z * string)) :
  filter (fun kf => (fst kf =? n)%Z) (insert_by_key x l)
  = filter (fun kf => (fst kf =? n)%Z) (x :: l).
Proof.
  induction l as [|y l IH]; [reflexivity|].
  cbn [insert_by_key].
  destruct (Z.leb_spec (fst x) (fst y)) as [Hle|Hgt]; [reflexivity|].
  cbn [filter] in *. rewrite IH.
  destruct (Z.eqb_spec (fst x) n), (Z.eqb_spec (fst y) n);
    try reflexivity. lia.
Qed.

Lemma sort_pairs_perm (l : list (Z * string)) :
  Permutation (fold_right insert_by_key [] l) l.
Proof.
  induction l as [|x l IH]; simpl; [constructor|].
  eapply perm_trans; [apply insert_by_key_perm|]. apply perm_skip, IH.
Qed.

Lemma sort_pairs_sorted (l : list (Z * string)) :
  StronglySorted Z.le (map fst (fold_right insert_by_key [] l)).
Proof.
  induction l as [|x l IH]; simpl; [constructor|].
  apply insert_by_key_sorted, IH.
Qed.

Lemma sort_pairs_stable (n : Z) (l : list (Z * string)) :
  filter (fun kf => (fst kf =? n)%Z) (fold_right insert_by_key [] l)
  = filter (fun kf => (fst kf =? n)%Z) l.
Proof.
  induction l as [|x l IH]; simpl; [reflexivity|].
  rewrite insert_by_key_stable. simpl. rewrite IH. reflexivity.
Qed.

Lemma mapM_keyed (files : list string) (keys : list Z) :
  mapM get_af_model_num files = Ok keys ->
  keyed (combine keys files) /\ map snd (combine keys files) = files /\
  length keys = length files.
Proof.
  revert keys. induction files as [|f files IH]; intros keys H; simpl in H.
  - injection H as <-. repeat split. constructor.
  - destruct (get_af_model_num f) as [k|] eqn:Ek; [|discriminate].
    cbn [bind] in H.
    destruct (mapM get_af_model_num files) as [ks|]; [|discriminate].
    cbn [bind] in H. injection H as <-.
    destruct (IH ks eq_refl) as (H1 & H2 & H3). simpl.
    repeat split; [constructor; [exact Ek | exact H1] | congruence | congruence].
Qed.

Lemma keyed_mapM (l : list (Z * string)) :
  keyed l -> mapM get_af_model_num (map snd l) = Ok (map fst l).
Proof.
  induction 1 as [|kf l Hk _ IH]; simpl; [reflexivity|].
  rewrite Hk. cbn [bind]. rewrite IH. reflexivity.
Qed.

Lemma keyed_filter (n : Z) (l : list (Z * string)) :
  keyed l ->
  filter (has_model_num n) (map snd l)
  = map snd (filter (fun kf => (fst kf =? n)%Z) l).
Proof.
  induction 1 as [|kf l Hk _ IH]; simpl; [reflexivity|].
  unfold has_model_num at 1. rewrite Hk.
  destruct (fst kf =? n)%Z; simpl; rewrite IH; reflexivity.
Qed.

Lemma sort_by_model_num_pairs (files sorted : list string) :
  sort_by_model_num files = Ok sorted ->
  exists keys,
    mapM get_af_model_num files = Ok keys /\
    sorted = map snd (fold_right insert_by_key [] (combine keys files)).
Proof.
  unfold sort_by_model_num. intros H.
  destruct (mapM get_af_model_num files) as [keys|]; [|discriminate].
  cbn [bind] in H. injection H as <-. exists keys. split; reflexivity.
Qed.

(** X13.  Sorting the files by model number rearranges them without
    loss, leaves their model numbers in non-decreasing order, and keeps
    the files of equal model number in their former order. *)
Theorem sort_by_model_num_is_a_stable_sort (files sorted : list string) :
  sort_by_model_num files = Ok sorted ->
  Permutation files sorted /\
  (exists keys,
     mapM get_af_model_num sorted = Ok keys /\ StronglySorted Z.le keys) /\
  (forall n, filter (has_model_num n) sorted = filter (has_model_num n) files).
Proof.
  intros H. apply sort_by_model_num_pairs in H. destruct H as (keys & Hk & ->).
  destruct (mapM_keyed _ Hk) as (Hkeyed & Hfiles & _).
  assert (keyed (fold_right insert_by_key [] (combine keys files))) as Hs.
  { unfold keyed. apply Forall_forall. intros kf Hin.
    apply (Permutation_in kf (sort_pairs_perm (combine keys files))) in Hin.
    unfold keyed in Hkeyed. rewrite Forall_forall in Hkeyed.
    apply Hkeyed, Hin. }
  split; [|split].
  - rewrite <- Hfiles at 1. apply Permutation_map, Permutation_sym,
      sort_pairs_perm.
  - exists (map fst (fold_right insert_by_key [] (combine keys files))).
    split; [apply keyed_mapM, Hs | apply sort_pairs_sorted].
  - intros n. rewrite (keyed_filter n Hs), sort_pairs_stable.
    rewrite <- (keyed_filter n Hkeyed), Hfiles. reflexivity.
Qed.

Lemma sorted_perm_eq (l1 l2 : list Z) :
  StronglySorted Z.le l1 -> StronglySorted Z.le l2 -> Permutation l1 l2 ->
  l1 = l2.
Proof.
  revert l2. induction l1 as [|a l1 IH]; intros l2 H1 H2 Hp.
  - apply Permutation_nil in Hp. congruence.
  - destruct l2 as [|b l2].
    { apply Permutation_sym, Permutation_nil in Hp. discriminate. }
    inversion H1 as [|? ? Hs1 Hf1]; inversion H2 as [|? ? Hs2 Hf2]; subst.
    rewrite Forall_forall in Hf1, Hf2.
    assert (a = b) as <-.
    { assert (In b (a :: l1)) as Hb
          by (apply (Permutation_in b (Permutation_sym Hp)); left; reflexivity).
      assert (In a (b :: l2)) as Ha
          by (apply (Permutation_in a Hp); left; reflexivity).
      destruct Hb as [Hb|Hb]; [exact Hb|].
      destruct Ha as [Ha|Ha]; [congruence|].
      specialize (Hf1 _ Hb). specialize (Hf2 _ Ha). lia. }
    f_equal. apply IH; [exact Hs1 | exact Hs2|].
    apply Permutation_cons_inv with a. exact Hp.
Qed.

Lemma mapM_Forall2 (l1 l2 : list string) (keys : list Z) :
  mapM get_af_model_num l1 = Ok keys ->
  mapM get_af_model_num l2 = Ok keys ->
  Forall2 (fun p q => exists n, get_af_model_num p = Ok n /\
                                get_af_model_num q = Ok n) l1 l2.
Proof.
  revert l2 keys. induction l1 as [|p l1 IH]; intros l2 keys H1 H2;
    simpl in H1.
  - injection H1 as <-. destruct l2 as [|q l2]; [constructor|].
    simpl in H2. destruct (get_af_model_num q); [|discriminate].
    cbn [bind] in H2. destruct (mapM get_af_model_num l2); discriminate.
  - destruct (get_af_model_num p) as [k|] eqn:Ep; [|discriminate].
    cbn [bind] in H1.
    destruct (mapM get_af_model_num l1) as [ks|] eqn:E1; [|discriminate].
    cbn [bind] in H1. injection H1 as <-.
    destruct l2 as [|q l2]; [discriminate|]. simpl in H2.
    destruct (get_af_model_num q) as [k'|] eqn:Eq; [|discriminate].
    cbn [bind] in H2.
    destruct (mapM get_af_model_num l2) as [ks'|] eqn:E2; [|discriminate].
    cbn [bind] in H2. injection H2 as -> ->.
    constructor; [exists k; split; assumption|].
    apply (IH l2 ks); [reflexivity | exact E2].
Qed.

(** X14.  When the structure files and the matrix files carry the same
    model numbers (in any order), the two sorted lists agree position
    by position: the files that the loop pairs have the same model
    number. *)
Theorem sorted_files_are_aligned_by_model_number
  (pdb_filepaths pae_filepaths pdb_sorted pae_sorted : list string)
  (pdb_nums pae_nums : list Z) :
  mapM get_af_model_num pdb_filepaths = Ok pdb_nums ->
  mapM get_af_model_num pae_filepaths = Ok pae_nums ->
  Permutation pdb_nums pae_nums ->
  sort_by_model_num pdb_filepaths = Ok pdb_sorted ->
  sort_by_model_num pae_filepaths = Ok pae_sorted ->
  Forall2 (fun pdb_filename pae_filename =>
             exists n, get_af_model_num pdb_filename = Ok n /\
                       get_af_model_num pae_filename = Ok n)
          pdb_sorted pae_sorted.
Proof.
  intros Hk1 Hk2 Hp H1 H2.
  apply sort_by_model_num_pairs in H1, H2.
  destruct H1 as (k1 & Hk1' & ->). destruct H2 as (k2 & Hk2' & ->).
  rewrite Hk1 in Hk1'. rewrite Hk2 in Hk2'.
  injection Hk1' as <-. injection Hk2' as <-.
  destruct (mapM_keyed _ Hk1) as (Hkeyed1 & Hf1 & Hl1).
  destruct (mapM_keyed _ Hk2) as (Hkeyed2 & Hf2 & Hl2).
  set (s1 := fold_right insert_by_key [] (combine pdb_nums pdb_filepaths)).
  set (s2 := fold_right insert_by_key [] (combine pae_nums pae_filepaths)).
  assert (keyed s1) as Hs1.
  { unfold keyed. apply Forall_forall. intros kf Hin.
    apply (Permutation_in kf (sort_pairs_perm _)) in Hin.
    unfold keyed in Hkeyed1. rewrite Forall_forall in Hkeyed1.
    apply Hkeyed1, Hin. }
  assert (keyed s2) as Hs2.
  { unfold keyed. apply Forall_forall. intros kf Hin.
    apply (Permutation_in kf (sort_pairs_perm _)) in Hin.
    unfold keyed in Hkeyed2. rewrite Forall_forall in Hkeyed2.
    apply Hkeyed2, Hin. }
  assert (map fst (combine pdb_nums pdb_filepaths) = pdb_nums) as Hm1.
  { clear -Hl1. revert pdb_filepaths Hl1.
    induction pdb_nums as [|k ks IH]; intros [|f fs] Hl; simpl in *;
      try discriminate; try reflexivity.
    f_equal. apply IH. lia. }
  assert (map fst (combine pae_nums pae_filepaths) = pae_nums) as Hm2.
  { clear -Hl2. revert pae_filepaths Hl2.
    induction pae_nums as [|k ks IH]; intros [|f fs] Hl; simpl in *;
      try discriminate; try reflexivity.
    f_equal. apply IH. lia. }
  assert (map fst s1 = map fst s2) as Heq.
  { apply sorted_perm_eq; try apply sort_pairs_sorted.
    apply perm_trans with (map fst (combine pdb_nums pdb_filepaths));
      [apply Permutation_map, sort_pairs_perm|].
    apply perm_trans with (map fst (combine pae_nums pae_filepaths));
      [rewrite Hm1, Hm2; exact Hp|].
    apply Permutation_map, Permutation_sym, sort_pairs_perm. }
  apply (@mapM_Forall2 (map snd s1) (map snd s2) (map fst s1)).
  - apply keyed_mapM, Hs1.
  - rewrite Heq. apply keyed_mapM, Hs2.
Qed.

(** The theorem on two files given in reverse order. *)
Lemma sort_by_model_num_is_a_stable_sort_witness :
  Permutation ["x_model_2.pdb"; "x_model_1.pdb"]%string
    ["x_model_1.pdb"; "x_model_2.pdb"]%string /\
  (exists keys,
     mapM get_af_model_num ["x_model_1.pdb"; "x_model_2.pdb"]%string = Ok keys /\
     StronglySorted Z.le keys) /\
  (forall n,
     filter (has_model_num n) ["x_model_1.pdb"; "x_model_2.pdb"]%string
     = filter (has_model_num n) ["x_model_2.pdb"; "x_model_1.pdb"]%string).
Proof.
  apply (@sort_by_model_num_is_a_stable_sort
           ["x_model_2.pdb"; "x_model_1.pdb"]%string
           ["x_model_1.pdb"; "x_model_2.pdb"]%string).
  vm_compute. reflexivity.
Defined.

(** The theorem on two structure files in reverse order and their
    matrix files. *)
Lemma sorted_files_are_aligned_by_model_number_witness :
  Forall2 (fun pdb_filename pae_filename =>
             exists n, get_af_model_num pdb_filename = Ok n /\
                       get_af_model_num pae_filename = Ok n)
    ["x_model_1.pdb"; "x_model_2.pdb"]%string
    ["x_model_1.json"; "x_model_2.json"]%string.
Proof.
  apply (@sorted_files_are_aligned_by_model_number
           ["x_model_2.pdb"; "x_model_1.pdb"]%string
           ["x_model_1.json"; "x_model_2.json"]%string
           ["x_model_1.pdb"; "x_model_2.pdb"]%string
           ["x_model_1.json"; "x_model_2.json"]%string
           [2; 1]%Z [1; 2]%Z).
  - vm_compute. reflexivity.
  - vm_compute. reflexivity.
  - apply perm_swap.
  - vm_compute. reflexivity.
  - vm_compute. reflexivity.
Defined.

(** ** [str.split] *)

Lemma split_on_nonempty (sep : ascii) (s : string) : split_on sep s <> [].
Proof.
  destruct s as [|c s]; simpl; [discriminate|].
  destruct (Ascii.eqb c sep); [discriminate|].
  destruct (split_on sep s); discriminate.
Qed.

Lemma split_on_lacks (sep : ascii) (s : string) :
  lacks sep s -> split_on sep s = [s].
Proof.
  unfold lacks. induction s as [|c s IH]; simpl; intros H; [reflexivity|].
  inversion H as [|? ? Hc Hs]; subst.
  apply Ascii.eqb_neq in Hc. rewrite Hc, (IH Hs). reflexivity.
Qed.

Lemma split_on_app (sep : ascii) (s1 s2 : string) :
  lacks sep s1 ->
  split_on sep (s1 ++ String sep s2) = s1 :: split_on sep s2.
Proof.
  unfold lacks. induction s1 as [|c s1 IH]; simpl; intros H.
  - rewrite Ascii.eqb_refl. reflexivity.
  - inversion H as [|? ? Hc Hs]; subst.
    apply Ascii.eqb_neq in Hc. rewrite Hc, (IH Hs). reflexivity.
Qed.

Lemma split_on_pieces (sep : ascii) (s : string) :
  Forall (lacks sep) (split_on sep s).
Proof.
  unfold lacks. induction s as [|c s IH]; simpl.
  - repeat constructor.
  - destruct (Ascii.eqb_spec c sep) as [->|Hne].
    + constructor; [constructor | exact IH].
    + destruct (split_on sep s) as [|w ws]; [repeat constructor; exact Hne|].
      inversion IH; subst. constructor; [|assumption].
      simpl. constructor; assumption.
Qed.

Lemma concat_cons (sep x : string) (l : list string) :
  l <> [] -> String.concat sep (x :: l) = (x ++ sep ++ String.concat sep l)%string.
Proof. destruct l; [congruence | reflexivity]. Qed.

Lemma split_on_join (sep : ascii) (s : string) :
  String.concat (String sep EmptyString) (split_on sep s) = s.
Proof.
  induction s as [|c s IH]; [reflexivity|]. cbn [split_on].
  pose proof (split_on_nonempty sep s) as Hne.
  destruct (Ascii.eqb_spec c sep) as [->|Hc].
  - rewrite (concat_cons _ _ Hne), IH. reflexivity.
  - destruct (split_on sep s) as [|w ws]; [congruence|].
    destruct ws as [|w2 ws]; simpl in *; rewrite <- IH; reflexivity.
Qed.

(** X15.  Splitting on a separator never returns the empty list, no
    piece holds the separator, and joining the pieces with it gives the
    string back.  For two chain names without the separator, the key
    [chain1:chain2] splits into the two names that are passed to the
    scorer. *)
Theorem split_on_separates_the_chains (sep : ascii) :
  (forall s, split_on sep s <> [] /\
             Forall (lacks sep) (split_on sep s) /\
             String.concat (String sep EmptyString) (split_on sep s) = s) /\
  (forall chain1 chain2,
     lacks sep chain1 -> lacks sep chain2 ->
     split_on sep (chain1 ++ String sep EmptyString ++ chain2)
     = [chain1; chain2]).
Proof.
  split.
  - intros s. split; [apply split_on_nonempty|].
    split; [apply split_on_pieces | apply split_on_join].
  - intros c1 c2 H1 H2. cbn [String.append].
    rewrite (split_on_app _ H1), (split_on_lacks H2). reflexivity.
Qed.

(** ** The labels of the chains *)


Section Labels.

Variable pdockq_rounded : string -> list string -> result Q.
Variable pdb_filename : string.
Variable contacts : dict (dict contact_entry).
Variables chain_list chain_list_lbl : list string.

Hypothesis scorer_returns :
  forall chains, exists q, pdockq_rounded pdb_filename chains = Ok q.





End Labels.


(** ** [analyze_folder] *)

Lemma nth_error_ext_eq {A : Type} (g l : list A) :
  length g = length l ->
  (forall t x, nth_error g t = Some x -> nth_error l t = Some x) ->
  g = l.
Proof.
  revert l. induction g as [|a g IH]; intros [|b l] Hl H; simpl in Hl;
    try discriminate; [reflexivity|].
  pose proof (H 0%nat a eq_refl) as H0. simpl in H0. injection H0 as <-.
  f_equal. apply IH; [lia|]. intros t x Ht. apply (H (S t) x Ht).
Qed.

Section FolderProofs.

Variable get_lines_from_pdb_file : string -> result (list pdb_line).
Variable pae_payload : string -> result (list pae_token).
Variable pdockq_rounded : string -> list string -> result Q.
Variable files_of_complex : string -> list string * list string.

(** X17.  [analyze_folder] returns early when no complex is left after
    the name filter.  Otherwise it analyses only the first group that
    [distribute] makes for [m = min(cpu_count, number of complexes)]
    groups: the complexes at the positions 0, m, 2m, ...  With one CPU
    these are all complexes; with at least as many CPUs as complexes,
    only the first complex is analysed. *)
Theorem analyze_folder_analyses_one_group (complex_name : string)
  (finished : list string) (cpu_count : Z) (name_filter : string)
  (max_distance plddt_cutoff pae_cutoff : Q) (pae_mode valid_aas : string)
  (ignore_pae : bool) :
  (1 <= cpu_count)%Z ->
  let complex_names := filter_names name_filter finished in
  let m := Nat.min (Z.to_nat cpu_count) (length complex_names) in
  (complex_names = [] ->
   analyze_folder get_lines_from_pdb_file pae_payload pdockq_rounded
     files_of_complex complex_name finished cpu_count name_filter
     max_distance plddt_cutoff pae_cutoff pae_mode valid_aas ignore_pae
   = Ok None) /\
  (complex_names <> [] ->
   exists complexes,
     analyze_folder get_lines_from_pdb_file pae_payload pdockq_rounded
       files_of_complex complex_name finished cpu_count name_filter
       max_distance plddt_cutoff pae_cutoff pae_mode valid_aas ignore_pae
     = (summary <- analyze_complexes get_lines_from_pdb_file pae_payload
                     pdockq_rounded complex_name
                     (map (fun cname => (cname, files_of_complex cname))
                        complexes)
                     max_distance plddt_cutoff pae_cutoff pae_mode valid_aas
                     ignore_pae ;;
        Ok (Some summary)) /\
     (length complexes
      = length complex_names / m
        + (if 0 <? length complex_names mod m then 1 else 0))%nat /\
     (forall t cname, nth_error complexes t = Some cname ->
        nth_error complex_names (t * m) = Some cname) /\
     (cpu_count = 1%Z -> complexes = complex_names) /\
     ((Z.of_nat (length complex_names) <= cpu_count)%Z ->
      complexes = firstn 1 complex_names)).
Proof.
  intros Hcpu complex_names m. split.
  - intros E. unfold analyze_folder. fold complex_names. rewrite E.
    reflexivity.
  - intros Hne. unfold analyze_folder. fold complex_names.
    assert (0 < length complex_names)%nat as Hlen.
    { destruct complex_names; [congruence | simpl; lia]. }
    destruct (Nat.ltb_spec (length complex_names) 1) as [Hl|_]; [lia|].
    unfold distribute.
    destruct (Z.ltb_spec (Z.min cpu_count (Z.of_nat (length complex_names))) 1)
      as [Hl|_]; [lia|].
    assert (Z.to_nat
              (Z.min (Z.min cpu_count (Z.of_nat (length complex_names)))
                 (Z.of_nat (length complex_names))) = m) as ->
        by (subst m; lia).
    assert (0 < m)%nat as Hm by (subst m; lia).
    destruct (distribute_loop_dealt complex_names Hm) as [Hgl Hg].
    cbn [bind]. unfold nth_res.
    destruct (nth_error
                (distribute_loop m (enumerate complex_names) (repeat [] m)) 0)
      as [g|] eqn:Eg.
    2:{ apply nth_error_None in Eg. lia. }
    cbn [bind]. destruct (Hg _ _ Eg) as [Hgl' Hgx].
    exists g. split; [reflexivity|]. split; [exact Hgl'|].
    split.
    { intros t x Ht. apply Hgx in Ht. rewrite Nat.add_0_r in Ht. exact Ht. }
    split.
    + intros ->. assert (m = 1)%nat as Em by (subst m; lia).
      rewrite Em in *. apply nth_error_ext_eq.
      * rewrite Hgl', Nat.div_1_r, Nat.mod_1_r. simpl. lia.
      * intros t x Ht. apply Hgx in Ht.
        replace (t * 1 + 0)%nat with t in Ht by lia. exact Ht.
    + intros Hle. assert (m = length complex_names) as Em by (subst m; lia).
      rewrite Em in *.
      rewrite Nat.div_same, Nat.Div0.mod_same in Hgl' by lia.
      simpl in Hgl'.
      destruct g as [|x [|y g]]; try discriminate.
      pose proof (Hgx 0%nat x eq_refl) as H0. simpl in H0.
      destruct complex_names as [|c cs]; [discriminate|].
      simpl in H0. injection H0 as <-. reflexivity.
Qed.

End FolderProofs.

(** The theorem on a folder of three complexes and eight CPUs: only the
    first complex is analysed. *)
Lemma analyze_folder_analyses_one_group_witness :
  exists complexes,
    analyze_folder sample_pdb_files sample_pae_files sample_pdockq
      sample_files_of_complex "a_b" ["a_b"; "c_d"; "e_f"]%string 8 ""
      8 50 15 "min" "" true
    = (summary <- analyze_complexes sample_pdb_files sample_pae_files
                    sample_pdockq "a_b"
                    (map (fun cname => (cname, sample_files_of_complex cname))
                       complexes)
                    8 50 15 "min" "" true ;;
       Ok (Some summary)) /\
    complexes = ["a_b"]%string.
Proof.
  destruct (@analyze_folder_analyses_one_group sample_pdb_files
              sample_pae_files sample_pdockq sample_files_of_complex
              "a_b"%string ["a_b"; "c_d"; "e_f"]%string 8%Z ""%string
              8 50 15 "min"%string ""%string true ltac:(lia)) as [_ H].
  destruct H as (complexes & E & _ & _ & _ & Hone); [discriminate|].
  exists complexes. split; [exact E|]. apply Hone. simpl. lia.
Defined.

(** ** The chains of the contacts and the chains of [get_chain_list_names] *)

Lemma subseq_drop_last {A : Type} (l1 l2 : list A) (y : A) :
  subseq l1 (l2 ++ [y]) -> (forall l, l1 <> l ++ [y]) -> subseq l1 l2.
Proof.
  intros H Hn. inversion H as [E1 E2|k1 k2 x Hs E1 E2|k1 k2 x Hs E1 E2].
  - destruct l2; discriminate.
  - apply app_inj_tail in E2. destruct E2 as [-> _]. exact Hs.
  - apply app_inj_tail in E2. destruct E2 as [_ ->]. subst l1.
    exfalso. apply (Hn k1). reflexivity.
Qed.

Lemma subseq_nth {A : Type} (l1 l2 : list A) (i : nat) (a : A) :
  subseq l1 l2 -> nth_error l1 i = Some a ->
  exists j, nth_error l2 j = Some a.
Proof.
  intros H. revert i. induction H as [|l1 l2 x _ IH|l1 l2 x _ IH]; intros i Hi.
  - destruct i; discriminate.
  - destruct (IH i Hi) as [j Hj]. exists j.
    rewrite nth_error_app1; [exact Hj|].
    apply nth_error_Some. congruence.
  - destruct (Nat.ltb_spec i (length l1)) as [Hl|Hl].
    + rewrite nth_error_app1 in Hi by exact Hl.
      destruct (IH i Hi) as [j Hj]. exists j.
      rewrite nth_error_app1; [exact Hj|].
      apply nth_error_Some. congruence.
    + rewrite nth_error_app2 in Hi by exact Hl.
      destruct (i - length l1)%nat as [|n] eqn:E; [|destruct n; discriminate].
      simpl in Hi. injection Hi as <-. exists (length l2).
      rewrite nth_error_app2, Nat.sub_diag by lia. reflexivity.
Qed.

Lemma subseq_nth_pair {A : Type} (l1 l2 : list A) (i i2 : nat) (a b : A) :
  subseq l1 l2 -> (i < i2)%nat ->
  nth_error l1 i = Some a -> nth_error l1 i2 = Some b ->
  exists j j2, (j < j2)%nat /\
               nth_error l2 j = Some a /\ nth_error l2 j2 = Some b.
Proof.
  intros H. revert i i2.
  induction H as [|l1 l2 x _ IH|l1 l2 x Hs IH]; intros i i2 Hlt Hi Hi2.
  - destruct i; discriminate.
  - destruct (IH i i2 Hlt Hi Hi2) as (j & j2 & Hj & Ha & Hb).
    exists j, j2. split; [exact Hj|].
    split; (rewrite nth_error_app1; [assumption|]; apply nth_error_Some;
            congruence).
  - assert (i < length l1)%nat as Hil.
    { assert (i2 < length (l1 ++ [x]))%nat as Hb
          by (apply nth_error_Some; congruence).
      rewrite length_app in Hb. simpl in Hb. lia. }
    rewrite nth_error_app1 in Hi by exact Hil.
    destruct (Nat.ltb_spec i2 (length l1)) as [Hl|Hl].
    + rewrite nth_error_app1 in Hi2 by exact Hl.
      destruct (IH i i2 Hlt Hi Hi2) as (j & j2 & Hj & Ha & Hb).
      exists j, j2. split; [exact Hj|].
      split; (rewrite nth_error_app1; [assumption|]; apply nth_error_Some;
              congruence).
    + rewrite nth_error_app2 in Hi2 by exact Hl.
      destruct (i2 - length l1)%nat as [|n] eqn:E; [|destruct n; discriminate].
      simpl in Hi2. injection Hi2 as <-.
      destruct (subseq_nth i Hs Hi) as [j Hj].
      assert (j < length l2)%nat as Hjl by (apply nth_error_Some; congruence).
      exists j, (length l2). split; [exact Hjl|]. split.
      * rewrite nth_error_app1 by exact Hjl. exact Hj.
      * rewrite nth_error_app2, Nat.sub_diag by lia. reflexivity.
Qed.

Lemma chain_names_step_cases (acc : option string * list string)
  (l : pdb_line) :
  names_so_far acc ->
  names_so_far (chain_names_step acc l) /\
  (chain_names_step acc l = acc \/
   (is_atom_record l = true /\ fst acc <> Some (l_chain l) /\
    chain_names_step acc l = (Some (l_chain l), snd acc ++ [l_chain l]))).
Proof.
  intros H. unfold chain_names_step.
  destruct (is_atom_record l); simpl; [|auto].
  destruct (same_chain (l_chain l) (fst acc)) eqn:E; simpl; [auto|].
  split.
  - right. exists (snd acc), (l_chain l). auto.
  - right. split; [reflexivity|]. split; [|reflexivity].
    intros E'. apply same_chain_true in E'. congruence.
Qed.

Lemma chains_follow_the_names (min_plddt : Q) (valid_aas : string)
  (lines : list pdb_line) (st st' : parse_state)
  (acc : option string * list string) :
  well_formed min_plddt valid_aas st ->
  names_so_far acc ->
  subseq (chains st) (snd acc) ->
  foldM (parse_line min_plddt valid_aas) lines st = Ok st' ->
  subseq (chains st') (snd (fold_left chain_names_step lines acc)).
Proof.
  revert st acc. induction lines as [|l lines IH]; intros st acc Hwf Hacc Hs H;
    simpl in H.
  - injection H as <-. exact Hs.
  - destruct (parse_line min_plddt valid_aas st l) as [st1|] eqn:E;
      [|discriminate].
    cbn [bind] in H. cbn [fold_left].
    pose proof (@parse_line_well_formed min_plddt valid_aas st st1 l Hwf E)
      as Hwf1.
    destruct (@chain_names_step_cases acc l Hacc) as [Hacc1 Hstep].
    apply (IH st1 (chain_names_step acc l) Hwf1 Hacc1); [|exact H].
    destruct Hwf as [_ _ Hco Hne Hlast _ _ _].
    apply parse_line_cases in E;
      [|exact Hne | exact (Forall2_length_eq Hco)].
    assert (subseq (chains st) (snd (chain_names_step acc l))) as Hsame.
    { destruct Hstep as [->|(_ & _ & ->)]; [exact Hs|].
      apply subseq_skip, Hs. }
    destruct E as [E1 E2 E3 E4 E5
                  |rs0 c0 r Hn E1 E2 E4 E5 E3 E3'
                  |rs0 c ns0 cn aa Hn Hp El El' E2 E5 E3 E4 E3' E4'
                  |aa Hn Hp El El' E2 E5 E3' E4'];
      try (rewrite E2; exact Hsame).
    rewrite E2. destruct Hp as [Hatom _].
    unfold chain_names_step. rewrite Hatom. cbn [negb].
    destruct (same_chain (l_chain l) (fst acc)) eqn:Esame; cbn [negb snd];
      [|apply subseq_keep, Hs].
    apply same_chain_true in Esame.
    destruct Hacc as [[Ha1 Ha2]|(cs & c & Ha1 & Ha2)]; [congruence|].
    rewrite Esame in Ha2. injection Ha2 as <-.
    rewrite Ha1 in *. apply subseq_keep.
    apply subseq_drop_last with (y := l_chain l); [exact Hs|].
    intros k Ek.
    destruct Hlast as [[Hc _]|(cs' & c' & Hc & Hl)].
    + rewrite Hc in Ek. destruct k; discriminate.
    + rewrite Hc in Ek. apply app_inj_tail in Ek. destruct Ek as [_ ->].
      congruence.
Qed.

Lemma get_chain_list_names_fold
  (get_lines_from_pdb_file : string -> result (list pdb_line))
  (pdb_filename : string) (lines : list pdb_line) :
  get_lines_from_pdb_file pdb_filename = Ok lines ->
  get_chain_list_names get_lines_from_pdb_file pdb_filename
  = Ok (snd (fold_left chain_names_step lines (None, []))).
Proof. intros H. unfold get_chain_list_names. rewrite H. reflexivity. Qed.

Lemma contact_chains (max_distance : Q) (min_plddt : Q) (valid_aas : string)
  (st : parse_state) (contacts : list contact) (c : contact) :
  well_formed min_plddt valid_aas st ->
  find_contacts max_distance false st = Ok contacts ->
  In c contacts ->
  exists i i2,
    (i < i2)%nat /\
    nth_error (chains st) i = Some (ca_chain (aa1 c)) /\
    nth_error (chains st) i2 = Some (ca_chain (aa2 c)).
Proof.
  intros Hwf Hf Hc.
  apply (@find_contacts_sound max_distance false st contacts c Hf) in Hc.
  destruct Hc as (i & i2 & k & k2 & _ & Hlt & c1 & c2 & res1 & res2 & n1 &
                  n2 & r1 & r2 & a1 & a2 & _ & _ & _ & _ & H5 & H6 & H7 &
                  H8 & _ & _ & _ & ->).
  destruct Hwf as [_ Hch _ _ _ _ _ _].
  assert (forall j res k r,
            nth_error (residues st) j = Some res -> nth_error res k = Some r ->
            nth_error (chains st) j = Some (chain r)) as Hname.
  { intros j res k0 r Hj Hk.
    destruct (nth_error (chains st) j) as [ch|] eqn:Ech.
    - destruct (@Forall2_nth_error _ _ _ _ _ j ch Hch Ech) as (rs & Hrs & Hall).
      rewrite Hj in Hrs. injection Hrs as <-.
      rewrite Forall_forall in Hall.
      rewrite (Hall r (nth_error_In _ _ Hk)). reflexivity.
    - apply nth_error_None in Ech.
      pose proof (Forall2_length_eq Hch) as Hl.
      assert (j < length (residues st))%nat
        by (apply nth_error_Some; congruence).
      lia. }
  exists i, i2. split; [exact Hlt|]. simpl.
  split; [exact (Hname _ _ _ _ H5 H6) | exact (Hname _ _ _ _ H7 H8)].
Qed.

Section Coverage.

Variable get_lines_from_pdb_file : string -> result (list pdb_line).
Variable pae_payload : string -> result (list pae_token).

(** X18.  Every chain pair of the contacts of a model is a pair
    [chain_list[i]:chain_list[i2]] with [i < i2] of the chains that
    [get_chain_list_names] lists for the same file, so the statistics
    loop looks it up, and it finds all its contacts. *)
Theorem every_contact_is_between_two_listed_chains
  (pdb_filename pae_filename : string)
  (max_distance min_plddt max_pae : Q) (pae_mode valid_aas : string)
  (contacts : dict (dict contact_entry)) (chain_list : list string)
  (chain_contact_id : string) (entries : dict contact_entry) :
  get_contacts get_lines_from_pdb_file pae_payload pdb_filename pae_filename
    max_distance min_plddt max_pae pae_mode valid_aas = Ok contacts ->
  get_chain_list_names get_lines_from_pdb_file pdb_filename = Ok chain_list ->
  dict_get chain_contact_id contacts = Some entries ->
  exists i i2 chain1 chain2,
    (i < i2)%nat /\
    nth_error chain_list i = Some chain1 /\
    nth_error chain_list i2 = Some chain2 /\
    chain_contact_id = (chain1 ++ ":" ++ chain2)%string /\
    num_contacts (calculate_interface_statistics chain_contact_id contacts)
    = Z.of_nat (length entries) /\
    (0 < length entries)%nat.
Proof.
  intros Hg Hn Hd.
  apply get_contacts_stored in Hg.
  destruct Hg as (n & cs & _ & _ & Hcs & Hs & _).
  unfold get_contacts_from_structure in Hcs.
  destruct (get_lines_from_pdb_file pdb_filename) as [lines|] eqn:El;
    [|discriminate].
  cbn [bind] in Hcs.
  destruct (parse_structure min_plddt valid_aas lines) as [st|] eqn:Hp;
    [|discriminate].
  cbn [bind] in Hcs.
  rewrite (get_chain_list_names_fold _ _ El) in Hn. injection Hn as <-.
  pose proof (parse_structure_well_formed _ _ _ Hp) as Hwf.
  assert (subseq (chains st)
            (snd (fold_left chain_names_step lines (None, [])))) as Hsub.
  { apply (@chains_follow_the_names min_plddt valid_aas lines parse_init st
             (None, [])); [| left; auto | constructor | exact Hp].
    apply (parse_structure_well_formed min_plddt valid_aas []). reflexivity. }
  destruct (@dict_get_Forall _
              (fun k (v : dict contact_entry) =>
                 v <> [] /\
                 Forall
                   (fun ie =>
                      exists c, In c cs /\
                        entry_of (String.length pae_filename =? 0)%nat
                          max_pae pae_mode valid_aas n c k (fst ie) (snd ie))
                   v) contacts chain_contact_id entries Hs Hd) as [Hne Hall].
  destruct entries as [|[id e] rest]; [congruence|].
  inversion Hall as [|? ? [c [Hc Hec]] _]; subst.
  destruct Hec as (Ekey & _). cbn [fst snd] in Ekey.
  destruct (@contact_chains max_distance min_plddt valid_aas st cs c Hwf
              Hcs Hc) as (i & i2 & Hlt & H1 & H2).
  destruct (@subseq_nth_pair _ _ _ i i2 _ _ Hsub Hlt H1 H2)
    as (j & j2 & Hj & Ha & Hb).
  exists j, j2, (ca_chain (aa1 c)), (ca_chain (aa2 c)).
  split; [exact Hj|]. split; [exact Ha|]. split; [exact Hb|].
  split; [exact Ekey|]. split; [|simpl; lia].
  unfold calculate_interface_statistics. rewrite Hd.
  pose proof (@stats_fold_bounds ((id, e) :: rest) [] stats_init
                stats_bounds_init) as [Hcount _ _ _ _ _].
  simpl app in Hcount.
  destruct (0 <? acc_num_contacts
                   (fold_left stats_step ((id, e) :: rest) stats_init))%Z;
    exact Hcount.
Qed.

End Coverage.

(** The theorem on the chain pair A:B of the first sample model. *)
Lemma every_contact_is_between_two_listed_chains_witness :
  exists i i2 chain1 chain2,
    (i < i2)%nat /\
    nth_error ["A"; "B"]%string i = Some chain1 /\
    nth_error ["A"; "B"]%string i2 = Some chain2 /\
    "A:B"%string = (chain1 ++ ":" ++ chain2)%string /\
    num_contacts (calculate_interface_statistics "A:B" near_contacts)
    = Z.of_nat (length (match dict_get "A:B" near_contacts with
                        | Some entries => entries
                        | None => []
                        end)) /\
    (0 < length (match dict_get "A:B" near_contacts with
                 | Some entries => entries
                 | None => []
                 end))%nat.
Proof.
  apply (@every_contact_is_between_two_listed_chains sample_pdb_files
           sample_pae_files "a_b_model_1.pdb" "a_b_model_1.json" 8 50 15
           "min"%string ""%string near_contacts ["A"; "B"]%string
           "A:B"%string).
  - vm_compute. reflexivity.
  - vm_compute. reflexivity.
  - vm_compute. reflexivity.
Defined.

(** ** When [get_contacts] returns, and what it keeps *)

Lemma stored_entry_add_same (cid id : string) (e : contact_entry)
  (d : dict (dict contact_entry)) :
  stored_entry (add_contact cid id e d) cid id = Some e.
Proof.
  unfold stored_entry, add_contact. rewrite dict_get_set_same.
  apply dict_get_set_same.
Qed.

Lemma stored_entry_add_other (cid id cid' id' : string) (e : contact_entry)
  (d : dict (dict contact_entry)) :
  (cid', id') <> (cid, id) ->
  stored_entry (add_contact cid id e d) cid' id' = stored_entry d cid' id'.
Proof.
  intros Hne. unfold stored_entry, add_contact.
  destruct (string_dec cid' cid) as [->|Hc].
  - rewrite dict_get_set_same.
    assert (id' <> id) as Hi by congruence.
    rewrite dict_get_set_other by exact Hi.
    destruct (dict_get cid d); reflexivity.
  - rewrite dict_get_set_other by exact Hc. reflexivity.
Qed.

Lemma pae_lookup_total (pae_data : list pae_token) (N : Z) (pae_mode : string)
  (a0 a1 : Z) :
  Z.of_nat (length pae_data) = (N * N)%Z -> numeric pae_data ->
  (1 <= a0 <= N)%Z -> (1 <= a1 <= N)%Z ->
  exists r, pae_lookup pae_data N pae_mode a0 a1 = Ok r.
Proof.
  intros Hlen Hnum H0 H1.
  pose proof (pae_index_range H0 H1) as R0.
  pose proof (pae_index_range H1 H0) as R1.
  assert (forall i, (0 <= i < N * N)%Z ->
            exists v, nth_error pae_data (Z.to_nat i) = Some (Some v)) as Hget.
  { intros i Hi.
    destruct (@nth_error_lt_Some _ pae_data (Z.to_nat i) ltac:(lia)) as [t Ht].
    unfold numeric in Hnum. rewrite Forall_forall in Hnum.
    pose proof (Hnum t (nth_error_In _ _ Ht)) as Hn.
    destruct t as [v|]; [|congruence]. exists v. exact Ht. }
  destruct (Hget _ R0) as [v0 E0]. destruct (Hget _ R1) as [v1 E1].
  eexists. apply (@pae_lookup_values pae_data N pae_mode a0 a1 v0 v1);
    try assumption; lia.
Qed.

Lemma filter_contact_total (ignore_pae : bool) (pae_data : list pae_token)
  (N : Z) (max_pae : Q) (pae_mode valid_aas : string) (model_num : Z)
  (c : contact) :
  (ignore_pae = true \/
   (Z.of_nat (length pae_data) = (N * N)%Z /\ numeric pae_data /\
    (1 <= ca_a_ix (aa1 c) <= N)%Z /\ (1 <= ca_a_ix (aa2 c) <= N)%Z)) ->
  exists r,
    filter_contact ignore_pae pae_data N max_pae pae_mode valid_aas model_num c
    = Ok r.
Proof.
  intros H. unfold filter_contact.
  match goal with
  | |- exists _, (_ <- ?p ;; _) = _ => assert (exists v, p = Ok v) as [v ->]
  end.
  { destruct H as [->|(Hl & Hn & H0 & H1)]; [eauto|].
    destruct ignore_pae; [eauto|]. apply pae_lookup_total; assumption. }
  cbn [bind].
  destruct (negb ignore_pae && Qltb max_pae (fst v)); [eauto|].
  match goal with
  | |- exists _, (if ?b then _ else _) = _ => destruct b; eauto
  end.
Qed.

Section Kept.

Variables (ignore_pae : bool) (pae_data : list pae_token) (N : Z).
Variables (max_pae : Q) (pae_mode valid_aas : string) (model_num : Z).
Variable contacts : list contact.

Hypothesis contacts_unique :
  forall c c', In c contacts -> In c' contacts ->
    ca_a_ix (aa1 c) = ca_a_ix (aa1 c') ->
    ca_a_ix (aa2 c) = ca_a_ix (aa2 c') -> c = c'.

Hypothesis filter_returns :
  forall c, In c contacts ->
    exists r,
      filter_contact ignore_pae pae_data N max_pae pae_mode valid_aas
        model_num c = Ok r.

Lemma filter_step_keeps (done : list contact) (d : dict (dict contact_entry))
  (c : contact) :
  incl done contacts -> In c contacts -> kept_so_far ignore_pae pae_data N max_pae pae_mode valid_aas model_num done d ->
  exists d',
    filter_step ignore_pae pae_data N max_pae pae_mode valid_aas model_num d c
    = Ok d' /\
    kept_so_far ignore_pae pae_data N max_pae pae_mode valid_aas model_num (done ++ [c]) d'.
Proof.
  intros Hincl Hc Hk. unfold filter_step.
  destruct (filter_returns c Hc) as [r Hr]. rewrite Hr. cbn [bind].
  destruct r as [[[cid id] e]|].
  - eexists. split; [reflexivity|].
    intros c1 cid1 id1 e1 Hin H1.
    assert (In c1 contacts) as Hc1.
    { apply in_app_or in Hin. destruct Hin as [Hin|[<-|[]]];
        [apply Hincl, Hin | exact Hc]. }
    destruct (string_dec cid1 cid) as [Ec|Ec];
      [destruct (string_dec id1 id) as [Ei|Ei]|].
    + subst cid1 id1.
      pose proof (@filter_contact_entry ignore_pae pae_data N max_pae
                    pae_mode valid_aas model_num c1 cid id e1 H1)
        as (_ & Eid1 & _).
      pose proof (@filter_contact_entry ignore_pae pae_data N max_pae
                    pae_mode valid_aas model_num c cid id e Hr)
        as (_ & Eid & _).
      rewrite Eid in Eid1. apply contact_id_inj in Eid1.
      destruct Eid1 as [E0 E1].
      assert (c = c1) as <- by (apply contacts_unique; assumption).
      rewrite Hr in H1. injection H1 as <-.
      apply stored_entry_add_same.
    + rewrite stored_entry_add_other by congruence.
      apply in_app_or in Hin. destruct Hin as [Hin|[<-|[]]].
      * apply (Hk c1 cid1 id1 e1 Hin H1).
      * rewrite Hr in H1. congruence.
    + rewrite stored_entry_add_other by congruence.
      apply in_app_or in Hin. destruct Hin as [Hin|[<-|[]]].
      * apply (Hk c1 cid1 id1 e1 Hin H1).
      * rewrite Hr in H1. congruence.
  - exists d. split; [reflexivity|].
    intros c1 cid1 id1 e1 Hin H1.
    apply in_app_or in Hin. destruct Hin as [Hin|[<-|[]]].
    + apply (Hk c1 cid1 id1 e1 Hin H1).
    + rewrite Hr in H1. discriminate.
Qed.

Lemma foldM_filter_keeps (todo done : list contact)
  (d : dict (dict contact_entry)) :
  incl done contacts -> incl todo contacts -> kept_so_far ignore_pae pae_data N max_pae pae_mode valid_aas model_num done d ->
  exists d',
    foldM (filter_step ignore_pae pae_data N max_pae pae_mode valid_aas
             model_num) todo d = Ok d' /\
    kept_so_far ignore_pae pae_data N max_pae pae_mode valid_aas model_num (done ++ todo) d'.
Proof.
  revert done d. induction todo as [|c todo IH]; intros done d Hd Ht Hk.
  - exists d. rewrite app_nil_r. split; [reflexivity | exact Hk].
  - cbn [foldM].
    destruct (@filter_step_keeps done d c Hd (Ht c (or_introl eq_refl)) Hk)
      as [d1 [E1 Hk1]].
    rewrite E1. cbn [bind].
    replace (done ++ c :: todo) with ((done ++ [c]) ++ todo)
      by (rewrite <- app_assoc; reflexivity).
    apply IH; [| |exact Hk1].
    + intros x Hx. apply in_app_or in Hx. destruct Hx as [Hx|[<-|[]]];
        [apply Hd, Hx | apply Ht; left; reflexivity].
    + intros x Hx. apply Ht. right. exact Hx.
Qed.

End Kept.

Lemma contact_indices_in_range (min_plddt : Q) (valid_aas : string)
  (lines : list pdb_line) (st : parse_state) (max_distance : Q)
  (contacts : list contact) (c : contact) :
  parse_structure min_plddt valid_aas lines = Ok st ->
  find_contacts max_distance false st = Ok contacts ->
  In c contacts ->
  (1 <= ca_a_ix (aa1 c) <= Z.of_nat (count_N lines))%Z /\
  (1 <= ca_a_ix (aa2 c) <= Z.of_nat (count_N lines))%Z.
Proof.
  intros Hp Hf Hc.
  pose proof (parse_structure_well_formed _ _ _ Hp) as [_ _ _ _ _ _ Hres _].
  assert (numbered [] parse_init) as H0.
  { split; [reflexivity|]. intros r []. }
  pose proof (foldM_parse_numbered _ _ _ H0 Hp) as [Habs _]. simpl in Habs.
  rewrite Forall_forall in Hres.
  destruct (@contacts_from_residues max_distance st contacts c Hf Hc)
    as (i & i2 & res1 & res2 & r1 & r2 & a1 & a2 & _ &
        H1 & Hr1 & H2 & Hr2 & _ & ->).
  destruct (Hres r1 (@in_concat_nth _ (residues st) i res1 r1 H1 Hr1))
    as (_ & _ & _ & Hi1).
  destruct (Hres r2 (@in_concat_nth _ (residues st) i2 res2 r2 H2 Hr2))
    as (_ & _ & _ & Hi2).
  simpl. lia.
Qed.

Section Returns.

Variable get_lines_from_pdb_file : string -> result (list pdb_line).
Variable pae_payload : string -> result (list pae_token).

(** X19.  [get_contacts] returns for a structure file of model 1..5
    that parses, with a cutoff whose square is at most 1e6, when no
    matrix is given
    or the matrix file has the same model number and holds N x N numbers
    for N at least the number of residues.  The filter then returns for
    every geometric contact, and every contact it accepts is stored
    under its chain pair and its id, with the entry the filter made. *)
Theorem get_contacts_keeps_every_accepted_contact
  (pdb_filename pae_filename : string)
  (max_distance min_plddt max_pae : Q) (pae_mode valid_aas : string)
  (model_num : Z) (lines : list pdb_line) (st : parse_state)
  (pae_data : list pae_token) (N : Z) :
  get_af_model_num pdb_filename = Ok model_num ->
  (1 <= model_num <= 5)%Z ->
  get_lines_from_pdb_file pdb_filename = Ok lines ->
  parse_structure min_plddt valid_aas lines = Ok st ->
  max_distance * max_distance <= 1000000 ->
  (pae_filename = EmptyString /\ pae_data = [] /\ N = 0%Z) \/
  (pae_filename <> EmptyString /\
   get_af_model_num pae_filename = Ok model_num /\
   pae_payload pae_filename = Ok pae_data /\
   Z.of_nat (length pae_data) = (N * N)%Z /\
   (Z.of_nat (count_N lines) <= N)%Z /\
   numeric pae_data) ->
  exists filtered_contacts contacts,
    get_contacts get_lines_from_pdb_file pae_payload pdb_filename pae_filename
      max_distance min_plddt max_pae pae_mode valid_aas = Ok filtered_contacts /\
    find_contacts max_distance false st = Ok contacts /\
    forall c, In c contacts ->
      exists r,
        filter_contact (String.length pae_filename =? 0)%nat pae_data N
          max_pae pae_mode valid_aas model_num c = Ok r /\
        forall chain_contact_id contact_id e,
          r = Some (chain_contact_id, contact_id, e) ->
          stored_entry filtered_contacts chain_contact_id contact_id = Some e.
Proof.
  intros Hn Hr Hl Hp Hd Hpae.
  pose proof (parse_structure_well_formed _ _ _ Hp) as Hwf.
  destruct (@find_contacts_total min_plddt valid_aas max_distance false st
              Hwf Hd) as [contacts Hf].
  assert (forall c, In c contacts ->
            exists r,
              filter_contact (String.length pae_filename =? 0)%nat pae_data N
                max_pae pae_mode valid_aas model_num c = Ok r) as Htot.
  { intros c Hc. apply filter_contact_total.
    destruct Hpae as [(-> & _)|(_ & _ & _ & Hlen & HN & Hnum)];
      [left; reflexivity|].
    right.
    destruct (@contact_indices_in_range min_plddt valid_aas lines st
                max_distance contacts c Hp Hf Hc) as [H1 H2].
    repeat split; try assumption; lia. }
  pose proof (fun c c' => @parsed_contacts_unique min_plddt valid_aas st
                max_distance contacts c c' Hwf Hf) as Huniq.
  destruct (@foldM_filter_keeps (String.length pae_filename =? 0)%nat
              pae_data N max_pae pae_mode valid_aas model_num contacts
              Huniq Htot contacts [] [])
    as [d [Ed Hk]].
  { intros x []. }
  { apply incl_refl. }
  { intros c cid id e []. }
  simpl app in Hk.
  assert (exists fc,
            get_contacts get_lines_from_pdb_file pae_payload pdb_filename
              pae_filename max_distance min_plddt max_pae pae_mode valid_aas
            = Ok fc /\
            (contacts <> [] -> fc = d)) as [fc [Efc Hfc]].
  { unfold get_contacts. rewrite Hn. cbn [bind].
    destruct (Z.ltb_spec model_num 1) as [?|_]; [lia|].
    destruct (Z.ltb_spec 5 model_num) as [?|_]; [lia|]. cbn [orb].
    unfold get_contacts_from_structure. rewrite Hl. cbn [bind].
    rewrite Hp. cbn [bind].
    destruct Hpae as [(-> & -> & ->)|(Hne & Hm & Hpay & Hlen & HN & Hnum)].
    - cbn [String.length Nat.eqb bind negb]. rewrite Hf. cbn [bind].
      destruct (length contacts <? 1)%nat eqn:El.
      + eexists. split; [reflexivity|]. intros Hc.
        apply Nat.ltb_lt in El. destruct contacts; [congruence|simpl in El; lia].
      + cbn [bind fst snd]. simpl in Ed. rewrite Ed. eauto.
    - assert ((String.length pae_filename =? 0)%nat = false) as Eig.
      { destruct pae_filename; [congruence | reflexivity]. }
      rewrite Eig in *. rewrite Hm. cbn [bind]. rewrite Z.eqb_refl.
      cbn [negb]. rewrite Hf. cbn [bind].
      destruct (length contacts <? 1)%nat eqn:El.
      + eexists. split; [reflexivity|]. intros Hc.
        apply Nat.ltb_lt in El. destruct contacts; [congruence|simpl in El; lia].
      + unfold get_pae_values_from_json_file. rewrite Hpay. cbn [bind].
        assert (0 <= N)%Z as HN0 by lia.
        rewrite Hlen, (Z.sqrt_square N HN0), Z.eqb_refl.
        cbn [negb bind fst snd].
        rewrite Hlen, (Z.sqrt_square N HN0), Ed. eauto. }
  exists fc, contacts. split; [exact Efc|]. split; [exact Hf|].
  intros c Hc. destruct (Htot c Hc) as [r Er]. exists r.
  split; [exact Er|]. intros cid id e ->.
  rewrite Hfc by (intros E0; rewrite E0 in Hc; destruct Hc).
  apply (Hk c cid id e Hc Er).
Qed.

End Returns.

(** The theorem on the first sample model and its 2 x 2 matrix. *)
Lemma get_contacts_keeps_every_accepted_contact_witness :
  exists filtered_contacts contacts,
    get_contacts sample_pdb_files sample_pae_files "a_b_model_1.pdb"
      "a_b_model_1.json" 8 50 15 "min" "" = Ok filtered_contacts /\
    find_contacts 8 false near_state = Ok contacts /\
    forall c, In c contacts ->
      exists r,
        filter_contact (String.length "a_b_model_1.json" =? 0)%nat
          [Some 0; Some 5; Some 5; Some 0] 2 15 "min" "" 1 c = Ok r /\
        forall chain_contact_id contact_id e,
          r = Some (chain_contact_id, contact_id, e) ->
          stored_entry filtered_contacts chain_contact_id contact_id = Some e.
Proof.
  apply (@get_contacts_keeps_every_accepted_contact sample_pdb_files
           sample_pae_files "a_b_model_1.pdb" "a_b_model_1.json" 8 50 15
           "min"%string ""%string 1%Z near_lines near_state
           [Some 0; Some 5; Some 5; Some 0] 2%Z).
  - vm_compute. reflexivity.
  - lia.
  - reflexivity.
  - vm_compute. reflexivity.
  - vm_compute. discriminate.
  - right. split; [discriminate|]. split; [vm_compute; reflexivity|].
    split; [reflexivity|]. split; [reflexivity|].
    split; [vm_compute; discriminate|].
    repeat constructor; discriminate.
Defined.

(** ** [get_pdockq_elofsson] *)

Lemma pdockq_line_keys (chains : list string) (tbl : chain_table)
  (line : pdb_line) :
  map fst (pdockq_line chains tbl line)
  = if representative chains line && negb (dict_mem (l_chain_id line) tbl)
    then map fst tbl ++ [l_chain_id line]
    else map fst tbl.
Proof.
  unfold pdockq_line, representative, dict_mem.
  destruct (is_atom_record line); cbn [negb andb]; [|reflexivity].
  destruct (length chains =? 0)%nat; cbn [negb andb orb].
  - destruct (String.eqb (l_atm_name line) "CB"
              || String.eqb (l_atm_name line) "CA"
                 && String.eqb (l_res_name line) "GLY"); [|reflexivity].
    destruct (dict_get (l_chain_id line) tbl) as [[cs ps]|] eqn:E;
      rewrite keys_set; unfold dict_mem; rewrite E; reflexivity.
  - destruct (existsb (String.eqb (l_chain_id line)) chains);
      cbn [negb andb]; [|reflexivity].
    destruct (String.eqb (l_atm_name line) "CB"
              || String.eqb (l_atm_name line) "CA"
                 && String.eqb (l_res_name line) "GLY"); [|reflexivity].
    destruct (dict_get (l_chain_id line) tbl) as [[cs ps]|] eqn:E;
      rewrite keys_set; unfold dict_mem; rewrite E; reflexivity.
Qed.

Lemma pdockq_table_keys (chains : list string) (lines : list pdb_line)
  (tbl : chain_table) :
  NoDup (map fst tbl) ->
  NoDup (map fst (fold_left (pdockq_line chains) lines tbl)) /\
  forall k,
    In k (map fst (fold_left (pdockq_line chains) lines tbl)) <->
    In k (map fst tbl) \/
    In k (map l_chain_id (filter (representative chains) lines)).
Proof.
  revert tbl. induction lines as [|l lines IH]; intros tbl Hnd.
  - simpl. split; [exact Hnd|]. intros k. tauto.
  - cbn [fold_left].
    pose proof (pdockq_line_keys chains tbl l) as Hk.
    assert (NoDup (map fst (pdockq_line chains tbl l))) as Hnd1.
    { rewrite Hk.
      destruct (representative chains l && negb (dict_mem (l_chain_id l) tbl))
        eqn:E; [|exact Hnd].
      apply andb_prop in E. destruct E as [_ E].
      apply negb_true_iff in E. unfold dict_mem in E.
      apply NoDup_app; [exact Hnd | repeat constructor; intros [] |].
      intros y Hy [Ey|[]]. subst y. apply dict_get_in_keys in Hy.
      destruct (dict_get (l_chain_id l) tbl); congruence. }
    destruct (IH _ Hnd1) as [IH1 IH2]. split; [exact IH1|].
    intros k. rewrite IH2, Hk. cbn [filter].
    destruct (representative chains l) eqn:Er; cbn [andb map].
    + destruct (dict_mem (l_chain_id l) tbl) eqn:Em; cbn [negb].
      * unfold dict_mem in Em.
        assert (In (l_chain_id l) (map fst tbl)) as Hin.
        { apply dict_get_in_keys.
          destruct (dict_get (l_chain_id l) tbl); congruence. }
        simpl. split; [tauto|]. intros [H|[<-|H]]; tauto.
      * rewrite in_app_iff. simpl. tauto.
    + tauto.
Qed.

Lemma pdockq_table_length (chains : list string) (lines : list pdb_line) :
  length (fold_left (pdockq_line chains) lines [])
  = length (scored_chains chains lines).
Proof.
  destruct (@pdockq_table_keys chains lines [] (NoDup_nil _)) as [Hnd Hin].
  rewrite <- (length_map fst). apply Permutation_length.
  apply NoDup_Permutation; [exact Hnd | apply NoDup_nodup|].
  intros k. unfold scored_chains. rewrite nodup_In, Hin. simpl. tauto.
Qed.

Lemma pdockq_of_table_cases (tbl : chain_table) :
  (length tbl <> 2%nat -> pdockq_of_table tbl = Err ValueError) /\
  (length tbl = 2%nat ->
   exists q, pdockq_of_table tbl = Ok q /\
             (q = 0 \/ 0.018 < q < 0.742)%R).
Proof.
  destruct tbl as [|[k1 [c1 p1]] [|[k2 [c2 p2]] [|e tbl]]]; simpl;
    (split; [intros H; try reflexivity; congruence | intros H; try discriminate]).
  destruct (length (pdockq_contacts c1 c2) <? 1)%nat.
  - exists 0%R. split; [reflexivity | left; reflexivity].
  - eexists. split; [reflexivity|]. right.
    rewrite pdockq_curve_logistic. apply logistic_bounds.
Qed.

(** X20.  The scorer raises [ValueError] unless exactly two chains have
    a representative atom (CB, or CA of a glycine) among the chains
    asked for; with exactly two it returns 0 or a score strictly between
    0.018 and 0.742. *)
Theorem get_pdockq_elofsson_needs_two_chains
  (get_lines_from_pdb_file : string -> result (list pdb_line))
  (pdb_filepath : string) (chains : list string) (lines : list pdb_line) :
  get_lines_from_pdb_file pdb_filepath = Ok lines ->
  (length (scored_chains chains lines) <> 2%nat ->
   get_pdockq_elofsson get_lines_from_pdb_file pdb_filepath chains
   = Err ValueError) /\
  (length (scored_chains chains lines) = 2%nat ->
   exists q,
     get_pdockq_elofsson get_lines_from_pdb_file pdb_filepath chains = Ok q /\
     (q = 0 \/ 0.018 < q < 0.742)%R).
Proof.
  intros H. unfold get_pdockq_elofsson. rewrite H. cbn [bind].
  rewrite <- pdockq_table_length. apply pdockq_of_table_cases.
Qed.

Lemma existsb_perm {A : Type} (f : A -> bool) (l l' : list A) :
  Permutation l l' -> existsb f l = existsb f l'.
Proof.
  intros H. induction H; simpl.
  - reflexivity.
  - rewrite IHPermutation. reflexivity.
  - destruct (f x), (f y); reflexivity.
  - congruence.
Qed.

Lemma pdockq_line_perm (chains chains' : list string) (tbl : chain_table)
  (line : pdb_line) :
  Permutation chains chains' ->
  pdockq_line chains tbl line = pdockq_line chains' tbl line.
Proof.
  intros H. unfold pdockq_line.
  rewrite (Permutation_length H),
    (existsb_perm (String.eqb (l_chain_id line)) H).
  reflexivity.
Qed.

(** X27.  The list of chains is only asked whether a chain belongs to
    it: the scorer returns the same result, or raises the same
    exception, for the same chains in another order. *)
Theorem get_pdockq_elofsson_ignores_the_order_of_chains
  (get_lines_from_pdb_file : string -> result (list pdb_line))
  (pdb_filepath : string) (chains chains' : list string) :
  Permutation chains chains' ->
  get_pdockq_elofsson get_lines_from_pdb_file pdb_filepath chains
  = get_pdockq_elofsson get_lines_from_pdb_file pdb_filepath chains'.
Proof.
  intros H. unfold get_pdockq_elofsson.
  destruct (get_lines_from_pdb_file pdb_filepath) as [lines|]; [|reflexivity].
  cbn [bind]. f_equal. generalize ([] : chain_table).
  induction lines as [|l lines IH]; intros tbl; [reflexivity|].
  cbn [fold_left]. rewrite (pdockq_line_perm tbl l H). apply IH.
Qed.

(** The theorem on the first sample model: scored for the chains A and
    B, and an exception when chain A is asked for twice. *)
Lemma get_pdockq_elofsson_needs_two_chains_witness :
  (exists q,
     get_pdockq_elofsson sample_pdb_files "a_b_model_1.pdb"
       ["A"; "B"]%string = Ok q /\
     (q = 0 \/ 0.018 < q < 0.742)%R) /\
  get_pdockq_elofsson sample_pdb_files "a_b_model_1.pdb" ["A"; "A"]%string
  = Err ValueError.
Proof.
  split.
  - destruct (@get_pdockq_elofsson_needs_two_chains sample_pdb_files
                "a_b_model_1.pdb" ["A"; "B"]%string near_lines eq_refl)
      as [_ H].
    apply H. vm_compute. reflexivity.
  - destruct (@get_pdockq_elofsson_needs_two_chains sample_pdb_files
                "a_b_model_1.pdb" ["A"; "A"]%string near_lines eq_refl)
      as [H _].
    apply H. vm_compute. discriminate.
Defined.

(** The theorem on the first sample model and its two chains. *)
Lemma get_pdockq_elofsson_ignores_the_order_of_chains_witness :
  get_pdockq_elofsson sample_pdb_files "a_b_model_1.pdb" ["A"; "B"]%string
  = get_pdockq_elofsson sample_pdb_files "a_b_model_1.pdb" ["B"; "A"]%string.
Proof.
  apply (@get_pdockq_elofsson_ignores_the_order_of_chains sample_pdb_files
           "a_b_model_1.pdb" ["A"; "B"]%string ["B"; "A"]%string).
  apply perm_swap.
Defined.

(** ** The distance of a contact *)

Lemma dist2_nonneg (v1 v2 : vec3) : 0 <= dist2 v1 v2.
Proof.
  destruct v1 as [[x1 y1] z1], v2 as [[x2 y2] z2]. unfold dist2.
  pose proof (Qsq_nonneg (x1 - x2)). pose proof (Qsq_nonneg (y1 - y2)).
  pose proof (Qsq_nonneg (z1 - z2)). lra.
Qed.

Lemma round1_sqrt_near (x : Q) :
  0 <= x ->
  0 <= round1_sqrt x /\
  x <= (round1_sqrt x + (1 # 20)) * (round1_sqrt x + (1 # 20)) /\
  ((1 # 20) <= round1_sqrt x ->
   (round1_sqrt x - (1 # 20)) * (round1_sqrt x - (1 # 20)) <= x).
Proof.
  intros Hx. unfold round1_sqrt.
  set (y := x * 100).
  assert (0 <= y) as Hy by (unfold y; lra).
  pose proof (Qfloor_le y) as Hfl. pose proof (Qlt_floor y) as Hfu.
  assert (0 <= Qfloor y)%Z as Hf0.
  { apply Z.lt_succ_r. rewrite Zlt_Qlt. 
    apply Qle_lt_trans with y; [exact Hy|].
    replace (Z.succ (Qfloor y)) with (Qfloor y + 1)%Z by lia. exact Hfu. }
  pose proof (Z.sqrt_spec (Qfloor y) Hf0) as [Hs1 Hs2].
  pose proof (Z.sqrt_nonneg (Qfloor y)) as Hm0.
  set (m := Z.sqrt (Qfloor y)) in *.
  assert (0 <= inject_Z m) as HM0.
  { change 0 with (inject_Z 0). rewrite <- Zle_Qle. exact Hm0. }
  assert (inject_Z m * inject_Z m <= y) as Hlo.
  { rewrite <- inject_Z_mult. apply Qle_trans with (inject_Z (Qfloor y));
      [rewrite <- Zle_Qle; exact Hs1 | exact Hfl]. }
  assert (y < (inject_Z m + 1) * (inject_Z m + 1)) as Hhi.
  { apply Qlt_le_trans with (inject_Z (Qfloor y + 1)); [exact Hfu|].
    replace (inject_Z m + 1) with (inject_Z (Z.succ m))
      by (unfold Z.succ; rewrite inject_Z_plus; reflexivity).
    rewrite <- inject_Z_mult, <- Zle_Qle. lia. }
  assert (x == y * (1 # 100)) as Ex by (unfold y; field).
  set (M := inject_Z m) in *.
  assert (forall r : Z,
            (r = m /\ y <= (M + (1 # 2)) * (M + (1 # 2))) \/
            (r = (m + 1)%Z /\ (M + (1 # 2)) * (M + (1 # 2)) <= y) ->
            0 <= inject_Z r / 10 /\
            x <= (inject_Z r / 10 + (1 # 20)) * (inject_Z r / 10 + (1 # 20)) /\
            ((1 # 20) <= inject_Z r / 10 ->
             (inject_Z r / 10 - (1 # 20)) * (inject_Z r / 10 - (1 # 20)) <= x))
    as Hcase.
  { intros r [[-> Hr]|[-> Hr]].
    - fold M. unfold Qdiv. change (/ 10) with (1 # 10).
      split; [lra|]. split; [nra|]. intros Hge. nra.
    - rewrite inject_Z_plus. fold M. replace (inject_Z 1) with 1 by reflexivity.
      unfold Qdiv. change (/ 10) with (1 # 10).
      split; [lra|]. split; [nra|]. intros Hge. nra. }
  destruct (y ?= (M + (1 # 2)) * (M + (1 # 2))) eqn:E.
  - apply Qeq_alt in E. destruct (Z.even m); apply Hcase;
      [left | right]; split; try reflexivity; lra.
  - apply Qlt_alt in E. apply Hcase. left. split; [reflexivity | lra].
  - apply Qgt_alt in E. apply Hcase. right. split; [reflexivity | lra].
Qed.

(** X21.  The contact of two residues names their closest pair of
    atoms: no other pair of atoms of the two residues is closer, and
    the pair is closer than [max_distance].  The distance reported is
    not negative, below [max_distance + 0.05], and within 0.05 of the
    distance of the pair (stated on the squares). *)
Theorem reported_distance_is_the_rounded_minimum (max_distance : Q)
  (within_chain : bool) (st : parse_state) (contacts : list contact)
  (c : contact) :
  0 <= max_distance ->
  find_contacts max_distance within_chain st = Ok contacts ->
  In c contacts ->
  exists r1 r2 a1 a2,
    In r1 (concat (residues st)) /\ In r2 (concat (residues st)) /\
    In a1 (atoms r1) /\ In a2 (atoms r2) /\
    ca_a_ix (aa1 c) = a_ix r1 /\ ca_a_ix (aa2 c) = a_ix r2 /\
    ca_atom (aa1 c) = atom_type a1 /\ ca_atom (aa2 c) = atom_type a2 /\
    (forall b1 b2, In b1 (atoms r1) -> In b2 (atoms r2) ->
       dist2 (xyz a1) (xyz a2) <= dist2 (xyz b1) (xyz b2)) /\
    dist2 (xyz a1) (xyz a2) < max_distance * max_distance /\
    0 <= distance c < max_distance + (1 # 20) /\
    dist2 (xyz a1) (xyz a2)
    <= (distance c + (1 # 20)) * (distance c + (1 # 20)) /\
    ((1 # 20) <= distance c ->
     (distance c - (1 # 20)) * (distance c - (1 # 20))
     <= dist2 (xyz a1) (xyz a2)).
Proof.
  intros Hmax Hf Hc.
  apply (@find_contacts_sound max_distance within_chain st contacts c Hf)
    in Hc.
  destruct Hc as (i & i2 & k & k2 & _ & _ & c1 & c2 & res1 & res2 & n1 &
                  n2 & r1 & r2 & a1 & a2 & _ & _ & _ & _ & H5 & H6 & H7 &
                  H8 & _ & Hs & Hlt & ->).
  destruct (get_closest_atoms_ok r1 r2) as (Hall & _ & Hsome).
  rewrite Hs in Hsome. destruct Hsome as (Hin & Hd & _).
  cbn [fst snd] in Hd. apply in_prod_iff in Hin. destruct Hin as [Ha1 Ha2].
  rewrite Hd in *.
  destruct (round1_sqrt_near (dist2_nonneg (xyz a1) (xyz a2)))
    as (R0 & R1 & R2).
  exists r1, r2, a1, a2. cbn [distance aa1 aa2 ca_a_ix ca_atom contact_of].
  split; [exact (@in_concat_nth _ (residues st) i res1 r1 H5
                   (nth_error_In _ _ H6))|].
  split; [exact (@in_concat_nth _ (residues st) i2 res2 r2 H7
                   (nth_error_In _ _ H8))|].
  split; [exact Ha1|]. split; [exact Ha2|].
  repeat (split; [reflexivity|]).
  split.
  { intros b1 b2 Hb1 Hb2. apply (Hall (b1, b2)).
    apply in_prod; assumption. }
  split; [exact Hlt|]. split; [|split; assumption].
  split; [exact R0|].
  set (d := round1_sqrt (dist2 (xyz a1) (xyz a2))) in *.
  set (d2 := dist2 (xyz a1) (xyz a2)) in *.
  destruct (Qlt_le_dec d (1 # 20)) as [Hsmall|Hbig]; [lra|].
  specialize (R2 Hbig).
  destruct (Qlt_le_dec d (max_distance + (1 # 20))) as [Hok|Hbad];
    [exact Hok|].
  exfalso.
  assert (max_distance * max_distance <= (d - (1 # 20)) * (d - (1 # 20)))
    by nra.
  lra.
Qed.

Lemma reported_distance_is_the_rounded_minimum_witness :
  exists r1 r2 a1 a2,
    In r1 (concat (residues near_state)) /\
    In r2 (concat (residues near_state)) /\
    In a1 (atoms r1) /\ In a2 (atoms r2) /\
    ca_a_ix (aa1 sample_contact) = a_ix r1 /\
    ca_a_ix (aa2 sample_contact) = a_ix r2 /\
    ca_atom (aa1 sample_contact) = atom_type a1 /\
    ca_atom (aa2 sample_contact) = atom_type a2 /\
    (forall b1 b2, In b1 (atoms r1) -> In b2 (atoms r2) ->
       dist2 (xyz a1) (xyz a2) <= dist2 (xyz b1) (xyz b2)) /\
    dist2 (xyz a1) (xyz a2) < 8 * 8 /\
    0 <= distance sample_contact < 8 + (1 # 20) /\
    dist2 (xyz a1) (xyz a2)
    <= (distance sample_contact + (1 # 20))
       * (distance sample_contact + (1 # 20)) /\
    ((1 # 20) <= distance sample_contact ->
     (distance sample_contact - (1 # 20))
     * (distance sample_contact - (1 # 20))
     <= dist2 (xyz a1) (xyz a2)).
Proof.
  apply (@reported_distance_is_the_rounded_minimum 8 false near_state
           [sample_contact] sample_contact).
  - vm_compute. discriminate.
  - vm_compute. reflexivity.
  - left. reflexivity.
Defined.

(** ** The rows of a complex and its best model *)

Section Rows.

Variable get_lines_from_pdb_file : string -> result (list pdb_line).
Variable pae_payload : string -> result (list pae_token).
Variable pdockq_rounded : string -> list string -> result Q.
Variable complex_name : string.
Variables max_distance min_plddt max_pae : Q.
Variables pae_mode valid_aas : string.

Lemma model_step_row (st st' : option best_stats * list (Z * if_stats))
  (files : string * string) :
  model_step get_lines_from_pdb_file pae_payload pdockq_rounded complex_name
    max_distance min_plddt max_pae pae_mode valid_aas st files = Ok st' ->
  exists model_num stats,
    get_af_model_num (fst files) = Ok model_num /\
    (1 <= model_num <= 5)%Z /\
    snd st' = snd st ++ [(model_num, stats)] /\
    (best_among st -> best_among st').
Proof.
  unfold model_step. intros H.
  destruct (get_af_model_num (fst files)) as [n|] eqn:En; [|discriminate].
  cbn [bind] in H.
  match type of H with
  | (x <- ?p ;; _) = _ => destruct p as [chain_list|]; [|discriminate]
  end.
  cbn [bind] in H.
  match type of H with
  | (x <- ?p ;; _) = _ => destruct p as [contacts|] eqn:Ec; [|discriminate]
  end.
  cbn [bind] in H.
  match type of H with
  | (x <- ?p ;; _) = _ => destruct p as [r|]; [|discriminate]
  end.
  cbn [bind] in H. injection H as <-.
  apply get_contacts_stored in Ec.
  destruct Ec as (n' & cs & En' & Hr & _). rewrite En in En'.
  injection En' as <-.
  exists n, (snd r). split; [reflexivity|]. split; [exact Hr|].
  split; [reflexivity|].
  unfold best_among, update_best. cbn [fst snd].
  destruct (fst st) as [b|].
  - intros Hb. destruct (Qltb (model_all_avg_pdockq (fst b)) (fst r)).
    + apply in_or_app. right. left. reflexivity.
    + apply in_or_app. left. exact Hb.
  - intros _. apply in_or_app. right. left. reflexivity.
Qed.

Lemma foldM_model_step_rows (files : list (string * string))
  (st st' : option best_stats * list (Z * if_stats)) :
  foldM (model_step get_lines_from_pdb_file pae_payload pdockq_rounded
           complex_name max_distance min_plddt max_pae pae_mode valid_aas)
    files st = Ok st' ->
  exists rows,
    snd st' = snd st ++ rows /\
    mapM get_af_model_num (map fst files) = Ok (map fst rows) /\
    Forall (fun row => (1 <= fst row <= 5)%Z) rows /\
    (best_among st -> best_among st').
Proof.
  revert st. induction files as [|f files IH]; intros st H; simpl in H.
  - injection H as <-. exists []. rewrite app_nil_r.
    repeat split; auto.
  - match type of H with
    | (x <- ?p ;; _) = _ => destruct p as [st1|] eqn:E1; [|discriminate]
    end.
    cbn [bind] in H.
    destruct (model_step_row _ _ E1) as (n & stats & En & Hr & Hrows & Hb).
    destruct (IH st1 H) as (rows & Hrows' & Hkeys & Hall & Hb').
    exists ((n, stats) :: rows).
    split; [rewrite Hrows', Hrows, <- app_assoc; reflexivity|].
    split; [simpl; rewrite En; cbn [bind]; rewrite Hkeys; reflexivity|].
    split; [constructor; assumption | auto].
Qed.

(** X22.  When a complex is analysed, its rows are one per structure
    file, in the order of the sorted files and with their model numbers,
    which are all in 1..5; the best model is one of the rows, and the
    three best averages are those of that row. *)
Theorem analyze_complex_reports_one_row_per_model
  (pdb_filepaths pae_glob : list string) (ignore_pae : bool)
  (s : complex_summary) :
  analyze_complex get_lines_from_pdb_file pae_payload pdockq_rounded
    complex_name pdb_filepaths pae_glob max_distance min_plddt max_pae
    pae_mode valid_aas ignore_pae = Ok (Some s) ->
  exists pdb_sorted,
    sort_by_model_num pdb_filepaths = Ok pdb_sorted /\
    mapM get_af_model_num pdb_sorted
    = Ok (map fst (all_interface_stats s)) /\
    length (all_interface_stats s) = length pdb_filepaths /\
    Forall (fun row => (1 <= fst row <= 5)%Z) (all_interface_stats s) /\
    exists stats,
      In (best_model_num s, stats) (all_interface_stats s) /\
      best_avg_pdockq s = model_all_avg_pdockq stats /\
      best_avg_plddt s = model_all_avg_plddt stats /\
      best_avg_pae s = model_all_avg_pae stats.
Proof.
  unfold analyze_complex. intros H.
  destruct (length pdb_filepaths <? 1)%nat; [discriminate|].
  destruct (negb ignore_pae
            && negb (length pdb_filepaths =? length pae_glob)%nat) eqn:Eskip;
    [discriminate|].
  destruct (sort_by_model_num pdb_filepaths) as [pdb_sorted|] eqn:Es;
    [|discriminate].
  cbn [bind] in H.
  match type of H with
  | (x <- ?p ;; _) = _ => destruct p as [pae_filepaths|] eqn:Ep; [|discriminate]
  end.
  cbn [bind] in H.
  match type of H with
  | (x <- ?p ;; _) = _ => destruct p as [st|] eqn:Ef; [|discriminate]
  end.
  cbn [bind] in H.
  destruct (foldM_model_step_rows _ _ Ef) as (rows & Hrows & Hkeys & Hall & Hb).
  cbn [snd app] in Hrows.
  destruct (fst st) as [b|] eqn:Eb; [|discriminate].
  injection H as <-. cbn [all_interface_stats best_model_num best_avg_pdockq
    best_avg_plddt best_avg_pae].
  assert (Permutation pdb_filepaths pdb_sorted) as Hperm.
  { destruct (sort_by_model_num_pairs _ Es) as (keys & Hk & ->).
    destruct (mapM_keyed _ Hk) as (_ & Hfiles & _).
    rewrite <- Hfiles at 1.
    apply Permutation_map, Permutation_sym, sort_pairs_perm. }
  assert (length pae_filepaths = length pdb_sorted) as Hlen.
  { destruct ignore_pae.
    - injection Ep as <-. apply length_map.
    - cbn [negb andb] in Eskip. apply negb_false_iff, Nat.eqb_eq in Eskip.
      destruct (sort_by_model_num_pairs _ Ep) as (keys & Hk & ->).
      destruct (mapM_keyed _ Hk) as (_ & Hfiles & _).
      rewrite length_map,
        (Permutation_length (sort_pairs_perm (combine keys pae_glob))),
        <- (length_map snd), Hfiles, <- Eskip.
      apply Permutation_length, Hperm. }
  assert (map fst (combine pdb_sorted pae_filepaths) = pdb_sorted) as Hfst.
  { clear -Hlen. revert pae_filepaths Hlen.
    induction pdb_sorted as [|p ps IH]; intros [|q qs] Hl; simpl in *;
      try discriminate; try reflexivity.
    f_equal. apply IH. lia. }
  rewrite Hfst in Hkeys. rewrite Hrows.
  exists pdb_sorted. split; [reflexivity|]. split; [exact Hkeys|].
  split.
  { rewrite <- (length_map fst rows).
    assert (length (map fst rows) = length pdb_sorted) as ->.
    { clear -Hkeys. revert Hkeys. generalize (map fst rows).
      induction pdb_sorted as [|p ps IH]; intros l H; simpl in H.
      - injection H as <-. reflexivity.
      - destruct (get_af_model_num p); [|discriminate]. cbn [bind] in H.
        destruct (mapM get_af_model_num ps) as [ks|]; [|discriminate].
        cbn [bind] in H. injection H as <-. simpl. f_equal.
        apply IH. reflexivity. }
    symmetry. apply Permutation_length, Hperm. }
  split; [exact Hall|].
  exists (fst b). unfold best_among in Hb. rewrite Eb, Hrows in Hb.
  cbn [fst snd] in Hb. split; [apply Hb; reflexivity|].
  repeat split; reflexivity.
Qed.

Lemma analyze_complexes_snoc
  (complexes : list (string * (list string * list string)))
  (c : string * (list string * list string)) (ignore_pae : bool) :
  analyze_complexes get_lines_from_pdb_file pae_payload pdockq_rounded
    complex_name (complexes ++ [c]) max_distance min_plddt max_pae pae_mode
    valid_aas ignore_pae
  = (summary_stats <-
       analyze_complexes get_lines_from_pdb_file pae_payload pdockq_rounded
         complex_name complexes max_distance min_plddt max_pae pae_mode
         valid_aas ignore_pae ;;
     r <- analyze_complex get_lines_from_pdb_file pae_payload pdockq_rounded
            complex_name (fst (snd c)) (snd (snd c)) max_distance min_plddt
            max_pae pae_mode valid_aas ignore_pae ;;
     match r with
     | None => Ok summary_stats
     | Some stats => Ok (dict_set complex_name stats summary_stats)
     end).
Proof.
  unfold analyze_complexes. rewrite foldM_app.
  match goal with
  | |- (_ <- ?p ;; _) = _ => destruct p as [s|]; [|reflexivity]
  end.
  cbn [bind foldM].
  match goal with
  | |- (_ <- (_ <- ?p ;; _) ;; _) = _ => destruct p as [[r|]|]; reflexivity
  end.
Qed.

(** X23.  The summary that [analyze_complexes] builds never has more
    than one entry: every complex is stored under the same name, that
    of the folder, so the summary is empty when every complex was
    skipped, and otherwise holds the statistics of the last complex
    that was not skipped. *)
Theorem analyze_complexes_keeps_one_summary
  (complexes : list (string * (list string * list string)))
  (ignore_pae : bool) (summary_stats : dict complex_summary) :
  analyze_complexes get_lines_from_pdb_file pae_payload pdockq_rounded
    complex_name complexes max_distance min_plddt max_pae pae_mode valid_aas
    ignore_pae = Ok summary_stats ->
  (summary_stats = [] /\
   Forall (fun c =>
             analyze_complex get_lines_from_pdb_file pae_payload
               pdockq_rounded complex_name (fst (snd c)) (snd (snd c))
               max_distance min_plddt max_pae pae_mode valid_aas ignore_pae
             = Ok None) complexes) \/
  (exists before c after stats,
     complexes = before ++ c :: after /\
     analyze_complex get_lines_from_pdb_file pae_payload pdockq_rounded
       complex_name (fst (snd c)) (snd (snd c)) max_distance min_plddt
       max_pae pae_mode valid_aas ignore_pae = Ok (Some stats) /\
     Forall (fun c' =>
               analyze_complex get_lines_from_pdb_file pae_payload
                 pdockq_rounded complex_name (fst (snd c')) (snd (snd c'))
                 max_distance min_plddt max_pae pae_mode valid_aas ignore_pae
               = Ok None) after /\
     summary_stats = [(complex_name, stats)]).
Proof.
  revert summary_stats.
  induction complexes as [|c complexes IH] using rev_ind; intros summary H.
  - injection H as <-. left. split; [reflexivity | constructor].
  - rewrite analyze_complexes_snoc in H.
    match type of H with
    | (_ <- ?p ;; _) = _ => destruct p as [s0|] eqn:E0; [|discriminate]
    end.
    cbn [bind] in H.
    match type of H with
    | (_ <- ?p ;; _) = _ => destruct p as [[stats|]|] eqn:Ec; [| |discriminate]
    end; cbn [bind] in H; injection H as <-.
    + right. exists complexes, c, [], stats.
      split; [reflexivity|]. split; [exact Ec|]. split; [constructor|].
      destruct (IH s0 eq_refl) as [[-> _]|(b & c0 & a & st0 & _ & _ & _ & ->)].
      * reflexivity.
      * simpl. rewrite String.eqb_refl. reflexivity.
    + destruct (IH s0 eq_refl)
        as [[-> Hall]|(b & c0 & a & st0 & -> & Hc0 & Ha & ->)].
      * left. split; [reflexivity|]. apply Forall_app. split; [exact Hall|].
        constructor; [exact Ec | constructor].
      * right. exists b, c0, (a ++ [c]), st0.
        split; [rewrite <- app_assoc; reflexivity|].
        split; [exact Hc0|]. split; [|reflexivity].
        apply Forall_app. split; [exact Ha|].
        constructor; [exact Ec | constructor].
Qed.

End Rows.

(** The theorem on the two sample models, given in reverse order. *)
Lemma analyze_complex_reports_one_row_per_model_witness :
  exists s pdb_sorted,
    analyze_complex sample_pdb_files sample_pae_files sample_pdockq "a_b"
      ["a_b_model_2.pdb"; "a_b_model_1.pdb"]%string [] 8 50 15 "min" "" true
    = Ok (Some s) /\
    sort_by_model_num ["a_b_model_2.pdb"; "a_b_model_1.pdb"]%string
    = Ok pdb_sorted /\
    mapM get_af_model_num pdb_sorted = Ok (map fst (all_interface_stats s)) /\
    length (all_interface_stats s) = 2%nat /\
    Forall (fun row => (1 <= fst row <= 5)%Z) (all_interface_stats s) /\
    exists stats,
      In (best_model_num s, stats) (all_interface_stats s) /\
      best_avg_pdockq s = model_all_avg_pdockq stats /\
      best_avg_plddt s = model_all_avg_plddt stats /\
      best_avg_pae s = model_all_avg_pae stats.
Proof.
  destruct (analyze_complex sample_pdb_files sample_pae_files sample_pdockq
              "a_b" ["a_b_model_2.pdb"; "a_b_model_1.pdb"]%string [] 8 50 15
              "min" "" true) as [[s|]|] eqn:E;
    [|vm_compute in E; discriminate..].
  exists s.
  destruct (@analyze_complex_reports_one_row_per_model sample_pdb_files
              sample_pae_files sample_pdockq "a_b"%string 8 50 15
              "min"%string ""%string
              ["a_b_model_2.pdb"; "a_b_model_1.pdb"]%string [] true s E)
    as (pdb_sorted & H).
  exists pdb_sorted. split; [reflexivity | exact H].
Defined.

(** The theorem on two complexes: one summary entry. *)
Lemma analyze_complexes_keeps_one_summary_witness :
  exists summary_stats,
    analyze_complexes sample_pdb_files sample_pae_files sample_pdockq "a_b"
      [("a_b"%string, sample_files_of_complex "a_b");
       ("c_d"%string, sample_files_of_complex "c_d")]
      8 50 15 "min" "" true = Ok summary_stats /\
    length summary_stats = 1%nat.
Proof.
  destruct (analyze_complexes sample_pdb_files sample_pae_files sample_pdockq
              "a_b"
              [("a_b"%string, sample_files_of_complex "a_b");
               ("c_d"%string, sample_files_of_complex "c_d")]
              8 50 15 "min" "" true) as [summary|] eqn:E;
    [|vm_compute in E; discriminate].
  exists summary. split; [reflexivity|].
  destruct (@analyze_complexes_keeps_one_summary sample_pdb_files
              sample_pae_files sample_pdockq "a_b"%string 8 50 15
              "min"%string ""%string
              [("a_b"%string, sample_files_of_complex "a_b");
               ("c_d"%string, sample_files_of_complex "c_d")]
              true summary E)
    as [[-> _]|(b & c & a & stats & _ & _ & _ & ->)].
  - vm_compute in E. discriminate.
  - reflexivity.
Defined.

(** ** [get_chain_list_names] *)

Lemma snoc_adjacent {A : Type} (cs cs1 cs2 : list A) (c c1 c2 : A) :
  cs ++ [c] = cs1 ++ c1 :: c2 :: cs2 ->
  (exists cs2', cs = cs1 ++ c1 :: c2 :: cs2') \/
  (cs = cs1 ++ [c1] /\ c2 = c /\ cs2 = []).
Proof.
  intros E. destruct (last_cases cs2) as [->|(cs2' & x & ->)].
  - right. replace (cs1 ++ [c1; c2]) with ((cs1 ++ [c1]) ++ [c2]) in E
      by (rewrite <- app_assoc; reflexivity).
    apply app_inj_tail in E. destruct E as [-> ->]. auto.
  - left. exists cs2'.
    replace (cs1 ++ c1 :: c2 :: cs2' ++ [x])
      with ((cs1 ++ c1 :: c2 :: cs2') ++ [x]) in E
      by (rewrite <- app_assoc; reflexivity).
    apply app_inj_tail in E. destruct E as [-> _]. reflexivity.
Qed.

Lemma chain_names_step_ok (seen : list pdb_line)
  (acc : option string * list string) (l : pdb_line) :
  names_ok seen acc -> names_ok (seen ++ [l]) (chain_names_step acc l).
Proof.
  intros [Hlast Hadj Hsound Hcomp].
  destruct (@chain_names_step_cases acc l Hlast) as [Hlast' Hstep].
  assert (forall c, In c (snd acc) ->
            exists l0, In l0 (seen ++ [l]) /\ is_atom_record l0 = true /\
                       l_chain l0 = c) as Hsound'.
  { intros c Hc. destruct (Hsound c Hc) as (l0 & H0 & H1 & H2).
    exists l0. split; [apply in_or_app; left; exact H0 | auto]. }
  destruct Hstep as [E|(Hatom & Hne & E)].
  - rewrite E. constructor; try assumption.
    intros l0 Hin Ha. apply in_app_or in Hin. destruct Hin as [Hin|[<-|[]]];
      [apply Hcomp; assumption|].
    unfold chain_names_step in E. rewrite Ha in E. cbn [negb] in E.
    destruct (same_chain (l_chain l) (fst acc)) eqn:Es; cbn [negb] in E.
    + apply same_chain_true in Es.
      destruct Hlast as [[H1 _]|(cs & c & H1 & H2)]; [congruence|].
      rewrite Es in H2. injection H2 as <-. rewrite H1.
      apply in_or_app. right. left. reflexivity.
    + exfalso. apply (f_equal (fun p => length (snd p))) in E.
      cbn [snd] in E. rewrite length_app in E. simpl in E. lia.
  - rewrite E. constructor; cbn [snd].
    + right. exists (snd acc), (l_chain l). auto.
    + intros cs1 c1 c2 cs2 Eq. apply snoc_adjacent in Eq.
      destruct Eq as [[cs2' Eq]|(Eq & -> & _)]; [exact (Hadj _ _ _ _ Eq)|].
      destruct Hlast as [[_ H2]|(cs & c & H1 & H2)].
      * rewrite H2 in Eq. destruct cs1; discriminate.
      * rewrite H1 in Eq. apply app_inj_tail in Eq. destruct Eq as [_ ->].
        congruence.
    + intros c Hc. apply in_app_or in Hc. destruct Hc as [Hc|[<-|[]]];
        [apply Hsound', Hc|].
      exists l. split; [apply in_or_app; right; left; reflexivity | auto].
    + intros l0 Hin Ha. apply in_app_or in Hin.
      destruct Hin as [Hin|[<-|[]]].
      * apply in_or_app. left. apply Hcomp; assumption.
      * apply in_or_app. right. left. reflexivity.
Qed.

Lemma chain_names_fold_ok (lines seen : list pdb_line)
  (acc : option string * list string) :
  names_ok seen acc ->
  names_ok (seen ++ lines) (fold_left chain_names_step lines acc).
Proof.
  revert seen acc. induction lines as [|l lines IH]; intros seen acc H.
  - rewrite app_nil_r. exact H.
  - cbn [fold_left].
    replace (seen ++ l :: lines) with ((seen ++ [l]) ++ lines)
      by (rewrite <- app_assoc; reflexivity).
    apply IH, chain_names_step_ok, H.
Qed.

(** X24.  [get_chain_list_names] returns whenever the file is read; the
    names are those of the chains of the [ATOM] records, two names that
    follow each other differ, and the list is empty exactly when the
    file has no [ATOM] record. *)
Theorem chain_list_names_are_the_runs_of_chains
  (get_lines_from_pdb_file : string -> result (list pdb_line))
  (pdb_filename : string) (lines : list pdb_line) :
  get_lines_from_pdb_file pdb_filename = Ok lines ->
  exists chain_list,
    get_chain_list_names get_lines_from_pdb_file pdb_filename = Ok chain_list /\
    (forall c, In c chain_list <->
               exists l, In l lines /\ is_atom_record l = true /\
                         l_chain l = c) /\
    (forall i c1 c2, nth_error chain_list i = Some c1 ->
                     nth_error chain_list (S i) = Some c2 -> c1 <> c2) /\
    (chain_list = [] <-> Forall (fun l => is_atom_record l = false) lines).
Proof.
  intros H. rewrite (get_chain_list_names_fold _ _ H).
  eexists. split; [reflexivity|].
  assert (names_ok [] (None, [])) as H0.
  { constructor; cbn [snd].
    - left. auto.
    - intros cs1 c1 c2 cs2 E. destruct cs1; discriminate.
    - intros c [].
    - intros l []. }
  destruct (chain_names_fold_ok lines H0) as [_ Hadj Hsound Hcomp].
  simpl app in *.
  split; [|split].
  - intros c. split; [apply Hsound|].
    intros (l & Hin & Ha & <-). apply Hcomp; assumption.
  - intros i c1 c2 H1 H2.
    destruct (nth_error_adjacent _ _ H1 H2) as (l1 & l2 & E).
    exact (Hadj _ _ _ _ E).
  - split.
    + intros E. apply Forall_forall. intros l Hin.
      destruct (is_atom_record l) eqn:Ha; [|reflexivity].
      pose proof (Hcomp l Hin Ha) as Hc. rewrite E in Hc. destruct Hc.
    + intros Hall.
      destruct (snd (fold_left chain_names_step lines (None, [])))
        as [|c cs] eqn:E; [reflexivity|].
      destruct (Hsound c (or_introl eq_refl)) as (l & Hin & Ha & _).
      rewrite Forall_forall in Hall. rewrite (Hall l Hin) in Ha.
      discriminate.
Qed.

Lemma chain_list_names_are_the_runs_of_chains_witness :
  exists chain_list,
    get_chain_list_names sample_pdb_files "a_b_model_1.pdb" = Ok chain_list /\
    (forall c, In c chain_list <->
               exists l, In l near_lines /\ is_atom_record l = true /\
                         l_chain l = c) /\
    (forall i c1 c2, nth_error chain_list i = Some c1 ->
                     nth_error chain_list (S i) = Some c2 -> c1 <> c2) /\
    (chain_list = [] <->
     Forall (fun l => is_atom_record l = false) near_lines).
Proof.
  apply (@chain_list_names_are_the_runs_of_chains sample_pdb_files
           "a_b_model_1.pdb" near_lines).
  reflexivity.
Defined.

(** ** [get_af_model_num] *)

Lemma digits_pos (d : Decimal.uint) (acc : positive) :
  fold_left digit_step (list_ascii_of_string (NilEmpty.string_of_uint d))
    (Zpos acc)
  = Zpos (Pos.of_uint_acc d acc).
Proof.
  revert acc. induction d; intros acc; cbn [NilEmpty.string_of_uint
    list_ascii_of_string fold_left Pos.of_uint_acc]; [reflexivity|..];
    rewrite <- IHd; f_equal; unfold digit_step;
    rewrite ?Pos2Z.inj_add, ?Pos2Z.inj_mul;
    try match goal with
        | |- context [Z.of_nat ?n] =>
            let v := eval vm_compute in (Z.of_nat n) in
            change (Z.of_nat n) with v
        end; lia.
Qed.

Lemma digits_of_uint (d : Decimal.uint) :
  fold_left digit_step (list_ascii_of_string (NilEmpty.string_of_uint d)) 0%Z
  = Z.of_uint d.
Proof.
  unfold Z.of_uint.
  induction d; cbn [NilEmpty.string_of_uint list_ascii_of_string fold_left
    Pos.of_uint]; [reflexivity | exact IHd | ..];
    (etransitivity; [|apply digits_pos]); f_equal.
Qed.

Lemma string_of_uint_digits (d : Decimal.uint) :
  Forall (fun c => is_digit c = true)
    (list_ascii_of_string (NilEmpty.string_of_uint d)).
Proof. induction d; simpl; constructor; try reflexivity; assumption. Qed.

Lemma take_digits_app (s rest : string) :
  Forall (fun c => is_digit c = true) (list_ascii_of_string s) ->
  no_leading_digit rest ->
  take_digits (s ++ rest) = list_ascii_of_string s.
Proof.
  induction s as [|c s IH]; simpl; intros Hs Hr.
  - destruct rest as [|c rest]; [reflexivity|]. simpl in *. rewrite Hr.
    reflexivity.
  - inversion Hs as [|? ? Hc Hs']; subst. rewrite Hc, (IH Hs' Hr).
    reflexivity.
Qed.

Lemma str_of_int_digits (n : Z) :
  (0 <= n)%Z ->
  exists d, d <> Decimal.Nil /\
            str_of_int n = NilEmpty.string_of_uint d /\ Z.of_uint d = n.
Proof.
  intros Hn. unfold str_of_int.
  pose proof (DecimalZ.of_to n) as Hz.
  destruct n as [|p|p]; [| |lia].
  - exists (Decimal.D0 Decimal.Nil). repeat split. discriminate.
  - simpl in *. exists (Pos.to_uint p).
    assert (Pos.to_uint p <> Decimal.Nil) as Hnil
        by apply Unsigned.to_uint_nonnil.
    split; [exact Hnil|]. split; [|exact Hz].
    destruct (Pos.to_uint p); [congruence | reflexivity..].
Qed.

Lemma strip_prefix_app (p s : string) : strip_prefix p (p ++ s) = Some s.
Proof.
  induction p as [|c p IH]; simpl; [destruct s; reflexivity|].
  rewrite Ascii.eqb_refl. exact IH.
Qed.

Lemma contains_prefix (p s : string) :
  strip_prefix p s <> None -> contains p s = true.
Proof.
  intros H. destruct s; cbn [contains]; destruct (strip_prefix p _);
    try reflexivity; congruence.
Qed.

Lemma contains_app (p a b : string) : contains p (a ++ p ++ b) = true.
Proof.
  induction a as [|c a IH].
  - apply contains_prefix. simpl. rewrite strip_prefix_app. discriminate.
  - cbn [String.append contains].
    destruct (strip_prefix p (String c (a ++ p ++ b))); [reflexivity|].
    exact IH.
Qed.

Lemma contains_false (p s : string) (c : ascii) :
  contains p (String c s) = false ->
  strip_prefix p (String c s) = None /\ contains p s = false.
Proof.
  cbn [contains]. destruct (strip_prefix p (String c s)); [discriminate|].
  auto.
Qed.

(** The marker has no proper suffix that is also a prefix of it, so an
    occurrence cannot begin before the marker and run into it. *)
Lemma no_overlap (c : ascii) (s t : string) :
  strip_prefix "model_" (String c s) = None ->
  strip_prefix "model_" (String c s ++ "model_" ++ t) = None.
Proof.
  cbn [String.append strip_prefix].
  destruct (Ascii.eqb "m" c); [|reflexivity].
  destruct s as [|c1 s]; [reflexivity|]. cbn [String.append strip_prefix].
  destruct (Ascii.eqb "o" c1); [|reflexivity].
  destruct s as [|c2 s]; [reflexivity|]. cbn [String.append strip_prefix].
  destruct (Ascii.eqb "d" c2); [|reflexivity].
  destruct s as [|c3 s]; [reflexivity|]. cbn [String.append strip_prefix].
  destruct (Ascii.eqb "e" c3); [|reflexivity].
  destruct s as [|c4 s]; [reflexivity|]. cbn [String.append strip_prefix].
  destruct (Ascii.eqb "l" c4); [|reflexivity].
  destruct s as [|c5 s]; [reflexivity|]. cbn [String.append strip_prefix].
  destruct (Ascii.eqb "_" c5); [|reflexivity].
  discriminate.
Qed.

Lemma first_model_digits_app (prefix rest : string) (d : Decimal.uint) :
  d <> Decimal.Nil ->
  contains "model_" prefix = false ->
  no_leading_digit rest ->
  first_model_digits
    (prefix ++ "model_" ++ NilEmpty.string_of_uint d ++ rest)
  = Some (list_ascii_of_string (NilEmpty.string_of_uint d)).
Proof.
  intros Hd Hc Hr. induction prefix as [|c prefix IH].
  - change (EmptyString ++ "model_" ++ NilEmpty.string_of_uint d ++ rest)%string
      with (String "m" ("odel_" ++ NilEmpty.string_of_uint d ++ rest)).
    cbn [first_model_digits].
    change (String "m" ("odel_" ++ NilEmpty.string_of_uint d ++ rest))
      with ("model_" ++ (NilEmpty.string_of_uint d ++ rest))%string.
    rewrite strip_prefix_app.
    rewrite (take_digits_app _ _ (string_of_uint_digits d) Hr).
    destruct d; try reflexivity. congruence.
  - apply contains_false in Hc. destruct Hc as [Hs Hc].
    pose proof (@no_overlap c prefix (NilEmpty.string_of_uint d ++ rest) Hs)
      as Hno.
    specialize (IH Hc).
    cbn [String.append] in Hno, IH |- *. cbn [first_model_digits].
    rewrite Hno. exact IH.
Qed.

(** X25.  A file name without [model_] has model number 0; a model
    number is never negative; and a name that is a prefix without
    [model_], then [model_], the decimal digits of [n >= 0] and a rest
    that does not begin with a digit has model number [n]. *)
Theorem get_af_model_num_reads_the_first_number (filename : string) :
  (contains "model_" filename = false -> get_af_model_num filename = Ok 0%Z) /\
  (forall n, get_af_model_num filename = Ok n -> (0 <= n)%Z) /\
  (forall prefix rest n,
     (0 <= n)%Z -> contains "model_" prefix = false ->
     no_leading_digit rest ->
     filename = (prefix ++ "model_" ++ str_of_int n ++ rest)%string ->
     get_af_model_num filename = Ok n).
Proof.
  split; [|split].
  - intros H. unfold get_af_model_num. rewrite H. reflexivity.
  - intros n. unfold get_af_model_num.
    destruct (contains "model_" filename); cbn [negb].
    + destruct (first_model_digits filename) as [ds|]; [|discriminate].
      intros H. injection H as <-. unfold int_of_digits.
      assert (forall l acc, (0 <= acc)%Z ->
                (0 <= fold_left
                        (fun acc c =>
                           (10 * acc + Z.of_nat (nat_of_ascii c - 48))%Z)
                        l acc)%Z) as Hpos.
      { induction l as [|c l IH]; intros acc Ha; cbn [fold_left];
          [exact Ha|].
        apply IH. lia. }
      apply Hpos. lia.
    + intros H. injection H as <-. lia.
  - intros prefix rest n Hn Hc Hr ->.
    destruct (str_of_int_digits Hn) as (d & Hd & -> & <-).
    unfold get_af_model_num. rewrite contains_app. cbn [negb].
    rewrite (@first_model_digits_app prefix rest d Hd Hc Hr).
    f_equal. apply digits_of_uint.
Qed.

(** ** The atoms of a residue *)

Lemma parse_line_dropped (min_plddt : Q) (valid_aas : string)
  (st st' : parse_state) (l : pdb_line) :
  dropped min_plddt valid_aas l ->
  parse_line min_plddt valid_aas st l = Ok st' ->
  residues st' = residues st /\
  abs_res_index st'
  = (abs_res_index st
     + if is_atom_record l && is_nitrogen l then 1 else 0)%Z.
Proof.
  intros Hd H. unfold parse_line in H.
  destruct (is_atom_record l) eqn:Eatom; cbn [negb andb] in *.
  2:{ injection H as <-. split; [reflexivity | lia]. }
  destruct (Qltb (l_bfactor l) min_plddt) eqn:Eb.
  { injection H as <-. cbn [residues abs_res_index].
    split; [reflexivity|]. destruct (is_nitrogen l); lia. }
  destruct Hd as [Hd|[Hd|(aa & Haa & Hf)]]; try congruence.
  rewrite Haa, Hf in H. injection H as <-. cbn [residues abs_res_index].
  split; [reflexivity|]. destruct (is_nitrogen l); lia.
Qed.

Lemma parse_line_passes (min_plddt : Q) (valid_aas : string)
  (st st' : parse_state) (l : pdb_line) (aa : ascii) :
  Forall (fun c => c <> []) (residues st) ->
  passes min_plddt valid_aas l aa ->
  parse_line min_plddt valid_aas st l = Ok st' ->
  if is_nitrogen l
  then abs_res_index st' = (abs_res_index st + 1)%Z /\
       concat (residues st')
       = concat (residues st) ++ [new_residue l (abs_res_index st + 1) aa]
  else abs_res_index st' = abs_res_index st /\
       exists f0 r,
         concat (residues st) = f0 ++ [r] /\
         concat (residues st') = f0 ++ [add_atom (atom_from_pdb_line l) r].
Proof.
  intros Hne (Hatom & Hb & Haa & Hv) H. unfold parse_line in H.
  rewrite Hatom in H. cbn [negb] in H.
  apply Qltb_ge in Hb. rewrite Hb, Haa in H.
  assert ((0 <? String.length valid_aas)%nat && negb (char_in aa valid_aas)
          = false) as Hf.
  { destruct (0 <? String.length valid_aas)%nat eqn:E; [|reflexivity].
    apply Nat.ltb_lt in E. rewrite (Hv E). reflexivity. }
  rewrite Hf in H.
  destruct (is_nitrogen l) eqn:En; simpl in H.
  - match type of H with
    | (rs <- append_atom ?a ?rs0 ;; _) = _ =>
        destruct (append_atom a rs0) as [rs'|] eqn:Eap; [|discriminate]
    end.
    simpl in H. injection H as <-. cbn [abs_res_index residues].
    split; [reflexivity|].
    destruct (same_chain (l_chain l) (last_chain st)) eqn:Es; simpl in *.
    + destruct (last_cases (residues st)) as [E|(rs0 & c & E)].
      { rewrite E in Eap. discriminate. }
      rewrite E, push_last_snoc, append_atom_snoc in Eap.
      injection Eap as <-. rewrite add_atom_new.
      rewrite E, !concat_snoc, app_assoc. reflexivity.
    + rewrite push_last_snoc in Eap. rewrite append_atom_snoc in Eap.
      injection Eap as <-. rewrite add_atom_new.
      rewrite concat_snoc. reflexivity.
  - match type of H with
    | (rs <- append_atom ?a ?rs0 ;; _) = _ =>
        destruct (append_atom a rs0) as [rs'|] eqn:Eap; [|discriminate]
    end.
    simpl in H. injection H as <-. cbn [abs_res_index residues].
    split; [reflexivity|].
    destruct (append_atom_cases _ _ Eap)
      as [(rs0 & E & _)|(rs0 & c0 & r & E & E')].
    + exfalso. rewrite E in Hne. apply Forall_app in Hne.
      destruct Hne as [_ Hne]. inversion Hne; subst. congruence.
    + exists (concat rs0 ++ c0), r. rewrite E, E', !concat_snoc, !app_assoc.
      split; reflexivity.
Qed.

Lemma parse_line_dropped_ok (min_plddt : Q) (valid_aas : string)
  (st : parse_state) (l : pdb_line) :
  dropped min_plddt valid_aas l ->
  exists st', parse_line min_plddt valid_aas st l = Ok st'.
Proof.
  intros Hd. unfold parse_line.
  destruct (is_atom_record l) eqn:Eatom; cbn [negb]; [|eauto].
  destruct (Qltb (l_bfactor l) min_plddt) eqn:Eb; [eauto|].
  destruct Hd as [Hd|[Hd|(aa & Haa & Hf)]]; try congruence.
  rewrite Haa, Hf. eauto.
Qed.

Lemma parse_line_passes_ok (min_plddt : Q) (valid_aas : string)
  (st : parse_state) (l : pdb_line) (aa : ascii) :
  well_formed min_plddt valid_aas st ->
  passes min_plddt valid_aas l aa ->
  is_nitrogen l = true \/ residues st <> [] ->
  exists st', parse_line min_plddt valid_aas st l = Ok st'.
Proof.
  intros Hwf (Hatom & Hb & Haa & Hv) Hn. unfold parse_line.
  rewrite Hatom. cbn [negb].
  apply Qltb_ge in Hb. rewrite Hb, Haa.
  assert ((0 <? String.length valid_aas)%nat && negb (char_in aa valid_aas)
          = false) as Hf.
  { destruct (0 <? String.length valid_aas)%nat eqn:E; [|reflexivity].
    apply Nat.ltb_lt in E. rewrite (Hv E). reflexivity. }
  rewrite Hf.
  destruct Hwf as [_ Hch _ Hne Hlast _ _ _].
  destruct (is_nitrogen l) eqn:En; simpl.
  - destruct (same_chain (l_chain l) (last_chain st)) eqn:Es; simpl.
    + apply same_chain_true in Es.
      destruct Hlast as [[_ Hl]|(cs & c & Hc & _)]; [congruence|].
      destruct (last_cases (residues st)) as [E|(rs0 & c0 & E)].
      { apply Forall2_length_eq in Hch. rewrite Hc, E, length_app in Hch.
        simpl in Hch. lia. }
      rewrite E, push_last_snoc, append_atom_snoc. simpl. eauto.
    + rewrite push_last_snoc, append_atom_snoc. simpl. eauto.
  - destruct Hn as [Hn|Hn]; [discriminate|].
    destruct (last_cases (residues st)) as [E|(rs0 & c & E)]; [congruence|].
    destruct (last_cases c) as [->|(c0 & r & ->)].
    + exfalso. rewrite E in Hne. apply Forall_app in Hne.
      destruct Hne as [_ Hne]. inversion Hne; subst. congruence.
    + rewrite E, append_atom_snoc. simpl. eauto.
Qed.

Lemma with_atoms_nil (r : residue) : with_atoms r [] = r.
Proof. destruct r. unfold with_atoms. simpl. rewrite app_nil_r. reflexivity. Qed.

Lemma with_atoms_cons (r : residue) (l : pdb_line) (ls : list pdb_line) :
  with_atoms (add_atom (atom_from_pdb_line l) r) ls = with_atoms r (l :: ls).
Proof.
  unfold with_atoms, add_atom. simpl. rewrite <- app_assoc. reflexivity.
Qed.

Section Blocks.

Variables (min_plddt : Q) (valid_aas : string).

Lemma rest_of_kept_block (rest : list pdb_line) (aa : ascii)
  (st : parse_state) (f0 : list residue) (r : residue) :
  well_formed min_plddt valid_aas st ->
  concat (residues st) = f0 ++ [r] ->
  Forall (fun l => is_atom_record l = true ->
                   passes min_plddt valid_aas l aa /\ is_nitrogen l = false)
         rest ->
  exists st',
    foldM (parse_line min_plddt valid_aas) rest st = Ok st' /\
    well_formed min_plddt valid_aas st' /\
    abs_res_index st' = abs_res_index st /\
    concat (residues st')
    = f0 ++ [with_atoms r (filter is_atom_record rest)].
Proof.
  revert st r. induction rest as [|l rest IH]; intros st r Hwf Hflat Hall.
  - exists st. simpl. rewrite with_atoms_nil. auto.
  - inversion Hall as [|? ? Hl Hall']; subst. cbn [foldM filter].
    destruct (is_atom_record l) eqn:Eatom.
    + destruct (Hl eq_refl) as [Hp Hn].
      assert (residues st <> []) as Hne.
      { intros E. rewrite E in Hflat. destruct f0; discriminate. }
      destruct (@parse_line_passes_ok min_plddt valid_aas st l aa Hwf Hp
                  (or_intror Hne)) as [st1 E1].
      rewrite E1. cbn [bind].
      pose proof (@parse_line_well_formed min_plddt valid_aas st st1 _ Hwf E1)
        as Hwf1.
      pose proof (@parse_line_passes min_plddt valid_aas st st1 l aa
                    (wf_nonempty Hwf) Hp E1) as Hpp.
      rewrite Hn in Hpp. destruct Hpp as (Habs & f1 & r1 & Hf1 & Hf1').
      rewrite Hflat in Hf1. apply app_inj_tail in Hf1.
      destruct Hf1 as [<- <-].
      destruct (IH st1 _ Hwf1 Hf1' Hall') as (st' & E' & Hwf' & Habs' & Hfl').
      exists st'. split; [exact E'|]. split; [exact Hwf'|].
      split; [congruence|]. rewrite Hfl', with_atoms_cons. reflexivity.
    + assert (dropped min_plddt valid_aas l) as Hd by (left; exact Eatom).
      destruct (@parse_line_dropped_ok min_plddt valid_aas st _ Hd) as [st1 E1].
      rewrite E1. cbn [bind].
      pose proof (@parse_line_well_formed min_plddt valid_aas st st1 _ Hwf E1)
        as Hwf1.
      destruct (@parse_line_dropped min_plddt valid_aas st st1 _ Hd E1)
      as [Hres Habs].
      rewrite Eatom in Habs. cbn [andb] in Habs.
      assert (concat (residues st1) = f0 ++ [r]) as Hflat1
          by (rewrite Hres; exact Hflat).
      destruct (IH st1 r Hwf1 Hflat1 Hall') as (st' & E' & Hwf' & Habs' & Hfl').
      exists st'. split; [exact E'|]. split; [exact Hwf'|].
      split; [lia | exact Hfl'].
Qed.

Lemma rest_of_dropped_block (rest : list pdb_line) (st : parse_state) :
  well_formed min_plddt valid_aas st ->
  Forall (fun l => dropped min_plddt valid_aas l /\
                   (is_atom_record l = true -> is_nitrogen l = false)) rest ->
  exists st',
    foldM (parse_line min_plddt valid_aas) rest st = Ok st' /\
    well_formed min_plddt valid_aas st' /\
    abs_res_index st' = abs_res_index st /\
    residues st' = residues st.
Proof.
  revert st. induction rest as [|l rest IH]; intros st Hwf Hall.
  - exists st. simpl. auto.
  - inversion Hall as [|? ? [Hd Hn] Hall']; subst. cbn [foldM].
    destruct (@parse_line_dropped_ok min_plddt valid_aas st _ Hd) as [st1 E1].
    rewrite E1. cbn [bind].
    pose proof (@parse_line_well_formed min_plddt valid_aas st st1 _ Hwf E1)
        as Hwf1.
    destruct (@parse_line_dropped min_plddt valid_aas st st1 _ Hd E1)
      as [Hres Habs].
    assert (abs_res_index st1 = abs_res_index st) as Habs1.
    { destruct (is_atom_record l) eqn:Ea; cbn [andb] in Habs; [|lia].
      rewrite (Hn eq_refl) in Habs. lia. }
    destruct (IH st1 Hwf1 Hall') as (st' & E' & Hwf' & Habs' & Hres').
    exists st'. split; [exact E'|]. split; [exact Hwf'|].
    split; congruence.
Qed.

Lemma parse_block (b : block) (st : parse_state) :
  well_formed min_plddt valid_aas st ->
  well_grouped b -> named min_plddt b ->
  exists st',
    foldM (parse_line min_plddt valid_aas) (block_lines b) st = Ok st' /\
    well_formed min_plddt valid_aas st' /\
    abs_res_index st' = (abs_res_index st + 1)%Z /\
    concat (residues st')
    = concat (residues st)
      ++ block_residue min_plddt valid_aas (abs_res_index st + 1) b.
Proof.
  intros Hwf (Hatom & Hn & Hrest) Hnamed.
  destruct b as [n rest]. cbn [fst snd] in *.
  unfold block_lines, block_residue. cbn [fst snd foldM].
  assert (forall st1,
            dropped min_plddt valid_aas n ->
            parse_line min_plddt valid_aas st n = Ok st1 ->
            Forall (fun l => dropped min_plddt valid_aas l /\
                             (is_atom_record l = true ->
                              is_nitrogen l = false)) rest ->
            exists st',
              foldM (parse_line min_plddt valid_aas) rest st1 = Ok st' /\
              well_formed min_plddt valid_aas st' /\
              abs_res_index st' = (abs_res_index st + 1)%Z /\
              concat (residues st') = concat (residues st) ++ [])
    as Hdrop.
  { intros st1 Hd E1 Hall.
    pose proof (@parse_line_well_formed min_plddt valid_aas st st1 _ Hwf E1)
        as Hwf1.
    destruct (@parse_line_dropped min_plddt valid_aas st st1 _ Hd E1)
      as [Hres Habs].
    rewrite Hatom, Hn in Habs. cbn [andb] in Habs.
    destruct (rest_of_dropped_block Hwf1 Hall)
      as (st' & E' & Hwf' & Habs' & Hres').
    exists st'. split; [exact E'|]. split; [exact Hwf'|].
    split; [lia|]. rewrite app_nil_r. congruence. }
  destruct (Qltb (l_bfactor n) min_plddt) eqn:Eb.
  - assert (dropped min_plddt valid_aas n) as Hd by (right; left; exact Eb).
    destruct (@parse_line_dropped_ok min_plddt valid_aas st _ Hd) as [st1 E1].
    rewrite E1. cbn [bind]. apply (Hdrop st1 Hd E1).
    eapply Forall_impl; [|exact Hrest]. intros l Hl. cbn beta in Hl. split.
    + destruct (is_atom_record l) eqn:Ea; [|left; exact Ea].
      destruct (Hl eq_refl) as (_ & Hbf & _). right. left.
      rewrite Hbf. exact Eb.
    + intros Ha. apply (Hl Ha).
  - unfold named in Hnamed. cbn [fst] in Hnamed.
    destruct Hnamed as [Hnamed|Hnamed]; [congruence|].
    destruct (aa_3c_to_1c (l_res_name n)) as [aa|] eqn:Eaa; [|congruence].
    destruct ((0 <? String.length valid_aas)%nat
              && negb (char_in aa valid_aas)) eqn:Ef.
    + assert (dropped min_plddt valid_aas n) as Hd
          by (right; right; exists aa; auto).
      destruct (@parse_line_dropped_ok min_plddt valid_aas st _ Hd) as [st1 E1].
      rewrite E1. cbn [bind]. apply (Hdrop st1 Hd E1).
      eapply Forall_impl; [|exact Hrest]. intros l Hl. cbn beta in Hl. split.
      * destruct (is_atom_record l) eqn:Ea; [|left; exact Ea].
        destruct (Hl eq_refl) as (_ & _ & Hrn). right. right.
        exists aa. rewrite Hrn. auto.
      * intros Ha. apply (Hl Ha).
    + assert (forall l, l_bfactor l = l_bfactor n ->
                l_res_name l = l_res_name n -> is_atom_record l = true ->
                passes min_plddt valid_aas l aa) as Hpass.
      { intros l Hbf Hrn Ha. split; [exact Ha|].
        split; [rewrite Hbf; apply Qltb_ge, Eb|].
        split; [rewrite Hrn; exact Eaa|].
        intros Hv. apply Nat.ltb_lt in Hv. rewrite Hv in Ef.
        cbn [andb] in Ef. apply negb_false_iff in Ef. exact Ef. }
      pose proof (Hpass n eq_refl eq_refl Hatom) as Hp.
      destruct (@parse_line_passes_ok min_plddt valid_aas st n aa Hwf Hp
                  (or_introl Hn)) as [st1 E1].
      rewrite E1. cbn [bind].
      pose proof (@parse_line_well_formed min_plddt valid_aas st st1 _ Hwf E1)
        as Hwf1.
      pose proof (@parse_line_passes min_plddt valid_aas st st1 n aa
                    (wf_nonempty Hwf) Hp E1) as Hpp.
      rewrite Hn in Hpp. destruct Hpp as [Habs Hflat].
      destruct (@rest_of_kept_block rest aa st1 (concat (residues st))
                  (new_residue n (abs_res_index st + 1) aa) Hwf1 Hflat)
        as (st' & E' & Hwf' & Habs' & Hfl').
      { eapply Forall_impl; [|exact Hrest]. intros l Hl Ha. cbn beta in Hl.
        destruct (Hl Ha) as (Hnn & Hbf & Hrn).
        split; [apply Hpass; assumption | exact Hnn]. }
      exists st'. split; [exact E'|]. split; [exact Hwf'|].
      split; [lia|]. rewrite Hfl'. reflexivity.
Qed.

Lemma parse_blocks (blocks : list block) (st : parse_state) :
  well_formed min_plddt valid_aas st ->
  Forall well_grouped blocks -> Forall (named min_plddt) blocks ->
  exists st',
    foldM (parse_line min_plddt valid_aas) (flat_map block_lines blocks) st
    = Ok st' /\
    abs_res_index st' = (abs_res_index st + Z.of_nat (length blocks))%Z /\
    concat (residues st')
    = concat (residues st)
      ++ residues_of_blocks min_plddt valid_aas (abs_res_index st) blocks.
Proof.
  revert st. induction blocks as [|b blocks IH]; intros st Hwf Hg Hn.
  - exists st. simpl. rewrite app_nil_r.
    split; [reflexivity|]. split; [lia | reflexivity].
  - inversion Hg as [|? ? Hg1 Hg']; inversion Hn as [|? ? Hn1 Hn']; subst.
    cbn [flat_map]. rewrite foldM_app.
    destruct (parse_block Hwf Hg1 Hn1) as (st1 & E1 & Hwf1 & Habs1 & Hfl1).
    rewrite E1. cbn [bind].
    destruct (IH st1 Hwf1 Hg' Hn') as (st' & E' & Habs' & Hfl').
    exists st'. split; [exact E'|]. split.
    + rewrite Habs', Habs1. cbn [length]. lia.
    + rewrite Hfl', Hfl1, Habs1. cbn [residues_of_blocks].
      rewrite <- app_assoc. reflexivity.
Qed.

(** X26.  For a file that lists each residue as the record of its
    nitrogen followed by its other atoms, all with the residue name and
    the confidence of the nitrogen, and with residue names of the table
    wherever the confidence reaches [min_plddt], the parsing loop
    returns; the absolute index ends at the number of residues, and the
    stored residues, in file order, are the residues that pass the
    filters, each with its own [ATOM] records as atoms and its position
    in the file as absolute index. *)
Theorem residues_hold_their_own_atoms (header : list pdb_line)
  (blocks : list block) :
  Forall (fun l => is_atom_record l = false) header ->
  Forall well_grouped blocks ->
  Forall (named min_plddt) blocks ->
  exists st,
    parse_structure min_plddt valid_aas
      (header ++ flat_map block_lines blocks) = Ok st /\
    abs_res_index st = Z.of_nat (length blocks) /\
    concat (residues st) = residues_of_blocks min_plddt valid_aas 0 blocks.
Proof.
  intros Hh Hg Hn. unfold parse_structure. rewrite foldM_app.
  assert (well_formed min_plddt valid_aas parse_init) as Hwf0.
  { apply (parse_structure_well_formed min_plddt valid_aas []). reflexivity. }
  assert (foldM (parse_line min_plddt valid_aas) header parse_init
          = Ok parse_init) as ->.
  { clear -Hh. induction header as [|l header IH]; [reflexivity|].
    inversion Hh as [|? ? Hl Hh']; subst. cbn [foldM].
    unfold parse_line at 1. rewrite Hl. cbn [negb bind]. apply IH, Hh'. }
  cbn [bind].
  destruct (parse_blocks Hwf0 Hg Hn) as (st & E & Habs & Hfl).
  exists st. split; [exact E|]. split; [exact Habs | exact Hfl].
Qed.

End Blocks.

(** The theorem on the two residues of the first sample model. *)
Lemma residues_hold_their_own_atoms_witness :
  exists st,
    parse_structure 50 "" ([] ++ flat_map block_lines near_blocks) = Ok st /\
    abs_res_index st = Z.of_nat (length near_blocks) /\
    concat (residues st) = residues_of_blocks 50 "" 0 near_blocks.
Proof.
  apply (@residues_hold_their_own_atoms 50 ""%string [] near_blocks).
  - constructor.
  - repeat constructor.
  - unfold named. constructor; [right; discriminate|].
    constructor; [right; discriminate | constructor].
Defined.

